(* ===================================================================== *)
(* LoadBusTimetable.py (Fore Consulting, bus timetables into Aimsun):     *)
(* a shallow embedding of the script and the properties of its route-leg  *)
(* reconstruction, line registry, dwell-time pass and error log.          *)
(*                                                                       *)
(* Conventions of the embedding                                          *)
(*  - Python 2 [str] values are [string] (one [ascii] per byte).          *)
(*  - A stop visit is the tuple (stop_eid, time) of the script.           *)
(*  - A GKSection (a "link") is identified by its integer id.             *)
(*  - The Aimsun model is split in two: the network, which the script     *)
(*    only reads (lookup by external id, shortest paths, lookup by name), *)
(*    is given by section variables; what the script writes (PT lines,    *)
(*    the global error_log) is the explicit state [World].                *)
(*  - A timetable is stored with the PT line it is added to, and is an    *)
(*    object of the catalog in its own right for a lookup by name.        *)
(*  - A Python exception is a value of [exn]; code that can raise lives   *)
(*    in the state-and-exception monad [M], where a raise keeps every     *)
(*    mutation made before it.                                            *)
(* ===================================================================== *)

From Stdlib Require Import ZArith String Ascii List Lia DecimalString PrimFloat.
From stdpp Require Import base list option strings gmap.

Local Open Scope Z_scope.

(* --------------------------------------------------------------------- *)
(* Python string helpers                                                  *)
(* --------------------------------------------------------------------- *)

Definition nl : string := String "010"%char EmptyString.

(** [c in chars] for a character and a string used as a character set. *)
Definition char_in (chars : string) (c : ascii) : bool :=
  existsb (Ascii.eqb c) (list_ascii_of_string chars).

Fixpoint lstrip_list (chars : string) (l : list ascii) : list ascii :=
  match l with
  | c :: l' => if char_in chars c then lstrip_list chars l' else l
  | [] => []
  end.

(** [s.strip(chars)]: every leading and every trailing character that
    belongs to [chars] is removed. *)
Definition py_strip (chars : string) (s : string) : string :=
  string_of_list_ascii
    (rev (lstrip_list chars (rev (lstrip_list chars (list_ascii_of_string s))))).

(** The characters removed by [s.strip()] without argument. *)
Definition whitespace : string :=
  String " "%char (String "009"%char (String "010"%char
    (String "013"%char (String "011"%char (String "012"%char EmptyString))))).

Definition py_strip_ws (s : string) : string := py_strip whitespace s.

(** [s.split(",")]: always at least one field. *)
Fixpoint py_split (sep : ascii) (s : string) : list string :=
  match s with
  | EmptyString => [EmptyString]
  | String c s' =>
      if Ascii.eqb c sep then EmptyString :: py_split sep s'
      else match py_split sep s' with
           | h :: t => String c h :: t
           | [] => [String c EmptyString]
           end
  end.

(** [s.endswith(suffix)]. *)
Definition py_endswith (s suffix : string) : bool :=
  String.prefix (string_of_list_ascii (rev (list_ascii_of_string suffix)))
                (string_of_list_ascii (rev (list_ascii_of_string s))).

(** ["{}".format(n)] for a non-negative int. *)
Definition str_of_nat (n : nat) : string := NilZero.string_of_uint (Nat.to_uint n).

Fixpoint has_char (c : ascii) (s : string) : bool :=
  match s with
  | EmptyString => false
  | String d s' => if Ascii.eqb d c then true else has_char c s'
  end.

(** [re.sub(r'\([^)]*\)', '', s)]: scanning from the left, every "(" that
    has a ")" somewhere after it is removed together with everything up
    to and including the first such ")".  [inside] is true while the scan
    is between the two. *)
Fixpoint re_sub_parens_go (inside : bool) (s : string) : string :=
  match s with
  | EmptyString => EmptyString
  | String c s' =>
      if inside then
        if Ascii.eqb c ")" then re_sub_parens_go false s' else re_sub_parens_go true s'
      else if Ascii.eqb c "(" && has_char ")" s' then re_sub_parens_go true s'
      else String c (re_sub_parens_go false s')
  end.

Definition re_sub_parens (s : string) : string := re_sub_parens_go false s.

(** The lazy group of [r'\((.*?)\)'] tried right after a "(": the text up
    to the first ")", which "." must reach without meeting a newline. *)
Fixpoint lazy_group (s : string) : option string :=
  match s with
  | EmptyString => None
  | String c s' =>
      if Ascii.eqb c ")" then Some EmptyString
      else if Ascii.eqb c "010" then None
      else String c <$> lazy_group s'
  end.

(** [re.search(r'\((.*?)\)', s)]: [None] when nothing matches, else
    [group(1)] of the leftmost match. *)
Fixpoint re_search_parens (s : string) : option string :=
  match s with
  | EmptyString => None
  | String c s' =>
      if Ascii.eqb c "(" then
        match lazy_group s' with
        | Some g => Some g
        | None => re_search_parens s'
        end
      else re_search_parens s'
  end.

(** [ntpath.splitdrive] for a drive-letter path, then the part after the
    last separator: [os.path.basename] on the Windows host of the script
    (CSV_PATH is a drive-letter path). *)
Definition splitdrive_tail (p : string) : string :=
  match p with
  | String _ (String ":" rest) => rest
  | _ => p
  end.

Fixpoint basename_go (acc : string) (s : string) : string :=
  match s with
  | EmptyString => acc
  | String c s' =>
      if Ascii.eqb c "/" || Ascii.eqb c "\" then basename_go s' s'
      else basename_go acc s'
  end.

Definition basename (p : string) : string :=
  let t := splitdrive_tail p in basename_go t t.

(* --------------------------------------------------------------------- *)
(* Parameters of the script                                               *)
(* --------------------------------------------------------------------- *)

Definition CSV_PATH : string :=
  "C:\Users\Joel.Perren\Documents\Traveline Data\TransXChange\Wakefield Aimsun Model\CSV".

Definition BUS_ID : Z := 9.

(** ["{}\\{}".format(CSV_PATH, name)] *)
Definition csv_path_of (name : string) : string := CSV_PATH +:+ "\" +:+ name.

(* --------------------------------------------------------------------- *)
(* Exceptions                                                             *)
(* --------------------------------------------------------------------- *)

Inductive exn : Type :=
  | AttributeError (attr : string)   (* attribute access on None *)
  | IndexError                       (* list index out of range *)
  | AttributeErrorOn (cls attr : string).
                                     (* a method that objects of class cls lack *)

(** [str(e)], the text that ends up in the CSV FILE ERROR message. *)
Definition exn_str (e : exn) : string :=
  match e with
  | AttributeError a => "'NoneType' object has no attribute '" +:+ a +:+ "'"
  | IndexError => "list index out of range"
  | AttributeErrorOn c a => "'" +:+ c +:+ "' object has no attribute '" +:+ a +:+ "'"
  end.

(* --------------------------------------------------------------------- *)
(* Data model                                                             *)
(* --------------------------------------------------------------------- *)

(** (stop_eid, time) *)
Definition StopVisit : Type := string * string.

(** What the script reads of a catalog object found by external id:
    its identity, [getName()] and [getSection().getId()]. *)
Record BusStop : Type := mkBusStop {
  stop_id : Z;
  stop_name : string;
  stop_section : Z
}.

(** The dict built by find_route_legs. *)
Record Leg : Type := mkLeg {
  Route : list Z;
  Stops : list StopVisit
}.

(** The numbers held by a schedule's stop times.  The script compares
    them with the int 0 and hands the ints 20 and 10 back to the API;
    [dwell_20] and [dwell_10] are those two ints as the API stores them
    and [dwell_0] is the value of a stop time that was never set.  Both
    Python ints and the doubles of the C++ side are instances. *)
Class DwellNum (num : Type) : Type := {
  dwell_is0 : num -> bool;                 (* x == 0 *)
  dwell_0 : num;
  dwell_20 : num;
  dwell_10 : num;
  dwell_20_not0 : dwell_is0 dwell_20 = false;
  dwell_10_not0 : dwell_is0 dwell_10 = false
}.

#[export] Instance DwellNum_Z : DwellNum Z :=
  {| dwell_is0 := fun x => Z.eqb x 0; dwell_0 := 0; dwell_20 := 20; dwell_10 := 10;
     dwell_20_not0 := eq_refl; dwell_10_not0 := eq_refl |}.

#[export] Instance DwellNum_float : DwellNum float :=
  {| dwell_is0 := fun x => PrimFloat.eqb x 0%float;
     dwell_0 := 0%float; dwell_20 := 20%float; dwell_10 := 10%float;
     dwell_20_not0 := eq_refl; dwell_10_not0 := eq_refl |}.

(** GKPublicLineTimeTableScheduleDeparture as add_departure fills it. *)
Record Departure : Type := mkDeparture {
  dep_vehicle : Z;                  (* model.getCatalog().find(BUS_ID) *)
  dep_time : string;                (* QTime.fromString(time, "hh:mm:ss") *)
  dep_mean_time : nat * nat * nat   (* GKTimeDuration(0, 0, 0) *)
}.

Inductive DepartureType : Type := eFixed.

(** A schedule: its header, its departures in insertion order and the
    stop times, keyed by (bus stop or None, position) as in
    [getStopTime(bus_stop, 1)]; values are (mean, deviation). *)
Record Schedule (num : Type) : Type := mkSchedule {
  sched_time : nat * nat * nat;
  sched_departure_type : DepartureType;
  sched_duration : nat * nat * nat;
  sched_departures : list Departure;
  sched_stop_times : gmap (option Z * Z) (num * num)
}.
Arguments mkSchedule {num}.
Arguments sched_time {num}.
Arguments sched_departure_type {num}.
Arguments sched_duration {num}.
Arguments sched_departures {num}.
Arguments sched_stop_times {num}.

Record TimeTable (num : Type) : Type := mkTimeTable {
  tt_name : string;
  tt_schedules : list (Schedule num)
}.
Arguments mkTimeTable {num}.
Arguments tt_name {num}.
Arguments tt_schedules {num}.

(** A GKPublicLine.  [line_stops] is what setStops received: one slot per
    link of the route, None where no stop sits on the link. *)
Record PublicLine (num : Type) : Type := mkPublicLine {
  line_name : string;
  line_route : list Z;
  line_stops : list (option BusStop);
  line_timetables : list (TimeTable num);
  line_in_pt_folder : bool
}.
Arguments mkPublicLine {num}.
Arguments line_name {num}.
Arguments line_route {num}.
Arguments line_stops {num}.
Arguments line_timetables {num}.
Arguments line_in_pt_folder {num}.

(** What the script writes: the PT lines of the catalog in creation order
    (a line is referred to by its position, which never changes because
    the run only appends) and the global error_log. *)
Record World (num : Type) : Type := mkWorld {
  catalog : list (PublicLine num);
  error_log : list string
}.
Arguments mkWorld {num}.
Arguments catalog {num}.
Arguments error_log {num}.

(* --------------------------------------------------------------------- *)
(* State and exceptions                                                   *)
(* --------------------------------------------------------------------- *)

Definition M (num : Type) (A : Type) : Type := World num -> (exn + A) * World num.

Section Monad.
Context {num : Type}.

Definition ret {A} (a : A) : M num A := fun w => (inr a, w).
Definition raise {A} (e : exn) : M num A := fun w => (inl e, w).
Definition bind {A B} (m : M num A) (k : A -> M num B) : M num B :=
  fun w => match m w with
           | (inl e, w') => (inl e, w')
           | (inr a, w') => k a w'
           end.
Definition get_world : M num (World num) := fun w => (inr w, w).
Definition modify (f : World num -> World num) : M num unit := fun w => (inr tt, f w).

(** A value or an exception computed without touching the state. *)
Definition liftE {A} (r : exn + A) : M num A := fun w => (r, w).
End Monad.

Declare Scope M_scope.
Delimit Scope M_scope with M.
Notation "x <- c ;; k" := (bind c (fun x => k))
  (at level 100, c at next level, right associativity) : M_scope.
Notation "c ;;; k" := (bind c (fun _ => k))
  (at level 100, right associativity) : M_scope.

(** A [for x in l:] whose body can raise: the first raise ends the loop. *)
Fixpoint for_each {num A} (l : list A) (body : A -> M num unit) : M num unit :=
  match l with
  | [] => ret tt
  | x :: l' => bind (body x) (fun _ => for_each l' body)
  end.

(** [enumerate(l)] *)
Definition enumerate {A} (l : list A) : list (nat * A) := imap pair l.

(* --------------------------------------------------------------------- *)
(* Record updates used by the API calls                                   *)
(* --------------------------------------------------------------------- *)

Section Setters.
Context {num : Type}.

Definition blank_line : PublicLine num := mkPublicLine "" [] [] [] false.

Definition setName (name : string) (l : PublicLine num) : PublicLine num :=
  mkPublicLine name (line_route l) (line_stops l) (line_timetables l) (line_in_pt_folder l).
Definition setRoute (route : list Z) (l : PublicLine num) : PublicLine num :=
  mkPublicLine (line_name l) route (line_stops l) (line_timetables l) (line_in_pt_folder l).
Definition setStops (stops : list (option BusStop)) (l : PublicLine num) : PublicLine num :=
  mkPublicLine (line_name l) (line_route l) stops (line_timetables l) (line_in_pt_folder l).
Definition addTimeTable (t : TimeTable num) (l : PublicLine num) : PublicLine num :=
  mkPublicLine (line_name l) (line_route l) (line_stops l) (line_timetables l ++ [t])
               (line_in_pt_folder l).
Definition setTimeTables (ts : list (TimeTable num)) (l : PublicLine num) : PublicLine num :=
  mkPublicLine (line_name l) (line_route l) (line_stops l) ts (line_in_pt_folder l).
Definition append_to_pt_folder (l : PublicLine num) : PublicLine num :=
  mkPublicLine (line_name l) (line_route l) (line_stops l) (line_timetables l) true.

Definition setSchedules (ss : list (Schedule num)) (t : TimeTable num) : TimeTable num :=
  mkTimeTable (tt_name t) ss.

Definition addDepartureTime (d : Departure) (s : Schedule num) : Schedule num :=
  mkSchedule (sched_time s) (sched_departure_type s) (sched_duration s)
             (sched_departures s ++ [d]) (sched_stop_times s).

Definition getStopTime `{!DwellNum num} (s : Schedule num) (bus_stop : option BusStop) (pos : Z)
  : num * num :=
  default (dwell_0, dwell_0) (sched_stop_times s !! (stop_id <$> bus_stop, pos)).

Definition setStopTime (s : Schedule num) (bus_stop : option BusStop) (pos : Z)
    (mean deviation : num) : Schedule num :=
  mkSchedule (sched_time s) (sched_departure_type s) (sched_duration s) (sched_departures s)
             (<[(stop_id <$> bus_stop, pos) := (mean, deviation)]> (sched_stop_times s)).

(** An in-place change of the line that [pt_line] refers to. *)
Definition update_line (pt_line : nat) (f : PublicLine num -> PublicLine num) : M num unit :=
  modify (fun w => mkWorld (alter f pt_line (catalog w)) (error_log w)).

(** [GKSystem.getSystem().newObject("GKPublicLine", model)]: a fresh line
    enters the catalog; the result refers to it. *)
Definition new_public_line : M num nat :=
  fun w => (inr (length (catalog w)), mkWorld (catalog w ++ [blank_line]) (error_log w)).

(** What a catalog lookup can hand back: a PT line, the [k]-th timetable
    of a PT line, or an object of the network, of which only the class
    matters.  Timetables are catalog objects of their own
    ([newObject("GKPublicLineTimeTable", model)]; [delete_pt_routes]
    lists them by type). *)
Inductive CatalogObject : Type :=
  | ObjPublicLine (pt_line : nat)
  | ObjTimeTable (pt_line k : nat)
  | ObjNetwork (cls : string).

(** The lookup by name among the objects the script has created, in the
    order of their creation: each line is followed by the timetables made
    for it.  [i] is the position of the first line of [cat] in the whole
    catalog. *)
Fixpoint find_named (name : string) (i : nat) (cat : list (PublicLine num))
  : option CatalogObject :=
  match cat with
  | [] => None
  | l :: cat' =>
      if decide (line_name l = name) then Some (ObjPublicLine i)
      else
        match list_find (fun t => tt_name t = name) (line_timetables l) with
        | Some (k, _) => Some (ObjTimeTable i k)
        | None => find_named name (S i) cat'
        end
  end.
End Setters.

(* --------------------------------------------------------------------- *)
(* The script                                                             *)
(* --------------------------------------------------------------------- *)

Definition bus_station_ids : list string :=
  ["450030204"; "450030188"; "450030189"; "450030190"; "450030182"; "450030183";
   "450030184"; "450030185"; "450030186"; "450030196"; "450030197"; "450030191";
   "450030192"; "450030187"; "450030194"; "450030193"; "450030195"; "450030202";
   "450030203"; "450030198"; "450030199"; "450030200"; "450030201"; "450030331"].

(** The state of the loop of find_route_legs: the legs finished so far,
    the working route and stop buffer, and the global error_log. *)
Record Stitch : Type := mkStitch {
  st_legs : list Leg;
  st_route : list Z;
  st_route_stops : list StopVisit;
  st_error_log : list string
}.

(** [for link in path:] append unless equal to the route's last link. *)
Definition extend_route (route path : list Z) : list Z :=
  fold_left
    (fun route link =>
       match last route with
       | None => route ++ [link]
       | Some l => if Z.eqb link l then route else route ++ [link]
       end)
    path route.

Definition path_length_warning (a b : string) (path_len : nat) : string :=
  "PATH LENGTH WARNING: A calculated path between stop " +:+ a +:+ " and stop " +:+ b
  +:+ " is " +:+ str_of_nat path_len +:+ " sections long. This could be inaccurate.".

Definition parse_stop (stop : string) : exn + StopVisit :=
  let stop_eid := py_strip_ws (re_sub_parens stop) in
  match re_search_parens stop with
  | None => inl (AttributeError "group")
  | Some time => inr (stop_eid, time)
  end.

Fixpoint parse_stops (data : list string) : exn + list StopVisit :=
  match data with
  | [] => inr []
  | stop :: data' =>
      match parse_stop stop with
      | inl e => inl e
      | inr sv =>
          match parse_stops data' with
          | inl e => inl e
          | inr svs => inr (sv :: svs)
          end
      end
  end.

Definition csv_file_error (csv : string) (e : exn) : string :=
  "CSV FILE ERROR: Could not parse " +:+ csv +:+ ". " +:+ exn_str e +:+ ".".

(* --------------------------------------------------------------------- *)
(* output_errors                                                          *)
(* --------------------------------------------------------------------- *)

Record DateTime : Type := mkDateTime {
  dt_day : nat; dt_month : nat; dt_year : nat; dt_hour : nat; dt_minute : nat
}.

Definition pad2 (n : nat) : string :=
  if (n <? 10)%nat then "0" +:+ str_of_nat n else str_of_nat n.

(** [now.strftime("%d/%m/%Y")], for a four-digit year. *)
Definition strftime_date (now : DateTime) : string :=
  pad2 (dt_day now) +:+ "/" +:+ pad2 (dt_month now) +:+ "/" +:+ str_of_nat (dt_year now).

(** [now.strftime("%H:%M")] *)
Definition strftime_time (now : DateTime) : string :=
  pad2 (dt_hour now) +:+ ":" +:+ pad2 (dt_minute now).

(** What output_errors does to the outside: the file it wrote (path and
    text), if any, and the line it printed. *)
Record Output : Type := mkOutput {
  out_file : option (string * string);
  out_print : string
}.

(** [f.write(s)] on the text written so far. *)
Definition f_write (text s : string) : string := text +:+ s.

Definition output_errors (now : DateTime) (errors : list string) : Output :=
  let n := length errors in
  if (1 <? n)%nat then
    let name := csv_path_of "Error Log.txt" in
    let f := EmptyString in
    let f := f_write f (strftime_date now +:+ nl) in
    let f := f_write f (strftime_time now +:+ nl) in
    let f := f_write f nl in
    let f := f_write f (str_of_nat (length errors) +:+ " errors" +:+ nl) in
    let f := f_write f nl in
    let f := fold_left (fun f error => f_write f (error +:+ nl)) errors f in
    mkOutput (Some (name, f))
             ("Load Bus Timetable script complete!" +:+ nl +:+ str_of_nat n
              +:+ " warnings output to " +:+ name +:+ ".")
  else
    mkOutput None ("Load Bus Timetable complete!" +:+ nl +:+ "No warnings reported.").

(* --------------------------------------------------------------------- *)
(* A small network on which the script is run in the examples             *)
(* --------------------------------------------------------------------- *)

(** Stops A, B and C sit on sections 1, 2 and 3. *)
Definition ex_find (eid : string) : option BusStop :=
  if String.eqb eid "A" then Some (mkBusStop 101 "Alpha" 1)
  else if String.eqb eid "B" then Some (mkBusStop 102 "Beta" 2)
  else if String.eqb eid "C" then Some (mkBusStop 103 "Gamma" 3)
  else None.

(** Three links lead from A to B, nothing leads from B to C, and every
    other query raises. *)
Definition ex_getPath (a b : Z) : option (list Z) :=
  if (a =? 1) && (b =? 2) then Some [1; 10; 2]
  else if (a =? 2) && (b =? 3) then Some []
  else None.

Definition ex_world : World Z := mkWorld [] [].

Definition ex_trip : list StopVisit :=
  [("A", "08:00:00"); ("B", "08:05:00"); ("C", "08:10:00")].

(** Two legs between the same stops A and B, from two trips of one file. *)
Definition ex_legs : list Leg :=
  [mkLeg [1; 10; 2] [("A", "08:00:00"); ("B", "08:05:00")];
   mkLeg [1; 10; 2] [("A", "09:00:00"); ("B", "09:05:00")]].

(** Two files of the same directory: the name the legs of the second are
    given, "Timetable - 12: Alpha [A] to Beta [B]", is the name of the
    timetable made for the line of the first. *)
Definition ex_shadowed_batch : list (string * list string) :=
  [("12.csv", ["stops"; "A(08:00:00),B(08:05:00)"]);
   ("Timetable - 12.csv", ["stops"; "A(09:00:00),B(09:05:00)"; "A(10:00:00),B(10:05:00)"])].

(** One file whose first trip cannot be parsed and whose second trip runs
    from A to B. *)
Definition ex_batch : list (string * list string) :=
  [("12.csv", ["stops"; "A"; "A(08:00:00),B(08:05:00)"])].

(** A line whose stop at A has a mean of 0 and a deviation of 7, and whose
    second link has no stop. *)
Definition ex_dwell_world : World Z :=
  mkWorld
    [mkPublicLine "12: Alpha [A] to Beta [B]" [1; 10]
       [Some (mkBusStop 101 "Alpha" 1); None]
       [mkTimeTable "Timetable - 12: Alpha [A] to Beta [B]"
          [mkSchedule (0, 0, 0)%nat eFixed (23, 59, 59)%nat []
             (<[(Some 101, 1) := (0, 7)]> ∅)]]
       true]
    [].

(** The example network with the bus station as a fourth stop. *)
Definition ex_find_hub (eid : string) : option BusStop :=
  if String.eqb eid "Bus Station" then Some (mkBusStop 104 "Bus Station" 4)
  else ex_find eid.

(** The named objects of the example networks are their stops. *)
Definition ex_findByName (name : string) : option string :=
  if String.eqb name "Alpha" || String.eqb name "Beta" || String.eqb name "Gamma"
  then Some "GKBusStop" else None.

Definition ex_findByName_hub (name : string) : option string :=
  if String.eqb name "Bus Station" then Some "GKBusStop" else ex_findByName name.

(** Every query returns a path of 21 sections from the first section to
    the second. *)
Definition ex_getPath_long (a b : Z) : option (list Z) :=
  Some (a :: seqZ 100 19 ++ [b]).

(* --------------------------------------------------------------------- *)
(* The functions that read the network                                    *)
(* --------------------------------------------------------------------- *)

Section Script.
Context {num : Type} `{!DwellNum num}.

(** [model.getCatalog().findObjectByExternalId(eid)]; [None] is Python's None. *)
Variable findObjectByExternalId : string -> option BusStop.

(** [sp_manager.getPath(a, b)] between two sections: [Some path], with
    the empty list when there is no path, or [None] when the call raises. *)
Variable getPath : Z -> Z -> option (list Z).

(** [model.getCatalog().findByName(name)] as far as the network goes: the
    class of the object of the network that bears the name (a stop, a
    section, a folder, ...), or [None] when there is none.  PT lines and
    timetables are not of the network: the script deletes them and makes
    its own. *)
Variable network_findByName : string -> option string.

Local Open Scope M_scope.

(* ---- match_stops_in_model ---- *)

Definition match_stops_in_model (stops : list StopVisit) : list StopVisit :=
  fold_left
    (fun model_route stop =>
       match findObjectByExternalId stop.1 with
       | Some _ => model_route ++ [stop]
       | None =>
           if bool_decide (stop.1 ∈ bus_station_ids)
           then model_route ++ [("Bus Station", stop.2)]
           else model_route
       end)
    stops [].

(* ---- get_route_name ---- *)

Definition get_route_name (file_name first_stop last_stop : string) : exn + string :=
  let filename := py_strip ".csv" (basename file_name) in
  match findObjectByExternalId first_stop with
  | None => inl (AttributeError "getName")
  | Some fs =>
      match findObjectByExternalId last_stop with
      | None => inl (AttributeError "getName")
      | Some ls =>
          inr (filename +:+ ": " +:+ stop_name fs +:+ " [" +:+ first_stop +:+ "] to "
               +:+ stop_name ls +:+ " [" +:+ last_stop +:+ "]")
      end
  end.

(* ---- calculate_pt_leg ---- *)

(** The inner loop: the first stop of the leg that sits on [link]. *)
Fixpoint stop_on_link (link : Z) (stops : list StopVisit) : exn + option BusStop :=
  match stops with
  | [] => inr None
  | stop :: stops' =>
      match findObjectByExternalId stop.1 with
      | None => inl (AttributeError "getSection")
      | Some stop_obj =>
          if Z.eqb (stop_section stop_obj) link then inr (Some stop_obj)
          else stop_on_link link stops'
      end
  end.

(** The outer loop: one slot per link of the route. *)
Fixpoint added_stops (route : list Z) (stops : list StopVisit)
  : exn + list (option BusStop) :=
  match route with
  | [] => inr []
  | link :: route' =>
      match stop_on_link link stops with
      | inl e => inl e
      | inr slot =>
          match added_stops route' stops with
          | inl e => inl e
          | inr slots => inr (slot :: slots)
          end
      end
  end.

Definition calculate_pt_leg (pt_line : nat) (leg : Leg) : M num unit :=
  update_line pt_line (setRoute (Route leg)) ;;;
  slots <- liftE (added_stops (Route leg) (Stops leg)) ;;
  update_line pt_line (setStops slots).

(* ---- create_pt_line ---- *)

Definition create_pt_line (name : string) (leg : Leg) : M num nat :=
  pt_line <- new_public_line ;;
  update_line pt_line (setName name) ;;;
  calculate_pt_leg pt_line leg ;;;
  let schedule := mkSchedule (0, 0, 0)%nat eFixed (23, 59, 59)%nat [] ∅ in
  let timetable := mkTimeTable ("Timetable - " +:+ name) [schedule] in
  update_line pt_line (addTimeTable timetable) ;;;
  update_line pt_line append_to_pt_folder ;;;
  ret pt_line.

(* ---- add_departure ---- *)

Definition add_departure (pt_line : nat) (time : string) : M num unit :=
  w <- get_world ;;
  match catalog w !! pt_line with
  | None => raise (AttributeError "getTimeTables")
  | Some line =>
      match line_timetables line with
      | [] => raise IndexError
      | timetable :: _ =>
          match tt_schedules timetable with
          | [] => raise IndexError
          | _ :: _ =>
              let departure := mkDeparture BUS_ID time (0, 0, 0)%nat in
              update_line pt_line
                (fun l => setTimeTables
                   (alter (fun t => setSchedules
                             (alter (addDepartureTime departure) 0%nat (tt_schedules t)) t)
                          0%nat (line_timetables l)) l)
          end
      end
  end.

(** [add_departure] as [get_timetable] calls it, on whatever object the
    catalog lookup returned: its first statement,
    [pt_line.getTimeTables()], exists on a PT line only. *)
Definition add_departure_to (pt_line : CatalogObject) (time : string) : M num unit :=
  match pt_line with
  | ObjPublicLine pt_line => add_departure pt_line time
  | ObjTimeTable _ _ => raise (AttributeErrorOn "GKPublicLineTimeTable" "getTimeTables")
  | ObjNetwork cls => raise (AttributeErrorOn cls "getTimeTables")
  end.

(* ---- find_route_legs ---- *)

Fixpoint sections_of (stops : list StopVisit) : exn + list Z :=
  match stops with
  | [] => inr []
  | stop :: stops' =>
      match findObjectByExternalId stop.1 with
      | None => inl (AttributeError "getSection")
      | Some o =>
          match sections_of stops' with
          | inl e => inl e
          | inr ss => inr (stop_section o :: ss)
          end
      end
  end.

(** One turn of [for i, section in enumerate(sections)], with its
    try/except: an exception leaves what was mutated before it. *)
Definition find_route_legs_body (stops : list StopVisit) (sections : list Z)
    (st : Stitch) (i_section : nat * Z) : Stitch :=
  let '(i, section) := i_section in
  match sections !! (i + 1)%nat with
  | None => st                                   (* IndexError; except: pass *)
  | Some next =>
      match getPath section next with
      | None => st                               (* getPath raised; except: pass *)
      | Some path =>
          let path_len := length path in
          match stops !! i with
          | None => st                           (* IndexError; except: pass *)
          | Some stop_i =>
              let route_stops := st_route_stops st ++ [stop_i] in
              let warned :=
                if (20 <? path_len)%nat then
                  match stops !! (i + 1)%nat with
                  | None => None                 (* IndexError; except: pass *)
                  | Some stop_next =>
                      let warning := path_length_warning stop_i.1 stop_next.1 path_len in
                      if bool_decide (warning ∈ st_error_log st)
                      then Some (st_error_log st)
                      else Some (st_error_log st ++ [warning])
                  end
                else Some (st_error_log st) in
              match warned with
              | None => mkStitch (st_legs st) (st_route st) route_stops (st_error_log st)
              | Some log =>
                  if (length path =? 0)%nat then
                    mkStitch (st_legs st ++ [mkLeg (st_route st) route_stops]) [] [] log
                  else
                    mkStitch (st_legs st) (extend_route (st_route st) path) route_stops log
              end
          end
      end
  end.

Definition find_route_legs_loop (stops : list StopVisit) (sections : list Z)
    (st : Stitch) : Stitch :=
  fold_left (find_route_legs_body stops sections) (enumerate sections) st.

Definition find_route_legs (stops : list StopVisit) : M num (list Leg) :=
  sections <- liftE (sections_of stops) ;;
  w <- get_world ;;
  let st := find_route_legs_loop stops sections (mkStitch [] [] [] (error_log w)) in
  modify (fun w => mkWorld (catalog w) (st_error_log st)) ;;;
  match last stops with
  | None => raise IndexError
  | Some stop_last =>
      ret (st_legs st ++ [mkLeg (st_route st) (st_route_stops st ++ [stop_last])])
  end.

(* ---- get_timetable ---- *)

(** [model.getCatalog().findByName(name)]: the call names no type, so an
    object of that name is returned whatever its class: an object of the
    network or a timetable as well as a PT line.  Which one is returned
    when several objects bear the name is not said by the script; the
    first created is taken here, the network coming before what the
    script creates. *)
Definition findByName (name : string) (w : World num) : option CatalogObject :=
  match network_findByName name with
  | Some cls => Some (ObjNetwork cls)
  | None => find_named name 0 (catalog w)
  end.

(** The body of [for leg in route_legs:]; [file_name] is [csv.name],
    the path the file was opened with. *)
Definition get_timetable_leg (file_name : string) (leg : Leg) : M num unit :=
  if (length (Stops leg) <? 2)%nat then ret tt
  else
    match head (Stops leg), last (Stops leg) with
    | Some first, Some last_ =>
        leg_name <- liftE (get_route_name file_name first.1 last_.1) ;;
        w <- get_world ;;
        pt_line <- match findByName leg_name w with
                   | None => pt_line <- create_pt_line leg_name leg ;;
                             ret (ObjPublicLine pt_line)
                   | Some pt_line => ret pt_line
                   end ;;
        add_departure_to pt_line first.2
    | _, _ => raise IndexError
    end.

(** The body of [for i, row in enumerate(csv):]. *)
Definition get_timetable_row (csv_file : string) (i_row : nat * string) : M num unit :=
  let '(i, row) := i_row in
  let data := py_split "," (py_strip_ws row) in
  if (i =? 0)%nat then ret tt
  else
    stops <- liftE (parse_stops data) ;;
    let model_stops := match_stops_in_model stops in
    if (length model_stops =? 0)%nat then
      (* err = "ROUTE NOT IN MODEL: ...".format(csv_file, stops[0][1]) is
         built and dropped *)
      match stops !! 0%nat with
      | None => raise IndexError
      | Some _ => ret tt
      end
    else
      route_legs <- find_route_legs model_stops ;;
      for_each route_legs (get_timetable_leg (csv_path_of csv_file)).

(** [csv] holds the lines of the file named [csv_file] under CSV_PATH. *)
Definition get_timetable (csv_file : string) (csv : list string) : M num unit :=
  for_each (enumerate csv) (get_timetable_row csv_file).

(* ---- set_dwell_times ---- *)

Definition set_dwell_stop (schedule : Schedule num) (bus_stop : option BusStop)
  : Schedule num :=
  let stop_time := getStopTime schedule bus_stop 1 in
  let mean := stop_time.1 in
  let deviation := stop_time.2 in
  let mean := if dwell_is0 mean then dwell_20 else mean in
  let deviation := if dwell_is0 deviation then dwell_10 else deviation in
  setStopTime schedule bus_stop 1 mean deviation.

Definition set_dwell_line (public_line : PublicLine num) : PublicLine num :=
  let bus_stops := line_stops public_line in
  setTimeTables
    (map (fun timetable =>
            setSchedules
              (map (fun schedule => fold_left set_dwell_stop bus_stops schedule)
                   (tt_schedules timetable))
              timetable)
         (line_timetables public_line))
    public_line.

Definition set_dwell_times (w : World num) : World num :=
  mkWorld (map set_dwell_line (catalog w)) (error_log w).

(* ---- delete_pt_routes ---- *)

(** The delete commands remove every PT line and timetable. *)
Definition delete_pt_routes (w : World num) : World num :=
  mkWorld [] (error_log w).

(* ---- main script ---- *)

(** One turn of [for i, csv in enumerate(csv_files):] with its
    try/except; a file is its name and its lines. *)
Definition main_loop_body (w : World num) (csv : string * list string) : World num :=
  match get_timetable csv.1 csv.2 w with
  | (inl e, w') => mkWorld (catalog w') (csv_file_error csv.1 e :: error_log w')
  | (inr _, w') => w'
  end.

Definition main_loop (csv_files : list (string * list string)) (w : World num)
  : World num :=
  fold_left main_loop_body csv_files w.

(** The whole script: [dir] is [os.listdir(CSV_PATH)] with each file's lines. *)
Definition script (dir : list (string * list string)) (now : DateTime) (w : World num)
  : World num * Output :=
  let w := delete_pt_routes w in
  let csv_files := filter (fun file => py_endswith file.1 ".csv" = true) dir in
  let w := mkWorld (catalog w) [] in
  let w := main_loop csv_files w in
  let w := set_dwell_times w in
  (w, output_errors now (error_log w)).

(* ------------------------------------------------------------------- *)
(* The specification's wording, for comparison with the code            *)
(* ------------------------------------------------------------------- *)

(** The Stop Resolver in the words of the specification, one visit at a
    time: kept when the identifier resolves, folded into the hub stop
    when it does not resolve but is a hub identifier, dropped otherwise. *)
Definition stop_resolver_spec (stop : StopVisit) : option StopVisit :=
  match findObjectByExternalId stop.1 with
  | Some _ => Some stop
  | None =>
      if bool_decide (stop.1 ∈ bus_station_ids) then Some ("Bus Station", stop.2)
      else None
  end.

(** Hub folding alone: the visit that would be kept for this one if
    nothing were dropped. *)
Definition hub_fold (stop : StopVisit) : StopVisit :=
  match findObjectByExternalId stop.1 with
  | Some _ => stop
  | None =>
      if bool_decide (stop.1 ∈ bus_station_ids) then ("Bus Station", stop.2) else stop
  end.


(** No two consecutive links of a route are equal. *)
Definition no_adjacent_dup (route : list Z) : Prop :=
  ∀ (i : nat) (x y : Z), route !! i = Some x -> route !! (S i) = Some y -> x ≠ y.

(** What the loop of find_route_legs maintains. *)
Definition stitch_ok (st : Stitch) : Prop :=
  no_adjacent_dup (st_route st) ∧ Forall (fun leg => no_adjacent_dup (Route leg)) (st_legs st).

(** The departures of the schedule that add_departure writes to: the
    first schedule of the first timetable. *)
Definition line_departures (l : PublicLine num) : list Departure :=
  match line_timetables l with
  | timetable :: _ =>
      match tt_schedules timetable with
      | schedule :: _ => sched_departures schedule
      | [] => []
      end
  | [] => []
  end.

(** A line with exactly one timetable, which holds exactly one schedule. *)
Definition one_schedule (l : PublicLine num) : Prop :=
  ∃ timetable schedule,
    line_timetables l = [timetable] ∧ tt_schedules timetable = [schedule].

(** The state of the line registry between two legs: names are unique
    and every line has its timetable/schedule pair. *)
Definition registry_ok (cat : list (PublicLine num)) : Prop :=
  NoDup (line_name <$> cat) ∧ Forall one_schedule cat.

Definition lines_named (name : string) (cat : list (PublicLine num))
  : list (PublicLine num) :=
  filter (fun l => line_name l = name) cat.

Definition departures_of (name : string) (cat : list (PublicLine num)) : list Departure :=
  match lines_named name cat with
  | l :: _ => line_departures l
  | [] => []
  end.

(** The name get_timetable computes for a leg, when it can. *)
Definition leg_name (file_name : string) (leg : Leg) : option string :=
  match head (Stops leg), last (Stops leg) with
  | Some first, Some last_ =>
      match get_route_name file_name first.1 last_.1 with
      | inr name => Some name
      | inl _ => None
      end
  | _, _ => None
  end.

(** The departure that a leg adds to the line called [name]: none when
    the leg has fewer than two stops or computes another name, else one
    at the time of the leg's first stop. *)
Definition leg_departure (file_name name : string) (leg : Leg) : option Departure :=
  if (length (Stops leg) <? 2)%nat then None
  else
    match head (Stops leg) with
    | Some first =>
        if decide (leg_name file_name leg = Some name)
        then Some (mkDeparture BUS_ID first.2 (0, 0, 0)%nat)
        else None
    | None => None
    end.

(** Every stop of the leg is found in the network, as is the case for
    the legs find_route_legs returns. *)
Definition leg_resolves (leg : Leg) : Prop :=
  Forall (fun stop : StopVisit => is_Some (findObjectByExternalId stop.1)) (Stops leg).

(** The line create_pt_line leaves in the catalog when it returns. *)
Definition created_line (name : string) (leg : Leg) (slots : list (option BusStop))
  : PublicLine num :=
  mkPublicLine name (Route leg) slots
    [mkTimeTable ("Timetable - " +:+ name)
       [mkSchedule (0, 0, 0)%nat eFixed (23, 59, 59)%nat [] ∅]]
    true.

(** What add_departure does to the line it is given. *)
Definition with_departure (time : string) (l : PublicLine num) : PublicLine num :=
  setTimeTables
    (alter (fun t => setSchedules
              (alter (addDepartureTime (mkDeparture BUS_ID time (0, 0, 0)%nat)) 0%nat
                     (tt_schedules t)) t)
           0%nat (line_timetables l)) l.

(** The Dwell-Time Normalizer on one (mean, deviation) pair, in the words
    of the specification: a zero mean becomes 20, a zero deviation becomes
    10, each on its own. *)
Definition dwell_default (stop_time : num * num) : num * num :=
  (if dwell_is0 stop_time.1 then dwell_20 else stop_time.1,
   if dwell_is0 stop_time.2 then dwell_10 else stop_time.2).

(** The stop time that set_dwell_times reads and writes for a stop slot. *)
Definition stop_key (bus_stop : option BusStop) : option Z * Z := (stop_id <$> bus_stop, 1).

(** A message without a line break. *)
Definition no_newline (s : string) : Prop := has_char "010" s = false.

(** Each message followed by a line break. *)
Definition message_lines (errors : list string) : string :=
  fold_right (fun error text => error +:+ nl +:+ text) EmptyString errors.

(** The Batch Driver in the words of the specification: a failure is
    caught at the boundary of the trip (the row) that raised it, recorded
    at the front of the log, and the next trip of the same file is
    processed. *)
Definition spec_trip_body (csv_file : string) (w : World num) (i_row : nat * string)
  : World num :=
  match get_timetable_row csv_file i_row w with
  | (inl e, w') => mkWorld (catalog w') (csv_file_error csv_file e :: error_log w')
  | (inr _, w') => w'
  end.

Definition spec_main_loop (csv_files : list (string * list string)) (w : World num)
  : World num :=
  fold_left (fun w csv => fold_left (spec_trip_body csv.1) (enumerate csv.2) w) csv_files w.

(** Nothing is rolled back between two catalogs: every line of the first
    is still there, at its place, with its name and route, and its
    departures are the old ones, possibly followed by more. *)
Definition persists (cat cat' : list (PublicLine num)) : Prop :=
  ∀ (i : nat) l, cat !! i = Some l ->
    ∃ l', cat' !! i = Some l'
          ∧ line_name l' = line_name l
          ∧ line_route l' = line_route l
          ∧ line_departures l `prefix_of` line_departures l'.

(** From one state to a later one while a file is read: lines persist and
    the log grows at its end. *)
Definition world_grows (w w' : World num) : Prop :=
  persists (catalog w) (catalog w') ∧ error_log w `prefix_of` error_log w'.

(** The error log after the length check of one pair: a warning is added
    when the path has more than 20 sections and the log does not hold
    that very text yet. *)
Definition log_warning (log : list string) (stop_i stop_next : StopVisit) (path : list Z)
  : list string :=
  if (20 <? length path)%nat then
    let warning := path_length_warning stop_i.1 stop_next.1 (length path) in
    if bool_decide (warning ∈ log) then log else log ++ [warning]
  else log.

(** A turn of the loop of find_route_legs whose query returned [path]. *)
Definition stitch_pair (st : Stitch) (stop_i stop_next : StopVisit) (path : list Z) : Stitch :=
  let log := log_warning (st_error_log st) stop_i stop_next path in
  if (length path =? 0)%nat then
    mkStitch (st_legs st ++ [mkLeg (st_route st) (st_route_stops st ++ [stop_i])]) [] [] log
  else
    mkStitch (st_legs st) (extend_route (st_route st) path) (st_route_stops st ++ [stop_i]) log.

(** The pairs (sections[i], sections[i + 1]) that the loop queries. *)
Definition consecutive_pairs (sections : list Z) : list (Z * Z) :=
  zip sections (drop 1 sections).

(** The stops of the finished legs followed by the stop buffer. *)
Definition stitched_stops (st : Stitch) : list StopVisit :=
  concat (Stops <$> st_legs st) ++ st_route_stops st.

(** The paths of the consecutive pairs of sections laid end to end, a
    link being skipped when it repeats the last link laid. *)
Definition stitched_route (sections : list Z) : list Z :=
  fold_left (fun route p => extend_route route (default [] (getPath p.1 p.2)))
            (consecutive_pairs sections) [].

(** The query between the two sections returns the empty path. *)
Definition no_path (p : Z * Z) : Prop := getPath p.1 p.2 = Some [].

#[global] Instance no_path_dec (p : Z * Z) : Decision (no_path p).
Proof. unfold no_path. apply _. Defined.

(** A message of the form the length check writes, for a path of more
    than 20 sections. *)
Definition is_length_warning (msg : string) : Prop :=
  ∃ a b (n : nat), (20 < n)%nat ∧ msg = path_length_warning a b n.

(** How the error log can change while find_route_legs runs: entries are
    only added, at the end; they are path-length warnings; no entry is
    added twice; and nothing is added at all when no path is longer than
    20 sections. *)
Definition log_grows (log log' : list string) : Prop :=
  log `prefix_of` log'
  ∧ (NoDup log -> NoDup log')
  ∧ (∀ msg, msg ∈ log' -> msg ∈ log ∨ is_length_warning msg)
  ∧ ((∀ a b path, getPath a b = Some path -> (length path <= 20)%nat) -> log' = log).

(** Every token of the row has the form get_timetable can read. *)
Definition row_parses (row : string) : Prop :=
  ∃ stops, parse_stops (py_split "," (py_strip_ws row)) = inr stops.

(** What a stop slot of a line is for the link it is aligned with: the
    network stop of the first stop of the leg that sits on the link, or
    nothing when no stop of the leg sits on it. *)
Definition first_stop_on (link : Z) (stops : list StopVisit) (slot : option BusStop) : Prop :=
  match slot with
  | Some o =>
      stop_section o = link
      ∧ ∃ (k : nat) stop,
          stops !! k = Some stop
          ∧ findObjectByExternalId stop.1 = Some o
          ∧ ∀ (j : nat) stop', (j < k)%nat -> stops !! j = Some stop' ->
              ∃ o', findObjectByExternalId stop'.1 = Some o' ∧ stop_section o' ≠ link
  | None =>
      ∀ stop, stop ∈ stops ->
        ∃ o, findObjectByExternalId stop.1 = Some o ∧ stop_section o ≠ link
  end.

(** The second log is the first one followed by path-length warnings. *)
Definition appends_warnings (log log' : list string) : Prop :=
  ∃ warnings, log' = log ++ warnings ∧ Forall is_length_warning warnings.

(** A line as the script leaves it once the leg that created it has been
    handled: in the PT folder, with a non-empty route, one stop slot per
    link, at least one departure, and a single timetable, named after the
    line, holding a single fixed schedule for the whole day. *)
Definition line_complete (l : PublicLine num) : Prop :=
  line_in_pt_folder l = true
  ∧ line_route l ≠ []
  ∧ length (line_stops l) = length (line_route l)
  ∧ line_departures l ≠ []
  ∧ ∃ schedule,
      line_timetables l = [mkTimeTable ("Timetable - " +:+ line_name l) [schedule]]
      ∧ sched_time schedule = (0, 0, 0)%nat
      ∧ sched_departure_type schedule = eFixed
      ∧ sched_duration schedule = (23, 59, 59)%nat.

(** The legs that get_timetable makes of a row: those find_route_legs
    returns for the stops of the row that are in the model (they do not
    depend on the state), and none when the row cannot be read, has no
    stop in the model, or find_route_legs raises. *)
Definition row_legs (row : string) : list Leg :=
  match parse_stops (py_split "," (py_strip_ws row)) with
  | inl _ => []
  | inr stops =>
      let model_stops := match_stops_in_model stops in
      if (length model_stops =? 0)%nat then []
      else match find_route_legs model_stops (mkWorld [] []) with
           | (inr legs, _) => legs
           | (inl _, _) => []
           end
  end.

(** The first PT line of a name, among the PT lines alone. *)
Definition find_line (name : string) (cat : list (PublicLine num)) : option nat :=
  fst <$> list_find (fun l => line_name l = name) cat.

(** Every timetable of the catalog bears the name create_pt_line gives
    it: "Timetable - " followed by the name of its line. *)
Definition timetables_named (cat : list (PublicLine num)) : Prop :=
  Forall (fun l => Forall (fun t => tt_name t = "Timetable - " +:+ line_name l)
                          (line_timetables l)) cat.

(** A name that does not begin the way the names of timetables do. *)
Definition plain_name (name : string) : Prop :=
  String.prefix "Timetable - " name = false.

(** A file whose name, as get_route_name shortens it, is plain: the names
    of its legs then differ from the name of every timetable. *)
Definition plain_source (file_name : string) : Prop :=
  plain_name (py_strip ".csv" (basename file_name)).

(** No object of the network bears a name that get_route_name gives to
    a leg of the file. *)
Definition names_free (file_name : string) : Prop :=
  ∀ first_stop last_stop name,
    get_route_name file_name first_stop last_stop = inr name ->
    network_findByName name = None.

(** No line and no timetable of the catalog bears the name. *)
Definition name_unused (name : string) (cat : list (PublicLine num)) : Prop :=
  ∀ l, l ∈ cat -> line_name l ≠ name ∧ ∀ t, t ∈ line_timetables l -> tt_name t ≠ name.

(** The files of the main loop at which get_timetable raises, each with
    its exception, in the order of the loop; every file is run from the
    state the loop has reached when its turn comes. *)
Fixpoint failed_files (csv_files : list (string * list string)) (w : World num)
  : list (string * exn) :=
  match csv_files with
  | [] => []
  | csv :: rest =>
      match get_timetable csv.1 csv.2 w with
      | (inl e, _) => [(csv.1, e)]
      | (inr _, _) => []
      end ++ failed_files rest (main_loop_body w csv)
  end.

(* ------------------------------------------------------------------- *)
(* Stop Resolver                                                        *)
(* ------------------------------------------------------------------- *)

Lemma match_stops_fold (stops acc : list StopVisit) :
  fold_left
    (fun model_route stop =>
       match findObjectByExternalId stop.1 with
       | Some _ => model_route ++ [stop]
       | None =>
           if bool_decide (stop.1 ∈ bus_station_ids)
           then model_route ++ [("Bus Station", stop.2)]
           else model_route
       end)
    stops acc
  = acc ++ omap stop_resolver_spec stops.
Proof.
  revert acc. induction stops as [|stop stops IH]; intros acc; simpl.
  - by rewrite app_nil_r.
  - rewrite IH. unfold stop_resolver_spec.
    destruct (findObjectByExternalId stop.1); [by rewrite <- app_assoc|].
    destruct (bool_decide _); [by rewrite <- app_assoc|done].
Qed.

Lemma match_stops_omap (stops : list StopVisit) :
  match_stops_in_model stops = omap stop_resolver_spec stops.
Proof. unfold match_stops_in_model. by rewrite match_stops_fold. Qed.

Lemma resolver_spec_hub_fold (stop kept : StopVisit) :
  stop_resolver_spec stop = Some kept -> kept = hub_fold stop ∧ kept.2 = stop.2.
Proof.
  unfold stop_resolver_spec, hub_fold.
  destruct (findObjectByExternalId stop.1); [by intros [= <-]|].
  destruct (bool_decide _); [by intros [= <-]|done].
Qed.

Lemma py_split_nonempty (sep : ascii) (s : string) : py_split sep s ≠ [].
Proof.
  induction s as [|c s IH]; simpl; [done|].
  destruct (Ascii.eqb c sep); [done|]. by destruct (py_split sep s).
Qed.

Lemma parse_stops_length data stops :
  parse_stops data = inr stops -> length stops = length data.
Proof.
  revert stops. induction data as [|stop data IH]; intros stops; simpl.
  - by intros [= <-].
  - destruct (parse_stop stop) as [e|sv]; [done|].
    destruct (parse_stops data) as [e|svs]; [done|].
    intros [= <-]. simpl. f_equal. by apply IH.
Qed.

(** C7: the Stop Resolver never raises (it is a total function to lists)
    and handles the visits one by one, in order: kept unchanged, folded
    into ("Bus Station", time), or dropped.  Its result is therefore a
    subsequence of the hub-folded input, its times are a subsequence of
    the input's times, and when every visit is dropped it is the empty
    list, on which the row of the file ends without an exception and
    without any effect. *)
Theorem match_stops_in_model_subsequence (stops : list StopVisit) :
  match_stops_in_model stops = omap stop_resolver_spec stops
  ∧ match_stops_in_model stops `sublist_of` (hub_fold <$> stops)
  ∧ (snd <$> match_stops_in_model stops) `sublist_of` (snd <$> stops)
  ∧ ((∀ stop, stop ∈ stops -> findObjectByExternalId stop.1 = None ∧ stop.1 ∉ bus_station_ids)
     -> match_stops_in_model stops = [])
  ∧ (∀ csv_file (i : nat) row (w : World num),
        parse_stops (py_split "," (py_strip_ws row)) = inr stops ->
        match_stops_in_model stops = [] ->
        get_timetable_row csv_file (S i, row) w = (inr tt, w)).
Proof.
  rewrite match_stops_omap. split; [done|].
  assert (Hrow : ∀ csv_file (i : nat) row (w : World num),
             parse_stops (py_split "," (py_strip_ws row)) = inr stops ->
             omap stop_resolver_spec stops = [] ->
             get_timetable_row csv_file (S i, row) w = (inr tt, w)).
  { intros csv_file i row w Hparse Hnone. unfold get_timetable_row, bind, liftE.
    rewrite Hparse, match_stops_omap, Hnone. simpl.
    apply parse_stops_length in Hparse.
    destruct stops as [|stop stops']; [|done].
    by destruct (py_split_nonempty "," (py_strip_ws row)); destruct (py_split _ _). }
  cut (omap stop_resolver_spec stops `sublist_of` (hub_fold <$> stops)
       ∧ (snd <$> omap stop_resolver_spec stops) `sublist_of` (snd <$> stops)
       ∧ ((∀ stop, stop ∈ stops
                   -> findObjectByExternalId stop.1 = None ∧ stop.1 ∉ bus_station_ids)
          -> omap stop_resolver_spec stops = [])).
  { intros (H1 & H2 & H3). done. }
  clear Hrow. induction stops as [|stop stops (IH1 & IH2 & IH3)]; simpl.
  { repeat split; try constructor. }
  destruct (stop_resolver_spec stop) as [kept|] eqn:E.
  - destruct (resolver_spec_hub_fold _ _ E) as [-> Ht].
    repeat split.
    + by constructor.
    + simpl. rewrite Ht. by constructor.
    + intros Hall. destruct (Hall stop) as [Hn Hh]; [left|].
      unfold stop_resolver_spec in E. rewrite Hn in E.
      rewrite bool_decide_eq_false_2 in E; done.
  - repeat split.
    + by constructor.
    + by constructor.
    + intros Hall. apply IH3. intros s Hs. apply Hall. by right.
Qed.

(* ------------------------------------------------------------------- *)
(* Line names                                                           *)
(* ------------------------------------------------------------------- *)

Lemma lstrip_list_spec (chars : string) (l : list ascii) :
  ∃ pre, l = pre ++ lstrip_list chars l
         ∧ forallb (char_in chars) pre = true
         ∧ (∀ c, head (lstrip_list chars l) = Some c -> char_in chars c = false).
Proof.
  induction l as [|c l (pre & Hl & Hpre & Hhd)]; simpl.
  - exists []. by repeat split.
  - destruct (char_in chars c) eqn:E.
    + exists (c :: pre). simpl. rewrite E, Hpre. split; [by f_equal|done].
    + exists []. simpl. repeat split. by intros ? [= <-].
Qed.

(** [s.strip(chars)] takes away a prefix and a suffix made of characters
    of [chars], and what is left neither begins nor ends with one. *)
Lemma py_strip_spec (chars s : string) :
  ∃ pre suf,
    list_ascii_of_string s = pre ++ list_ascii_of_string (py_strip chars s) ++ suf
    ∧ forallb (char_in chars) pre = true
    ∧ forallb (char_in chars) suf = true
    ∧ (∀ c, head (list_ascii_of_string (py_strip chars s)) = Some c
            -> char_in chars c = false)
    ∧ (∀ c, last (list_ascii_of_string (py_strip chars s)) = Some c
            -> char_in chars c = false).
Proof.
  unfold py_strip. rewrite list_ascii_of_string_of_list_ascii.
  destruct (lstrip_list_spec chars (list_ascii_of_string s)) as (pre & Hl & Hpre & Hhd).
  set (x := lstrip_list chars (list_ascii_of_string s)) in *.
  destruct (lstrip_list_spec chars (rev x)) as (suf & Hr & Hsuf & Hlst).
  set (y := lstrip_list chars (rev x)) in *.
  assert (Hx : x = rev y ++ rev suf).
  { rewrite <- rev_app_distr, <- Hr. by rewrite rev_involutive. }
  exists pre, (rev suf). repeat split.
  - by rewrite <- Hx.
  - done.
  - rewrite forallb_forall in *. intros c Hc. apply Hsuf. by apply in_rev.
  - intros c Hc. apply Hhd. rewrite Hx.
    destruct (rev y); [done|]. by simpl in *.
  - intros c Hc. apply Hlst. destruct y as [|d y']; [done|].
    simpl in Hc. by rewrite last_snoc in Hc.
Qed.

Definition no_separator (name : string) : Prop :=
  has_char "/" name = false ∧ has_char "\" name = false.

Lemma basename_go_no_separator (name acc : string) :
  no_separator name -> basename_go acc name = acc.
Proof.
  revert acc. induction name as [|c name IH]; intros acc [H1 H2]; [done|].
  simpl in *.
  destruct (Ascii.eqb c "/"); [done|]. destruct (Ascii.eqb c "\"); [done|].
  simpl. by apply IH.
Qed.

Lemma basename_csv_path_of (csv_file : string) :
  no_separator csv_file -> basename (csv_path_of csv_file) = csv_file.
Proof.
  intros H. unfold basename, csv_path_of, CSV_PATH. simpl.
  by apply basename_go_no_separator.
Qed.

(** C10: the prefix of a line name is the file name stripped, at both
    ends, of every character among ".", "c", "s" and "v".  For
    "services.csv" this is "ervice", not the stem "services", and the
    files "services.csv" and "ervice.csv" give the same line names. *)
Theorem get_route_name_strip_csv (csv_file first_stop last_stop : string) (fs ls : BusStop) :
  no_separator csv_file ->
  findObjectByExternalId first_stop = Some fs ->
  findObjectByExternalId last_stop = Some ls ->
  (∃ source pre suf,
      get_route_name (csv_path_of csv_file) first_stop last_stop
      = inr (source +:+ ": " +:+ stop_name fs +:+ " [" +:+ first_stop +:+ "] to "
             +:+ stop_name ls +:+ " [" +:+ last_stop +:+ "]")
      ∧ list_ascii_of_string csv_file = pre ++ list_ascii_of_string source ++ suf
      ∧ forallb (char_in ".csv") pre = true
      ∧ forallb (char_in ".csv") suf = true
      ∧ (∀ c, head (list_ascii_of_string source) = Some c -> char_in ".csv" c = false)
      ∧ (∀ c, last (list_ascii_of_string source) = Some c -> char_in ".csv" c = false))
  ∧ py_strip ".csv" (basename (csv_path_of "services.csv")) = "ervice"
  ∧ "ervice" ≠ "services"
  ∧ "services.csv" ≠ "ervice.csv"
  ∧ get_route_name (csv_path_of "services.csv") first_stop last_stop
    = get_route_name (csv_path_of "ervice.csv") first_stop last_stop.
Proof.
  intros Hsep Hfs Hls. split; [|by repeat split].
  destruct (py_strip_spec ".csv" csv_file) as (pre & suf & H).
  exists (py_strip ".csv" csv_file), pre, suf. split; [|exact H].
  unfold get_route_name. by rewrite basename_csv_path_of, Hfs, Hls.
Qed.
(* ------------------------------------------------------------------- *)
(* Path Stitcher                                                        *)
(* ------------------------------------------------------------------- *)

Lemma no_adjacent_dup_nil : no_adjacent_dup [].
Proof. intros i x y H. by rewrite lookup_nil in H. Qed.

Lemma no_adjacent_dup_snoc (route : list Z) (link : Z) :
  no_adjacent_dup route -> last route ≠ Some link -> no_adjacent_dup (route ++ [link]).
Proof.
  intros Hr Hl i x y Hx Hy.
  apply lookup_snoc_Some in Hy as [[Hlt Hy]|[Hi ->]].
  - rewrite lookup_app_l in Hx by lia. by eapply Hr.
  - rewrite lookup_app_l in Hx by lia.
    intros ->. apply Hl. rewrite last_lookup, <- Hi. done.
Qed.

Lemma extend_route_no_adjacent_dup (path route : list Z) :
  no_adjacent_dup route -> no_adjacent_dup (extend_route route path).
Proof.
  unfold extend_route. revert route.
  induction path as [|link path IH]; intros route Hr; simpl; [done|].
  apply IH. destruct (last route) as [l|] eqn:El.
  - destruct (Z.eqb_spec link l) as [->|Hne]; [done|].
    apply no_adjacent_dup_snoc; [done|]. rewrite El. congruence.
  - apply no_adjacent_dup_snoc; [done|]. by rewrite El.
Qed.

Lemma find_route_legs_body_ok stops sections st i_section :
  stitch_ok st -> stitch_ok (find_route_legs_body stops sections st i_section).
Proof.
  intros [Hr Hl]. destruct i_section as [i section]. unfold find_route_legs_body.
  destruct (sections !! (i + 1)%nat); [|done].
  destruct (getPath section z) as [path|]; [|done].
  destruct (stops !! i) as [stop_i|]; [|done].
  match goal with |- stitch_ok (match ?w with _ => _ end) => destruct w as [log|] end;
    [|done].
  destruct (length path =? 0)%nat.
  - split; simpl; [apply no_adjacent_dup_nil|].
    apply Forall_app. split; [done|]. by constructor.
  - split; simpl; [by apply extend_route_no_adjacent_dup|done].
Qed.

Lemma find_route_legs_loop_ok stops sections st :
  stitch_ok st -> stitch_ok (find_route_legs_loop stops sections st).
Proof.
  unfold find_route_legs_loop. generalize (enumerate sections). intros l. revert st.
  induction l as [|x l IH]; intros st Hst; simpl; [done|].
  apply IH. by apply find_route_legs_body_ok.
Qed.

(** find_route_legs returns its legs whenever every stop resolves and
    there is at least one stop; the catalog is not touched. *)
Lemma find_route_legs_returns stops sections stop_last (w : World num) :
  sections_of stops = inr sections ->
  last stops = Some stop_last ->
  let st := find_route_legs_loop stops sections (mkStitch [] [] [] (error_log w)) in
  find_route_legs stops w
  = (inr (st_legs st ++ [mkLeg (st_route st) (st_route_stops st ++ [stop_last])]),
     mkWorld (catalog w) (st_error_log st)).
Proof.
  intros Hs Hl. unfold find_route_legs, bind, liftE, get_world, modify, ret.
  by rewrite Hs, Hl.
Qed.

Lemma find_route_legs_inr stops legs (w w' : World num) :
  find_route_legs stops w = (inr legs, w') ->
  ∃ sections stop_last,
    sections_of stops = inr sections ∧ last stops = Some stop_last.
Proof.
  unfold find_route_legs, bind, liftE, get_world, modify, ret, raise.
  destruct (sections_of stops) as [e|sections]; [done|].
  destruct (last stops) as [stop_last|]; [|done]. eauto.
Qed.

(** C5: whatever the shortest-path queries return, no leg returned by
    find_route_legs has two consecutive equal links in its route. *)
Theorem find_route_legs_no_adjacent_dup stops legs (w w' : World num) :
  find_route_legs stops w = (inr legs, w') ->
  Forall (fun leg => no_adjacent_dup (Route leg)) legs.
Proof.
  intros H. destruct (find_route_legs_inr _ _ _ _ H) as (sections & stop_last & Hs & Hl).
  rewrite (find_route_legs_returns _ _ _ _ Hs Hl) in H. injection H as <- _.
  destruct (find_route_legs_loop_ok stops sections (mkStitch [] [] [] (error_log w)))
    as [Hr Hlegs].
  { split; [apply no_adjacent_dup_nil|constructor]. }
  apply Forall_app. split; [done|]. by constructor.
Qed.

Lemma enumerate_lookup {A} (l : list A) (i : nat) (x : A) :
  l !! i = Some x -> enumerate l !! i = Some (i, x).
Proof. intros H. unfold enumerate. by rewrite list_lookup_imap, H. Qed.

(** C4: when the query for the pair (i, i+1) raises, the turn of the loop
    for i changes nothing (neither the finished legs, nor the working
    route, nor the stop buffer, nor the error log), and the loop goes on:
    its result is that of the later turns run on the state the earlier
    turns left. *)
Theorem find_route_legs_swallows_query_failure
    stops sections (i : nat) (section next : Z) (st : Stitch) :
  sections !! i = Some section ->
  sections !! (i + 1)%nat = Some next ->
  getPath section next = None ->
  find_route_legs_body stops sections st (i, section) = st
  ∧ find_route_legs_loop stops sections st
    = fold_left (find_route_legs_body stops sections)
        (drop (S i) (enumerate sections))
        (fold_left (find_route_legs_body stops sections) (take i (enumerate sections)) st).
Proof.
  intros Hi Hn Hq.
  assert (Hb : ∀ st', find_route_legs_body stops sections st' (i, section) = st').
  { intros st'. unfold find_route_legs_body. by rewrite Hn, Hq. }
  split; [done|].
  unfold find_route_legs_loop.
  rewrite <- (take_drop_middle _ _ _ (enumerate_lookup _ _ _ Hi)) at 1.
  rewrite fold_left_app. cbn [fold_left]. by rewrite Hb.
Qed.

(** C1 (as the code has it): on the trip A, B, C with a three-link path
    from A to B and an empty path from B to C, find_route_legs returns
    two legs and leaves the state alone.  The first leg holds the links
    of the path (all three when no link is immediately repeated) and the
    stops A and B; the second has an empty route and the single stop C,
    because B was put in the buffer of the leg that the empty path
    closed. *)
Theorem find_route_legs_ABC (a b c : BusStop) (l1 l2 l3 : Z) (w : World num) :
  findObjectByExternalId "A" = Some a ->
  findObjectByExternalId "B" = Some b ->
  findObjectByExternalId "C" = Some c ->
  getPath (stop_section a) (stop_section b) = Some [l1; l2; l3] ->
  getPath (stop_section b) (stop_section c) = Some [] ->
  find_route_legs ex_trip w
  = (inr [mkLeg (extend_route [] [l1; l2; l3]) [("A", "08:00:00"); ("B", "08:05:00")];
          mkLeg [] [("C", "08:10:00")]], w)
  ∧ (l1 ≠ l2 -> l2 ≠ l3 -> extend_route [] [l1; l2; l3] = [l1; l2; l3]).
Proof.
  intros Ha Hb Hc Hab Hbc. split.
  - rewrite (find_route_legs_returns ex_trip
               [stop_section a; stop_section b; stop_section c] ("C", "08:10:00")).
    + unfold find_route_legs_loop, enumerate, find_route_legs_body. simpl.
      rewrite Hab. simpl. rewrite Hbc. simpl. by destruct w.
    + simpl. by rewrite Ha, Hb, Hc.
    + done.
  - intros H12 H23. unfold extend_route. simpl.
    destruct (Z.eqb_spec l2 l1) as [E|_]; [congruence|]. simpl.
    destruct (Z.eqb_spec l3 l2) as [E|_]; [congruence|]. done.
Qed.

(* ------------------------------------------------------------------- *)
(* Line Registry                                                        *)
(* ------------------------------------------------------------------- *)

Lemma append_cons (c : ascii) (a b : string) : String c a +:+ b = String c (a +:+ b).
Proof. done. Qed.

Lemma append_nil_l (a : string) : EmptyString +:+ a = a.
Proof. done. Qed.

Lemma append_nil_r (a : string) : a +:+ EmptyString = a.
Proof. induction a as [|x a IH]; [done|]. by rewrite append_cons, IH. Qed.

Lemma append_assoc (a b c : string) : (a +:+ b) +:+ c = a +:+ (b +:+ c).
Proof. induction a as [|x a IH]; [done|]. by rewrite !append_cons, IH. Qed.

Lemma alter_snoc {A} (f : A -> A) (l : list A) (x : A) :
  alter f (length l) (l ++ [x]) = l ++ [f x].
Proof. by rewrite <- (Nat.add_0_r (length l)), alter_app_r. Qed.

Lemma stop_on_link_resolves link stops :
  Forall (fun stop : StopVisit => is_Some (findObjectByExternalId stop.1)) stops ->
  ∃ slot, stop_on_link link stops = inr slot.
Proof.
  induction 1 as [|stop stops [o Ho] _ [slot IH]]; simpl; [eauto|].
  rewrite Ho. destruct (Z.eqb _ _); eauto.
Qed.

Lemma added_stops_resolves route stops :
  Forall (fun stop : StopVisit => is_Some (findObjectByExternalId stop.1)) stops ->
  ∃ slots, added_stops route stops = inr slots.
Proof.
  intros H. induction route as [|link route [slots IH]]; simpl; [eauto|].
  destruct (stop_on_link_resolves link stops H) as [slot ->]. rewrite IH. eauto.
Qed.

(** create_pt_line, run: the new line enters the catalog at once and
    stays there, half built, when calculate_pt_leg raises. *)
Lemma create_pt_line_run name leg (w : World num) :
  create_pt_line name leg w
  = match added_stops (Route leg) (Stops leg) with
    | inl e =>
        (inl e, mkWorld (catalog w ++ [mkPublicLine name (Route leg) [] [] false])
                        (error_log w))
    | inr slots =>
        (inr (length (catalog w)),
         mkWorld (catalog w ++ [created_line name leg slots]) (error_log w))
    end.
Proof.
  unfold create_pt_line, calculate_pt_leg, new_public_line, update_line, bind, modify,
    liftE, ret. simpl. rewrite !alter_snoc.
  destruct (added_stops (Route leg) (Stops leg)) as [e|slots]; simpl; [done|].
  by rewrite !alter_snoc.
Qed.

Lemma add_departure_run pt_line time line (w : World num) :
  catalog w !! pt_line = Some line ->
  one_schedule line ->
  add_departure pt_line time w
  = (inr tt, mkWorld (alter (with_departure time) pt_line (catalog w)) (error_log w)).
Proof.
  intros Hl (t & s & Ht & Hs). unfold add_departure, bind, get_world. rewrite Hl, Ht, Hs.
  done.
Qed.

Lemma with_departure_name time (l : PublicLine num) :
  line_name (with_departure time l) = line_name l.
Proof. done. Qed.

Lemma with_departure_one_schedule time (l : PublicLine num) :
  one_schedule l -> one_schedule (with_departure time l).
Proof.
  intros (t & s & Ht & Hs). unfold with_departure, one_schedule. simpl. rewrite Ht. simpl.
  rewrite Hs. simpl. eauto.
Qed.

Lemma with_departure_departures time (l : PublicLine num) :
  one_schedule l ->
  line_departures (with_departure time l)
  = line_departures l ++ [mkDeparture BUS_ID time (0, 0, 0)%nat].
Proof.
  intros (t & s & Ht & Hs). unfold with_departure, line_departures. simpl. rewrite Ht.
  simpl. by rewrite Hs.
Qed.

Lemma lines_named_absent name (cat : list (PublicLine num)) :
  name ∉ line_name <$> cat -> lines_named name cat = [].
Proof.
  unfold lines_named. induction cat as [|x cat IH]; [done|].
  rewrite fmap_cons, not_elem_of_cons. intros [Hx Hc].
  rewrite filter_cons_False by congruence. by apply IH.
Qed.

Lemma lines_named_NoDup (cat : list (PublicLine num)) (i : nat) (l : PublicLine num) :
  NoDup (line_name <$> cat) -> cat !! i = Some l -> lines_named (line_name l) cat = [l].
Proof.
  unfold lines_named. revert i.
  induction cat as [|x cat IH]; intros i Hnd Hl; [done|].
  rewrite fmap_cons in Hnd. apply NoDup_cons in Hnd as [Hx Hnd].
  destruct i as [|i]; simpl in Hl.
  - injection Hl as ->. rewrite filter_cons_True by done.
    f_equal. by apply lines_named_absent.
  - rewrite filter_cons_False; [by eapply IH|].
    intros E. apply Hx. rewrite E. apply list_elem_of_fmap. exists l.
    split; [done|]. by eapply list_elem_of_lookup_2.
Qed.

Lemma lines_named_alter_other name (f : PublicLine num -> PublicLine num)
    (cat : list (PublicLine num)) (i : nat) (l : PublicLine num) :
  (∀ x, line_name (f x) = line_name x) ->
  cat !! i = Some l -> line_name l ≠ name ->
  lines_named name (alter f i cat) = lines_named name cat.
Proof.
  intros Hf. unfold lines_named. revert i.
  induction cat as [|x cat IH]; intros i Hl Hne; [done|].
  destruct i as [|i]; simpl in *.
  - injection Hl as ->. rewrite !filter_cons_False; [done|done|by rewrite Hf].
  - specialize (IH i Hl Hne). destruct (decide (line_name x = name)) as [E|E].
    + rewrite !filter_cons_True by done. by f_equal.
    + by rewrite !filter_cons_False.
Qed.

Lemma fmap_name_alter (f : PublicLine num -> PublicLine num)
    (cat : list (PublicLine num)) (i : nat) :
  (∀ x, line_name (f x) = line_name x) ->
  line_name <$> alter f i cat = line_name <$> cat.
Proof.
  intros Hf. revert i. induction cat as [|x cat IH]; intros [|i]; try done.
  - cbn. by rewrite Hf.
  - cbn. f_equal. apply IH.
Qed.

Lemma lines_named_length (name : string) (cat : list (PublicLine num)) :
  NoDup (line_name <$> cat) -> (length (lines_named name cat) <= 1)%nat.
Proof.
  intros Hnd. destruct (lines_named name cat) as [|l ls] eqn:E; [simpl; lia|].
  assert (Hin : l ∈ lines_named name cat) by (rewrite E; left).
  unfold lines_named in Hin. apply list_elem_of_filter in Hin as [Hn Hin].
  apply list_elem_of_lookup in Hin as [i Hi].
  rewrite <- Hn, (lines_named_NoDup _ _ _ Hnd Hi) in E. inversion E. simpl. lia.
Qed.

Lemma find_line_Some name (cat : list (PublicLine num)) (i : nat) :
  find_line name cat = Some i ->
  ∃ l, cat !! i = Some l ∧ line_name l = name.
Proof.
  unfold find_line. destruct (list_find _ _) as [[j l]|] eqn:E; [|done].
  simpl. intros [= <-]. apply list_find_Some in E as (Hl & Hn & _). eauto.
Qed.

Lemma find_line_None name (cat : list (PublicLine num)) :
  find_line name cat = None -> name ∉ line_name <$> cat.
Proof.
  unfold find_line. destruct (list_find _ _) as [[j l]|] eqn:E; [done|].
  intros _ Hin. apply list_elem_of_fmap in Hin as (l & -> & Hin).
  rewrite list_find_None, Forall_forall in E. by apply (E l).
Qed.

(** A PT line that the catalog lookup returns bears the name. *)
Lemma find_named_line name (i j : nat) (cat : list (PublicLine num)) :
  find_named name i cat = Some (ObjPublicLine j) ->
  ∃ l, (i <= j)%nat ∧ cat !! (j - i)%nat = Some l ∧ line_name l = name.
Proof.
  revert i. induction cat as [|x cat IH]; intros i; simpl; [done|].
  destruct (decide (line_name x = name)) as [Hx|Hx].
  - intros [= <-]. exists x. by rewrite Nat.sub_diag.
  - destruct (list_find _ _) as [[k t]|]; [done|].
    intros H. apply IH in H as (l & Hle & Hl & Hn). exists l.
    split; [lia|]. split; [|done].
    by replace (j - i)%nat with (S (j - S i)) by lia.
Qed.

(** A timetable that the catalog lookup returns bears the name. *)
Lemma find_named_timetable name (i j k : nat) (cat : list (PublicLine num)) :
  find_named name i cat = Some (ObjTimeTable j k) ->
  ∃ l t, (i <= j)%nat ∧ cat !! (j - i)%nat = Some l
         ∧ line_timetables l !! k = Some t ∧ tt_name t = name.
Proof.
  revert i. induction cat as [|x cat IH]; intros i; simpl; [done|].
  destruct (decide (line_name x = name)) as [Hx|Hx]; [done|].
  destruct (list_find _ _) as [[k' t]|] eqn:E.
  - intros [= <- <-]. apply list_find_Some in E as (Ht & Hn & _).
    exists x, t. by rewrite Nat.sub_diag.
  - intros H. apply IH in H as (l & t & Hle & Hl & Ht & Hn). exists l, t.
    split; [lia|]. split; [|done].
    by replace (j - i)%nat with (S (j - S i)) by lia.
Qed.

(** The lookup returns nothing only when no object bears the name. *)
Lemma find_named_None name (i : nat) (cat : list (PublicLine num)) :
  find_named name i cat = None <-> name_unused name cat.
Proof.
  revert i. induction cat as [|x cat IH]; intros i; simpl.
  { split; [|done]. intros _ l Hl. by apply elem_of_nil in Hl. }
  split.
  - destruct (decide (line_name x = name)) as [Hx|Hx]; [done|].
    destruct (list_find _ _) as [[k t]|] eqn:E; [done|].
    intros H l Hl. apply elem_of_cons in Hl as [-> | Hl].
    + split; [done|]. intros t Ht.
      rewrite list_find_None, Forall_forall in E. by apply E.
    + by apply (IH (S i)).
  - intros Hun. destruct (Hun x) as [Hx Ht]; [left|].
    rewrite decide_False by done.
    destruct (list_find _ _) as [[k t]|] eqn:E.
    + apply list_find_Some in E as (Hk & Hn & _).
      destruct (Ht t); [by eapply list_elem_of_lookup_2|done].
    + apply IH. intros l Hl. apply Hun. by right.
Qed.

Lemma findByName_line name (w : World num) (i : nat) :
  findByName name w = Some (ObjPublicLine i) ->
  ∃ l, catalog w !! i = Some l ∧ line_name l = name.
Proof.
  unfold findByName. destruct (network_findByName name); [done|].
  intros H. apply find_named_line in H as (l & _ & Hl & Hn).
  rewrite Nat.sub_0_r in Hl. eauto.
Qed.

Lemma findByName_None name (w : World num) :
  findByName name w = None <->
  network_findByName name = None ∧ name_unused name (catalog w).
Proof.
  unfold findByName. destruct (network_findByName name).
  - split; [done|]. by intros [? _].
  - rewrite find_named_None. split; [done|]. by intros [_ ?].
Qed.

Lemma name_unused_lines name (cat : list (PublicLine num)) :
  name_unused name cat -> name ∉ line_name <$> cat.
Proof.
  intros H Hin. apply list_elem_of_fmap in Hin as (l & -> & Hin). by destruct (H l Hin).
Qed.

(** Where no timetable bears the name, the catalog lookup is the lookup
    among the PT lines. *)
Lemma find_named_lines name (i : nat) (cat : list (PublicLine num)) :
  (∀ l, l ∈ cat -> ∀ t, t ∈ line_timetables l -> tt_name t ≠ name) ->
  find_named name i cat = (fun j => ObjPublicLine (i + j)) <$> find_line name cat.
Proof.
  revert i. induction cat as [|x cat IH]; intros i Hfree; [done|].
  unfold find_line. simpl.
  destruct (decide (line_name x = name)) as [Hx|Hx].
  { simpl. by rewrite Nat.add_0_r. }
  destruct (list_find _ (line_timetables x)) as [[k t]|] eqn:E.
  { apply list_find_Some in E as (Hk & Hn & _).
    destruct (Hfree x (ltac:(left)) t); [by eapply list_elem_of_lookup_2|done]. }
  rewrite IH by (intros l Hl; apply Hfree; by right).
  unfold find_line. destruct (list_find _ cat) as [[j l]|]; simpl; [|done].
  do 2 f_equal. lia.
Qed.

Lemma prefix_append (p s : string) : String.prefix p (p +:+ s) = true.
Proof.
  induction p as [|c p IH]; [rewrite append_nil_l; by destruct s|].
  rewrite append_cons. simpl. by destruct (ascii_dec c c).
Qed.

(** A string that begins with [p] once a text starting with [c] is put
    after it begins with [p] already, when [c] does not occur in [p]. *)
Lemma prefix_before_char (p a : string) (c : ascii) (r : string) :
  has_char c p = false ->
  String.prefix p (a +:+ String c r) = true -> String.prefix p a = true.
Proof.
  revert a. induction p as [|d p IH]; intros a Hc; [by destruct a|].
  simpl in Hc. destruct (Ascii.eqb d c) eqn:Hd; [done|].
  destruct a as [|x a].
  - rewrite append_nil_l. simpl. destruct (ascii_dec d c) as [->|]; [|done].
    by rewrite Ascii.eqb_refl in Hd.
  - rewrite append_cons. simpl. destruct (ascii_dec d x); [|done]. by apply IH.
Qed.

Lemma plain_name_free name (cat : list (PublicLine num)) :
  timetables_named cat -> plain_name name ->
  ∀ l, l ∈ cat -> ∀ t, t ∈ line_timetables l -> tt_name t ≠ name.
Proof.
  intros Htt Hplain l Hl t Ht <-. unfold timetables_named in Htt.
  rewrite Forall_forall in Htt. specialize (Htt l Hl).
  rewrite Forall_forall in Htt. unfold plain_name in Hplain.
  by rewrite (Htt t Ht), prefix_append in Hplain.
Qed.

Lemma findByName_plain name (w : World num) :
  timetables_named (catalog w) -> plain_name name -> network_findByName name = None ->
  findByName name w = ObjPublicLine <$> find_line name (catalog w).
Proof.
  intros Htt Hplain Hnet. unfold findByName. rewrite Hnet.
  rewrite find_named_lines by (by apply plain_name_free).
  by destruct (find_line name (catalog w)).
Qed.

(** The names of the legs of a plain file are plain. *)
Lemma get_route_name_plain file_name first_stop last_stop name :
  plain_source file_name ->
  get_route_name file_name first_stop last_stop = inr name -> plain_name name.
Proof.
  unfold plain_source, plain_name, get_route_name. intros Hsrc.
  destruct (findObjectByExternalId first_stop) as [fs|]; [|done].
  destruct (findObjectByExternalId last_stop) as [ls|]; [|done].
  intros [= <-].
  destruct (String.prefix "Timetable - " (_ +:+ _)) eqn:E; [|done].
  change (": " +:+ ?r) with (String ":" (" " +:+ r)) in E.
  apply prefix_before_char in E; [congruence|done].
Qed.

Lemma with_departure_timetables_named time (l : PublicLine num) :
  Forall (fun t => tt_name t = "Timetable - " +:+ line_name l) (line_timetables l) ->
  Forall (fun t => tt_name t = "Timetable - " +:+ line_name (with_departure time l))
         (line_timetables (with_departure time l)).
Proof.
  intros H. unfold with_departure. simpl. apply Forall_alter; [done|].
  by intros t _ Ht.
Qed.

Lemma departures_of_alter name time (cat : list (PublicLine num)) i l :
  registry_ok cat -> cat !! i = Some l ->
  registry_ok (alter (with_departure time) i cat)
  ∧ departures_of name (alter (with_departure time) i cat)
    = departures_of name cat
      ++ (if decide (line_name l = name)
          then [mkDeparture BUS_ID time (0, 0, 0)%nat] else []).
Proof.
  intros [Hnd Hall] Hl.
  assert (Hone : one_schedule l) by (by eapply Forall_lookup_1).
  assert (Hnd' : NoDup (line_name <$> alter (with_departure time) i cat)).
  { by rewrite fmap_name_alter. }
  split.
  - split; [done|]. apply Forall_alter; [done|].
    intros x Hx. rewrite Hl in Hx. injection Hx as <-.
    by apply with_departure_one_schedule.
  - unfold departures_of. destruct (decide (line_name l = name)) as [<-|Hne].
    + rewrite (lines_named_NoDup cat i l) by done.
      rewrite <- (with_departure_name time l) at 1.
      rewrite (lines_named_NoDup _ i (with_departure time l)); [|done|].
      * by apply with_departure_departures.
      * by rewrite list_lookup_alter_eq, Hl.
    + rewrite (lines_named_alter_other name _ cat i l) by done. by rewrite app_nil_r.
Qed.

Lemma departures_of_snoc name (cat : list (PublicLine num)) (l : PublicLine num) :
  line_name l ∉ line_name <$> cat ->
  departures_of name (cat ++ [l])
  = departures_of name cat ++ (if decide (line_name l = name) then line_departures l else []).
Proof.
  intros Hnew. unfold departures_of, lines_named. rewrite filter_app.
  destruct (decide (line_name l = name)) as [<-|Hne].
  - rewrite filter_cons_True by done.
    change (filter _ cat) with (lines_named (line_name l) cat).
    by rewrite lines_named_absent.
  - rewrite filter_cons_False by done. rewrite filter_nil, !app_nil_r. done.
Qed.

Lemma get_route_name_resolves file_name first_stop last_stop :
  is_Some (findObjectByExternalId first_stop) ->
  is_Some (findObjectByExternalId last_stop) ->
  ∃ name, get_route_name file_name first_stop last_stop = inr name.
Proof. intros [fs Hfs] [ls Hls]. unfold get_route_name. rewrite Hfs, Hls. eauto. Qed.

(** One leg of a plain file through the registry: it cannot raise, it
    keeps the registry well formed, and it adds exactly the leg's
    departure, to the line with the leg's name. *)
Lemma get_timetable_leg_step file_name leg (w : World num) :
  registry_ok (catalog w) -> timetables_named (catalog w) ->
  plain_source file_name -> names_free file_name -> leg_resolves leg ->
  ∃ w', get_timetable_leg file_name leg w = (inr tt, w')
        ∧ registry_ok (catalog w')
        ∧ timetables_named (catalog w')
        ∧ error_log w' = error_log w
        ∧ ∀ name, departures_of name (catalog w')
                  = departures_of name (catalog w)
                    ++ option_list (leg_departure file_name name leg).
Proof.
  intros Hok Htt Hsrc Hfree Hres. unfold get_timetable_leg, leg_departure, leg_name.
  destruct (length (Stops leg) <? 2)%nat eqn:Hlen.
  { exists w. do 4 (split; [done|]). intros name. simpl. by rewrite app_nil_r. }
  destruct (head (Stops leg)) as [first|] eqn:Hhd; cycle 1.
  { apply head_None in Hhd. by rewrite Hhd in Hlen. }
  destruct (last (Stops leg)) as [last_|] eqn:Hlst; cycle 1.
  { apply last_None in Hlst. by rewrite Hlst in Hlen. }
  unfold leg_resolves in Hres. rewrite Forall_forall in Hres.
  destruct (get_route_name_resolves file_name first.1 last_.1) as [n Hn].
  { apply Hres. by eapply head_Some_elem_of. }
  { apply Hres. by eapply last_Some_elem_of. }
  unfold bind, liftE, get_world. rewrite Hn.
  rewrite (findByName_plain n w Htt (get_route_name_plain _ _ _ _ Hsrc Hn)
             (Hfree _ _ _ Hn)).
  destruct (find_line n (catalog w)) as [i|] eqn:Hfind.
  - destruct (find_line_Some _ _ _ Hfind) as (l & Hl & Hname).
    unfold ret. simpl. rewrite (add_departure_run i first.2 l w Hl).
    2:{ destruct Hok as [_ Hall]. by eapply Forall_lookup_1. }
    eexists. split; [done|]. simpl.
    destruct (departures_of_alter n first.2 (catalog w) i l Hok Hl) as [Hok' _].
    split; [done|]. split.
    { apply Forall_alter; [done|]. intros x _. apply with_departure_timetables_named. }
    split; [done|]. intros name.
    destruct (departures_of_alter name first.2 (catalog w) i l Hok Hl) as [_ ->].
    rewrite Hname. destruct (decide (n = name)) as [->|Hne].
    + by rewrite decide_True.
    + rewrite decide_False; [done|congruence].
  - simpl. unfold bind. rewrite create_pt_line_run.
    destruct (added_stops_resolves (Route leg) (Stops leg)) as [slots ->].
    { by apply Forall_forall. }
    set (cl := created_line n leg slots).
    assert (Hcl : one_schedule cl) by (unfold one_schedule; simpl; eauto).
    unfold ret. simpl.
    rewrite (add_departure_run _ first.2 cl); [|by apply list_lookup_middle|done].
    simpl. rewrite alter_snoc.
    eexists. split; [done|]. simpl.
    apply find_line_None in Hfind. destruct Hok as [Hnd Hall].
    split; [split|].
    + rewrite fmap_app. apply NoDup_app. repeat split; [done| |apply NoDup_singleton].
      intros x Hx Hx'. apply list_elem_of_singleton in Hx'. subst x. done.
    + apply Forall_app. split; [done|]. constructor; [|done].
      by apply with_departure_one_schedule.
    + split.
      { apply Forall_app. split; [done|]. constructor; [|done].
        apply with_departure_timetables_named. by repeat constructor. }
      split; [done|].
      intros name. rewrite departures_of_snoc by done.
      rewrite with_departure_departures by done. simpl.
      destruct (decide (n = name)) as [->|Hne].
      * by rewrite decide_True.
      * rewrite decide_False; [done|congruence].
Qed.

Lemma get_timetable_legs_run file_name legs (w : World num) :
  registry_ok (catalog w) -> timetables_named (catalog w) ->
  plain_source file_name -> names_free file_name -> Forall leg_resolves legs ->
  ∃ w', for_each legs (get_timetable_leg file_name) w = (inr tt, w')
        ∧ registry_ok (catalog w')
        ∧ timetables_named (catalog w')
        ∧ error_log w' = error_log w
        ∧ ∀ name, departures_of name (catalog w')
                  = departures_of name (catalog w)
                    ++ omap (leg_departure file_name name) legs.
Proof.
  intros Hok Htt Hsrc Hfree Hres. revert w Hok Htt.
  induction Hres as [|leg legs Hleg _ IH]; intros w Hok Htt; simpl.
  { exists w. do 4 (split; [done|]). intros name. by rewrite app_nil_r. }
  destruct (get_timetable_leg_step file_name leg w Hok Htt Hsrc Hfree Hleg)
    as (w1 & Hrun & Hok1 & Htt1 & Hlog1 & Hdep1).
  destruct (IH w1 Hok1 Htt1) as (w2 & Hrun2 & Hok2 & Htt2 & Hlog2 & Hdep2).
  exists w2. unfold bind. rewrite Hrun. do 3 (split; [done|]). split.
  - congruence.
  - intros name. rewrite Hdep2, Hdep1, <- app_assoc. f_equal.
    by destruct (leg_departure file_name name leg).
Qed.

(** X19: the legs of a file whose name does not begin like the name of
    a timetable ("Timetable - "), and whose leg names no object of the
    network bears, go through the registry without raising, the
    timetables of the catalog being named after their lines; and
    afterwards, for every name: at most one line bears it;
    its schedule holds what it held before followed by one departure per
    leg of that name (timed by the leg's first stop), in the order of the
    legs; and if some leg has the name, exactly one line bears it, with
    exactly one timetable holding exactly one schedule. *)
Theorem line_registry_one_line_per_plain_name file_name legs (w : World num) :
  registry_ok (catalog w) -> timetables_named (catalog w) ->
  plain_source file_name -> names_free file_name -> Forall leg_resolves legs ->
  ∃ w', for_each legs (get_timetable_leg file_name) w = (inr tt, w')
        ∧ ∀ name,
            (length (lines_named name (catalog w')) <= 1)%nat
            ∧ departures_of name (catalog w')
              = departures_of name (catalog w) ++ omap (leg_departure file_name name) legs
            ∧ (omap (leg_departure file_name name) legs ≠ []
               -> ∃ l, lines_named name (catalog w') = [l] ∧ one_schedule l).
Proof.
  intros Hok Htt Hsrc Hfree Hres.
  destruct (get_timetable_legs_run file_name legs w Hok Htt Hsrc Hfree Hres)
    as (w' & Hrun & [Hnd Hall] & _ & _ & Hdep).
  exists w'. split; [done|]. intros name.
  pose proof (lines_named_length name (catalog w') Hnd) as Hlen.
  do 2 (split; [done|]). intros Hne.
  specialize (Hdep name). unfold departures_of at 1 in Hdep.
  destruct (lines_named name (catalog w')) as [|l ls] eqn:E.
  - symmetry in Hdep. apply app_eq_nil in Hdep as [_ Hdep]. done.
  - destruct ls; [|simpl in Hlen; lia]. exists l. split; [done|].
    rewrite Forall_forall in Hall. apply Hall.
    assert (Hin : l ∈ lines_named name (catalog w')) by (rewrite E; left).
    unfold lines_named in Hin. by apply list_elem_of_filter in Hin as [_ Hin].
Qed.

(** What a leg of two stops or more does, by what the catalog lookup
    returns under its name: a PT line gets the departure; a timetable or
    an object of the network makes add_departure raise, and nothing is
    written; when there is nothing under the name, a line is created and
    gets the departure. *)
Lemma get_timetable_leg_outcome file_name leg first n (w : World num) :
  registry_ok (catalog w) -> leg_resolves leg ->
  (length (Stops leg) <? 2)%nat = false ->
  head (Stops leg) = Some first -> leg_name file_name leg = Some n ->
  match findByName n w with
  | Some (ObjPublicLine i) =>
      get_timetable_leg file_name leg w
      = (inr tt, mkWorld (alter (with_departure first.2) i (catalog w)) (error_log w))
  | Some (ObjTimeTable _ _) =>
      get_timetable_leg file_name leg w
      = (inl (AttributeErrorOn "GKPublicLineTimeTable" "getTimeTables"), w)
  | Some (ObjNetwork cls) =>
      get_timetable_leg file_name leg w = (inl (AttributeErrorOn cls "getTimeTables"), w)
  | None =>
      ∃ slots,
        added_stops (Route leg) (Stops leg) = inr slots
        ∧ get_timetable_leg file_name leg w
          = (inr tt,
             mkWorld (catalog w ++ [with_departure first.2 (created_line n leg slots)])
                     (error_log w))
  end.
Proof.
  intros Hok Hres Hlen Hhd Hname. unfold get_timetable_leg. rewrite Hlen, Hhd.
  unfold leg_name in Hname. rewrite Hhd in Hname.
  destruct (last (Stops leg)) as [last_|]; [|done].
  destruct (get_route_name file_name first.1 last_.1) as [e|n'] eqn:Hn; [done|].
  injection Hname as ->. unfold bind, liftE, get_world.
  destruct (findByName n w) as [[i|i k|cls]|] eqn:Hfind.
  - destruct (findByName_line _ _ _ Hfind) as (l & Hl & _). unfold ret. simpl.
    rewrite (add_departure_run i first.2 l w Hl); [done|].
    destruct Hok as [_ Hall]. by eapply Forall_lookup_1.
  - done.
  - done.
  - rewrite create_pt_line_run.
    destruct (added_stops_resolves (Route leg) (Stops leg)) as [slots Hs]; [done|].
    rewrite Hs. exists slots. split; [done|]. unfold ret. simpl.
    rewrite (add_departure_run _ first.2 (created_line n leg slots));
      [|by apply list_lookup_middle|unfold one_schedule; simpl; eauto].
    simpl. by rewrite alter_snoc.
Qed.

Lemma leg_name_resolves file_name leg :
  leg_resolves leg -> (length (Stops leg) <? 2)%nat = false ->
  ∃ first n, head (Stops leg) = Some first ∧ leg_name file_name leg = Some n.
Proof.
  intros Hres Hlen. unfold leg_name.
  destruct (head (Stops leg)) as [first|] eqn:Hhd; cycle 1.
  { apply head_None in Hhd. by rewrite Hhd in Hlen. }
  destruct (last (Stops leg)) as [last_|] eqn:Hlst; cycle 1.
  { apply last_None in Hlst. by rewrite Hlst in Hlen. }
  unfold leg_resolves in Hres. rewrite Forall_forall in Hres.
  destruct (get_route_name_resolves file_name first.1 last_.1) as [n Hn].
  { apply Hres. by eapply head_Some_elem_of. }
  { apply Hres. by eapply last_Some_elem_of. }
  rewrite Hn. eauto.
Qed.

(** Whatever a leg does, raise or return, the registry stays well formed. *)
Lemma get_timetable_leg_registry_ok file_name leg (w : World num) r w' :
  registry_ok (catalog w) -> leg_resolves leg ->
  get_timetable_leg file_name leg w = (r, w') -> registry_ok (catalog w').
Proof.
  intros Hok Hres. destruct (length (Stops leg) <? 2)%nat eqn:Hlen.
  { unfold get_timetable_leg. rewrite Hlen. by intros [= _ <-]. }
  destruct (leg_name_resolves file_name leg Hres Hlen) as (first & n & Hhd & Hname).
  pose proof (get_timetable_leg_outcome file_name leg first n w Hok Hres Hlen Hhd Hname) as Hout.
  destruct (findByName n w) as [[i|i k|cls]|] eqn:Hfind.
  - rewrite Hout. intros [= _ <-]. simpl.
    destruct (findByName_line _ _ _ Hfind) as (l & Hl & _).
    by destruct (departures_of_alter n first.2 (catalog w) i l Hok Hl).
  - rewrite Hout. by intros [= _ <-].
  - rewrite Hout. by intros [= _ <-].
  - destruct Hout as (slots & _ & ->). intros [= _ <-]. simpl.
    apply findByName_None in Hfind as [_ Hfind]. apply name_unused_lines in Hfind.
    destruct Hok as [Hnd Hall]. split.
    + rewrite fmap_app. apply NoDup_app. repeat split; [done| |apply NoDup_singleton].
      intros x Hx Hx'. apply list_elem_of_singleton in Hx'. subst x. done.
    + apply Forall_app. split; [done|]. constructor; [|done].
      apply with_departure_one_schedule. unfold one_schedule. simpl. eauto.
Qed.

Lemma get_timetable_legs_registry_ok file_name legs (w : World num) r w' :
  registry_ok (catalog w) -> Forall leg_resolves legs ->
  for_each legs (get_timetable_leg file_name) w = (r, w') -> registry_ok (catalog w').
Proof.
  intros Hok Hres. revert w Hok.
  induction Hres as [|leg legs Hleg _ IH]; intros w Hok; simpl.
  { by intros [= _ <-]. }
  unfold bind. destruct (get_timetable_leg file_name leg w) as [[e|[]] w1] eqn:Hrun.
  - intros [= _ <-]. by eapply get_timetable_leg_registry_ok.
  - apply IH. by eapply get_timetable_leg_registry_ok.
Qed.

(** C6: a leg with fewer than two stops goes through the body of the leg
    loop without any effect and without raising, whatever its stops
    are; the registry steps of a list of legs are those of its legs with
    two stops or more; and a trip of one stop, found in the network,
    gives the single leg ([], [stop]), which leaves the state alone. *)
Theorem short_legs_never_promoted file_name :
  (∀ leg (w : World num),
      (length (Stops leg) < 2)%nat -> get_timetable_leg file_name leg w = (inr tt, w))
  ∧ (∀ legs (w : World num),
        for_each legs (get_timetable_leg file_name) w
        = for_each (filter (fun leg => (2 <= length (Stops leg))%nat) legs)
            (get_timetable_leg file_name) w)
  ∧ (∀ stop o (w : World num),
        findObjectByExternalId stop.1 = Some o ->
        find_route_legs [stop] w = (inr [mkLeg [] [stop]], w)
        ∧ for_each [mkLeg [] [stop]] (get_timetable_leg file_name) w = (inr tt, w)).
Proof.
  assert (Hshort : ∀ leg (w : World num),
             (length (Stops leg) < 2)%nat -> get_timetable_leg file_name leg w = (inr tt, w)).
  { intros leg w Hlen. unfold get_timetable_leg.
    apply Nat.ltb_lt in Hlen. by rewrite Hlen. }
  split; [done|]. split.
  - intros legs. induction legs as [|leg legs IH]; intros w; [done|].
    destruct (decide (2 <= length (Stops leg))%nat) as [Hlen|Hlen].
    + rewrite filter_cons_True by done. simpl. unfold bind.
      destruct (get_timetable_leg file_name leg w) as [[e|[]] w1]; [done|]. apply IH.
    + rewrite filter_cons_False by done. simpl. unfold bind.
      rewrite Hshort by lia. apply IH.
  - intros stop o w Ho. split.
    + rewrite (find_route_legs_returns [stop] [stop_section o] stop).
      * by destruct w.
      * simpl. by rewrite Ho.
      * done.
    + simpl. unfold bind. by rewrite Hshort by (simpl; lia).
Qed.

(* ------------------------------------------------------------------- *)
(* Dwell-Time Normalizer                                                *)
(* ------------------------------------------------------------------- *)

Lemma dwell_default_idem (stop_time : num * num) :
  dwell_default (dwell_default stop_time) = dwell_default stop_time.
Proof.
  unfold dwell_default. simpl.
  destruct (dwell_is0 stop_time.1) eqn:E1, (dwell_is0 stop_time.2) eqn:E2;
    rewrite ?dwell_20_not0, ?dwell_10_not0, ?E1, ?E2; done.
Qed.

Lemma set_dwell_stop_times (schedule : Schedule num) (bus_stop : option BusStop) :
  sched_stop_times (set_dwell_stop schedule bus_stop)
  = <[stop_key bus_stop := dwell_default (getStopTime schedule bus_stop 1)]>
      (sched_stop_times schedule).
Proof. done. Qed.

Lemma fold_set_dwell_stop_header bus_stops (schedule : Schedule num) :
  let schedule' := fold_left set_dwell_stop bus_stops schedule in
  sched_time schedule' = sched_time schedule
  ∧ sched_departure_type schedule' = sched_departure_type schedule
  ∧ sched_duration schedule' = sched_duration schedule
  ∧ sched_departures schedule' = sched_departures schedule.
Proof.
  revert schedule. induction bus_stops as [|b bs IH]; intros schedule; simpl; [done|].
  destruct (IH (set_dwell_stop schedule b)) as (-> & -> & -> & ->). done.
Qed.

(** After the loop over the stops of a line, the stop times of the line's
    stop slots hold the defaulted values and every other one is as it was. *)
Lemma fold_set_dwell_stop_lookup bus_stops (schedule : Schedule num) (k : option Z * Z) :
  sched_stop_times (fold_left set_dwell_stop bus_stops schedule) !! k
  = if decide (k ∈ stop_key <$> bus_stops)
    then Some (dwell_default (default (dwell_0, dwell_0) (sched_stop_times schedule !! k)))
    else sched_stop_times schedule !! k.
Proof.
  revert schedule. induction bus_stops as [|b bs IH]; intros schedule; [done|].
  cbn [fold_left]. rewrite IH, set_dwell_stop_times. unfold getStopTime.
  fold (stop_key b). rewrite fmap_cons.
  destruct (decide (k = stop_key b)) as [->|Hne].
  - rewrite lookup_insert_eq. simpl. rewrite dwell_default_idem.
    rewrite (decide_True (P := stop_key b ∈ stop_key b :: _)) by left.
    by destruct (decide _).
  - rewrite lookup_insert_ne by done.
    destruct (decide (k ∈ stop_key <$> bs)) as [Hin|Hin].
    + rewrite decide_True; [done|by right].
    + rewrite decide_False; [done|]. rewrite not_elem_of_cons. done.
Qed.

Lemma schedule_eq (s1 s2 : Schedule num) :
  sched_time s1 = sched_time s2 ->
  sched_departure_type s1 = sched_departure_type s2 ->
  sched_duration s1 = sched_duration s2 ->
  sched_departures s1 = sched_departures s2 ->
  (∀ k, sched_stop_times s1 !! k = sched_stop_times s2 !! k) ->
  s1 = s2.
Proof.
  destruct s1, s2. simpl. intros -> -> -> -> H. f_equal. by apply map_eq.
Qed.

Lemma fold_set_dwell_stop_idem bus_stops (schedule : Schedule num) :
  fold_left set_dwell_stop bus_stops (fold_left set_dwell_stop bus_stops schedule)
  = fold_left set_dwell_stop bus_stops schedule.
Proof.
  destruct (fold_set_dwell_stop_header bus_stops
              (fold_left set_dwell_stop bus_stops schedule)) as (H1 & H2 & H3 & H4).
  apply schedule_eq; try done.
  intros k. rewrite fold_set_dwell_stop_lookup.
  destruct (decide (k ∈ stop_key <$> bus_stops)) as [Hin|Hin]; [|done].
  rewrite fold_set_dwell_stop_lookup, decide_True by done. simpl.
  by rewrite dwell_default_idem.
Qed.

Lemma set_dwell_line_idem (public_line : PublicLine num) :
  set_dwell_line (set_dwell_line public_line) = set_dwell_line public_line.
Proof.
  unfold set_dwell_line, setTimeTables. simpl. f_equal.
  rewrite map_map. apply map_ext. intros timetable.
  unfold setSchedules. simpl. f_equal.
  rewrite map_map. apply map_ext. intros schedule.
  apply fold_set_dwell_stop_idem.
Qed.

(** C8: set_dwell_times run twice leaves exactly what one run leaves.
    One run touches nothing but stop times: in every schedule of every
    timetable of every line, the stop time of each stop slot of the line
    becomes the old one with a zero mean replaced by 20 and a zero
    deviation replaced by 10, each on its own, nonzero values kept. *)
Theorem set_dwell_times_idempotent (w : World num) :
  set_dwell_times (set_dwell_times w) = set_dwell_times w
  ∧ (∀ (i j k : nat) line timetable schedule,
        catalog w !! i = Some line ->
        line_timetables line !! j = Some timetable ->
        tt_schedules timetable !! k = Some schedule ->
        ∃ line' timetable' schedule',
          catalog (set_dwell_times w) !! i = Some line'
          ∧ line_timetables line' !! j = Some timetable'
          ∧ tt_schedules timetable' !! k = Some schedule'
          ∧ line_stops line' = line_stops line
          ∧ sched_departures schedule' = sched_departures schedule
          ∧ ∀ bus_stop, bus_stop ∈ line_stops line ->
              getStopTime schedule' bus_stop 1
              = dwell_default (getStopTime schedule bus_stop 1))
  ∧ (∀ mean deviation : num,
        dwell_default (mean, deviation)
        = (if dwell_is0 mean then dwell_20 else mean,
           if dwell_is0 deviation then dwell_10 else deviation))
  ∧ (∀ stop_time, dwell_is0 stop_time.1 = false -> dwell_is0 stop_time.2 = false ->
        dwell_default stop_time = stop_time).
Proof.
  split; [|split; [|split]].
  - unfold set_dwell_times. simpl. f_equal. rewrite map_map. apply map_ext.
    apply set_dwell_line_idem.
  - intros i j k line timetable schedule Hi Hj Hk.
    exists (set_dwell_line line),
      (setSchedules (map (fun s => fold_left set_dwell_stop (line_stops line) s)
                         (tt_schedules timetable)) timetable),
      (fold_left set_dwell_stop (line_stops line) schedule).
    unfold set_dwell_times. simpl.
    change (@map ?A ?B) with (@fmap list _ A B).
    rewrite !list_lookup_fmap, Hi, Hj, Hk. simpl.
    do 4 (split; [done|]).
    destruct (fold_set_dwell_stop_header (line_stops line) schedule) as (_ & _ & _ & Hd).
    split; [done|]. intros bus_stop Hin.
    unfold getStopTime at 1. fold (stop_key bus_stop).
    rewrite fold_set_dwell_stop_lookup, decide_True; [done|].
    by apply list_elem_of_fmap_2.
  - done.
  - intros [mean deviation]. unfold dwell_default. simpl. by intros -> ->.
Qed.

(* ------------------------------------------------------------------- *)
(* Error log                                                            *)
(* ------------------------------------------------------------------- *)

Lemma has_char_append (c : ascii) (a b : string) :
  has_char c (a +:+ b) = has_char c a || has_char c b.
Proof.
  induction a as [|x a IH]; [done|]. rewrite append_cons. simpl.
  destruct (Ascii.eqb x c); [done|]. apply IH.
Qed.

Lemma no_newline_uint (d : Decimal.uint) : no_newline (NilEmpty.string_of_uint d).
Proof. unfold no_newline. induction d; simpl; done. Qed.

Lemma no_newline_str_of_nat (n : nat) : no_newline (str_of_nat n).
Proof.
  unfold str_of_nat, NilZero.string_of_uint.
  destruct (Nat.to_uint n) eqn:E; try done; rewrite <- E; apply no_newline_uint.
Qed.

Lemma no_newline_append (a b : string) :
  no_newline a -> no_newline b -> no_newline (a +:+ b).
Proof. unfold no_newline. intros Ha Hb. by rewrite has_char_append, Ha, Hb. Qed.

Lemma no_newline_pad2 (n : nat) : no_newline (pad2 n).
Proof.
  unfold pad2. destruct (n <? 10)%nat; [|apply no_newline_str_of_nat].
  apply no_newline_append; [done|apply no_newline_str_of_nat].
Qed.

Lemma no_newline_date (now : DateTime) : no_newline (strftime_date now).
Proof.
  unfold strftime_date.
  repeat (apply no_newline_append;
          [first [apply no_newline_pad2 | apply no_newline_str_of_nat | done]|]).
  apply no_newline_str_of_nat.
Qed.

Lemma no_newline_time (now : DateTime) : no_newline (strftime_time now).
Proof.
  unfold strftime_time.
  repeat (apply no_newline_append; [first [apply no_newline_pad2 | done]|]).
  apply no_newline_pad2.
Qed.

(** Splitting at line breaks takes a line off the front. *)
Lemma py_split_line (line rest : string) :
  no_newline line ->
  py_split "010" (line +:+ nl +:+ rest) = line :: py_split "010" rest.
Proof.
  unfold no_newline. induction line as [|c line IH]; [done|].
  rewrite append_cons. simpl.
  destruct (Ascii.eqb c "010") eqn:E; [done|]. intros H. by rewrite IH.
Qed.

Lemma py_split_message_lines (errors : list string) :
  Forall no_newline errors ->
  py_split "010" (message_lines errors) = errors ++ [EmptyString].
Proof.
  induction 1 as [|error errors He _ IH]; simpl; [done|].
  by rewrite py_split_line, IH.
Qed.

Lemma fold_f_write (errors : list string) (f : string) :
  fold_left (fun f error => f_write f (error +:+ nl)) errors f = f +:+ message_lines errors.
Proof.
  revert f. induction errors as [|error errors IH]; intros f; simpl.
  - by rewrite append_nil_r.
  - rewrite IH. unfold f_write. by rewrite !append_assoc.
Qed.

(** The text output_errors writes, as one string. *)
Lemma output_errors_text (now : DateTime) (errors : list string) :
  (1 < length errors)%nat ->
  out_file (output_errors now errors)
  = Some (csv_path_of "Error Log.txt",
          strftime_date now +:+ nl +:+ strftime_time now +:+ nl +:+ EmptyString +:+ nl
          +:+ (str_of_nat (length errors) +:+ " errors") +:+ nl +:+ EmptyString +:+ nl
          +:+ message_lines errors).
Proof.
  intros Hn. unfold output_errors. apply Nat.ltb_lt in Hn. rewrite Hn. simpl out_file.
  rewrite fold_f_write. unfold f_write. do 2 f_equal.
  by rewrite !append_nil_l, !append_assoc.
Qed.

(** C9: output_errors writes a file exactly when more than one message
    was accumulated.  With at most one message nothing is written and the
    "No warnings reported." status is printed.  With n >= 2 messages the
    file Error Log.txt holds the date, the time, an empty line, "n errors",
    an empty line and then the messages, each followed by a line break
    (one per line when no message contains a line break itself). *)
Theorem output_errors_file_iff_more_than_one (now : DateTime) (errors : list string) :
  (is_Some (out_file (output_errors now errors)) ↔ (1 < length errors)%nat)
  ∧ ((length errors <= 1)%nat ->
     output_errors now errors
     = mkOutput None ("Load Bus Timetable complete!" +:+ nl +:+ "No warnings reported."))
  ∧ ((2 <= length errors)%nat ->
     ∃ text,
       out_file (output_errors now errors) = Some (csv_path_of "Error Log.txt", text)
       ∧ text = strftime_date now +:+ nl +:+ strftime_time now +:+ nl +:+ nl
                +:+ str_of_nat (length errors) +:+ " errors" +:+ nl +:+ nl
                +:+ message_lines errors
       ∧ (Forall no_newline errors ->
          py_split "010" text
          = [strftime_date now; strftime_time now; EmptyString;
             str_of_nat (length errors) +:+ " errors"; EmptyString]
            ++ errors ++ [EmptyString])).
Proof.
  split; [|split].
  - unfold output_errors. destruct (1 <? length errors)%nat eqn:E; simpl.
    + apply Nat.ltb_lt in E. split; [done|]. intros _. eauto.
    + apply Nat.ltb_ge in E. split; [by intros [? ?]|lia].
  - intros Hn. unfold output_errors.
    rewrite (proj2 (Nat.ltb_ge 1 (length errors))) by lia. done.
  - intros Hn. eexists. split; [apply output_errors_text; lia|]. split.
    + by rewrite !append_nil_l, !append_assoc.
    + intros Hmsgs.
      rewrite py_split_line by apply no_newline_date.
      rewrite py_split_line by apply no_newline_time.
      rewrite py_split_line by done.
      rewrite py_split_line
        by (apply no_newline_append; [apply no_newline_str_of_nat|done]).
      rewrite py_split_line by done.
      by rewrite py_split_message_lines.
Qed.

(* ------------------------------------------------------------------- *)
(* Batch Driver                                                         *)
(* ------------------------------------------------------------------- *)

Lemma for_each_app {A} (l1 l2 : list A) (body : A -> M num unit) (w : World num) :
  for_each (l1 ++ l2) body w
  = match for_each l1 body w with
    | (inl e, w1) => (inl e, w1)
    | (inr _, w1) => for_each l2 body w1
    end.
Proof.
  revert w. induction l1 as [|x l1 IH]; intros w; [done|].
  simpl. unfold bind. destruct (body x w) as [[e|[]] w1]; [done|]. apply IH.
Qed.

Lemma persists_refl (cat : list (PublicLine num)) : persists cat cat.
Proof. intros i l Hl. exists l. by repeat split. Qed.

Lemma persists_trans (c1 c2 c3 : list (PublicLine num)) :
  persists c1 c2 -> persists c2 c3 -> persists c1 c3.
Proof.
  intros H12 H23 i l Hl.
  destruct (H12 i l Hl) as (l2 & Hl2 & Hn2 & Hr2 & Hd2).
  destruct (H23 i l2 Hl2) as (l3 & Hl3 & Hn3 & Hr3 & Hd3).
  exists l3. split; [done|]. split; [congruence|]. split; [congruence|].
  destruct Hd2 as [k2 E2]. destruct Hd3 as [k3 E3]. exists (k2 ++ k3).
  by rewrite E3, E2, app_assoc.
Qed.

Lemma persists_app (cat new : list (PublicLine num)) : persists cat (cat ++ new).
Proof.
  intros i l Hl. exists l. split; [by apply lookup_app_l_Some|]. by do 2 (split; [done|]).
Qed.

Lemma with_departure_prefix time (l : PublicLine num) :
  line_departures l `prefix_of` line_departures (with_departure time l).
Proof.
  unfold with_departure, line_departures. simpl.
  destruct (line_timetables l) as [|t ts]; [done|]. simpl.
  destruct (tt_schedules t) as [|s ss]; [done|]. simpl. by eexists.
Qed.

Lemma persists_alter time (cat : list (PublicLine num)) (i : nat) :
  persists cat (alter (with_departure time) i cat).
Proof.
  intros j l Hl. destruct (decide (i = j)) as [->|Hne].
  - exists (with_departure time l). rewrite list_lookup_alter_eq, Hl.
    do 3 (split; [done|]). apply with_departure_prefix.
  - exists l. rewrite list_lookup_alter_ne by done. by do 3 (split; [done|]).
Qed.

Lemma world_grows_refl (w : World num) : world_grows w w.
Proof. split; [apply persists_refl|done]. Qed.

Lemma world_grows_trans (w1 w2 w3 : World num) :
  world_grows w1 w2 -> world_grows w2 w3 -> world_grows w1 w3.
Proof.
  intros [Hc12 Hl12] [Hc23 Hl23]. split; [by eapply persists_trans|].
  by etrans.
Qed.

Lemma for_each_grows {A} (l : list A) (body : A -> M num unit) :
  (∀ x w r w', body x w = (r, w') -> world_grows w w') ->
  ∀ w r w', for_each l body w = (r, w') -> world_grows w w'.
Proof.
  intros Hbody. induction l as [|x l IH]; intros w r w' Hrun; simpl in Hrun.
  { injection Hrun as _ <-. apply world_grows_refl. }
  unfold bind in Hrun. destruct (body x w) as [[e|[]] w1] eqn:Hx.
  - injection Hrun as _ <-. by eapply Hbody.
  - eapply world_grows_trans; [by eapply Hbody|by eapply IH].
Qed.

Lemma add_departure_grows pt_line time (w : World num) r w' :
  add_departure pt_line time w = (r, w') -> world_grows w w'.
Proof.
  unfold add_departure, bind, get_world, raise, update_line, modify.
  destruct (catalog w !! pt_line) as [line|]; [|intros [= _ <-]; apply world_grows_refl].
  destruct (line_timetables line) as [|t ts]; [intros [= _ <-]; apply world_grows_refl|].
  destruct (tt_schedules t) as [|s ss]; [intros [= _ <-]; apply world_grows_refl|].
  intros [= _ <-]. split; simpl; [apply persists_alter|done].
Qed.

Lemma add_departure_to_grows pt_line time (w : World num) r w' :
  add_departure_to pt_line time w = (r, w') -> world_grows w w'.
Proof.
  destruct pt_line as [pt_line|pt_line k|cls]; [apply add_departure_grows| |];
    intros [= _ <-]; apply world_grows_refl.
Qed.

Lemma create_pt_line_grows name leg (w : World num) r w' :
  create_pt_line name leg w = (r, w') -> world_grows w w'.
Proof.
  rewrite create_pt_line_run.
  destruct (added_stops (Route leg) (Stops leg)); intros [= _ <-];
    (split; simpl; [apply persists_app|done]).
Qed.

Lemma get_timetable_leg_grows file_name leg (w : World num) r w' :
  get_timetable_leg file_name leg w = (r, w') -> world_grows w w'.
Proof.
  unfold get_timetable_leg.
  destruct (length (Stops leg) <? 2)%nat; [intros [= _ <-]; apply world_grows_refl|].
  destruct (head (Stops leg)) as [first|]; [|intros [= _ <-]; apply world_grows_refl].
  destruct (last (Stops leg)) as [last_|]; [|intros [= _ <-]; apply world_grows_refl].
  unfold bind, liftE, get_world.
  destruct (get_route_name file_name first.1 last_.1) as [e|leg_name];
    [intros [= _ <-]; apply world_grows_refl|].
  destruct (findByName leg_name w) as [pt_line|].
  - unfold ret. apply add_departure_to_grows.
  - destruct (create_pt_line leg_name leg w) as [[e|pt_line] w1] eqn:Hc.
    + intros [= _ <-]. by eapply create_pt_line_grows.
    + unfold ret. simpl. intros Hadd.
      eapply world_grows_trans; [by eapply create_pt_line_grows|].
      by eapply add_departure_grows.
Qed.

Lemma find_route_legs_body_log stops sections st i_section :
  st_error_log st `prefix_of` st_error_log (find_route_legs_body stops sections st i_section).
Proof.
  destruct i_section as [i section]. unfold find_route_legs_body.
  destruct (sections !! (i + 1)%nat); [|done].
  destruct (getPath section z) as [path|]; [|done].
  destruct (stops !! i) as [stop_i|]; [|done].
  assert (Hw : ∀ warned : option (list string),
             (∀ log, warned = Some log -> st_error_log st `prefix_of` log) ->
             st_error_log st `prefix_of`
               st_error_log
                 (match warned with
                  | None => mkStitch (st_legs st) (st_route st)
                              (st_route_stops st ++ [stop_i]) (st_error_log st)
                  | Some log =>
                      if (length path =? 0)%nat
                      then mkStitch (st_legs st ++ [mkLeg (st_route st)
                                                      (st_route_stops st ++ [stop_i])])
                             [] [] log
                      else mkStitch (st_legs st) (extend_route (st_route st) path)
                             (st_route_stops st ++ [stop_i]) log
                  end)).
  { intros [log|] Hlog; [|done]. specialize (Hlog log eq_refl).
    by destruct (length path =? 0)%nat. }
  apply Hw. intros log.
  destruct (20 <? length path)%nat; [|by intros [= <-]].
  destruct (stops !! (i + 1)%nat); [|done].
  destruct (bool_decide _); intros [= <-]; [done|]. by eexists.
Qed.

Lemma find_route_legs_loop_log stops sections st :
  st_error_log st `prefix_of` st_error_log (find_route_legs_loop stops sections st).
Proof.
  unfold find_route_legs_loop. generalize (enumerate sections). intros l. revert st.
  induction l as [|x l IH]; intros st; simpl; [done|].
  etrans; [apply find_route_legs_body_log|apply IH].
Qed.

Lemma find_route_legs_grows stops (w : World num) r w' :
  find_route_legs stops w = (r, w') -> world_grows w w'.
Proof.
  unfold find_route_legs, bind, liftE, get_world, modify, ret, raise.
  destruct (sections_of stops) as [e|sections]; [intros [= _ <-]; apply world_grows_refl|].
  assert (Hg : world_grows w
            (mkWorld (catalog w)
               (st_error_log (find_route_legs_loop stops sections
                                (mkStitch [] [] [] (error_log w)))))).
  { split; simpl; [apply persists_refl|]. apply (find_route_legs_loop_log _ _ (mkStitch _ _ _ _)). }
  by destruct (last stops); intros [= _ <-].
Qed.

Lemma get_timetable_row_grows csv_file i_row (w : World num) r w' :
  get_timetable_row csv_file i_row w = (r, w') -> world_grows w w'.
Proof.
  destruct i_row as [i row]. unfold get_timetable_row.
  destruct (i =? 0)%nat; [intros [= _ <-]; apply world_grows_refl|].
  unfold bind, liftE.
  destruct (parse_stops _) as [e|stops]; [intros [= _ <-]; apply world_grows_refl|].
  destruct (length (match_stops_in_model stops) =? 0)%nat.
  { by destruct (stops !! 0%nat); intros [= _ <-]; apply world_grows_refl. }
  destruct (find_route_legs (match_stops_in_model stops) w) as [[e|legs] w1] eqn:Hf.
  - intros [= _ <-]. by eapply find_route_legs_grows.
  - intros Hrun. eapply world_grows_trans; [by eapply find_route_legs_grows|].
    eapply for_each_grows; [|exact Hrun]. intros leg. apply get_timetable_leg_grows.
Qed.

Lemma get_timetable_grows csv_file csv (w : World num) r w' :
  get_timetable csv_file csv w = (r, w') -> world_grows w w'.
Proof. apply for_each_grows. intros i_row. apply get_timetable_row_grows. Qed.

Lemma main_loop_body_grows (w : World num) csv :
  persists (catalog w) (catalog (main_loop_body w csv))
  ∧ error_log w `sublist_of` error_log (main_loop_body w csv).
Proof.
  unfold main_loop_body.
  destruct (get_timetable csv.1 csv.2 w) as [[e|[]] w'] eqn:Hrun;
    destruct (get_timetable_grows _ _ _ _ _ Hrun) as [Hc [k Hl]]; simpl;
    (split; [done|]); rewrite Hl.
  - apply sublist_cons, sublist_inserts_r. done.
  - apply sublist_inserts_r. done.
Qed.

Lemma main_loop_grows csv_files (w : World num) :
  persists (catalog w) (catalog (main_loop csv_files w))
  ∧ error_log w `sublist_of` error_log (main_loop csv_files w).
Proof.
  unfold main_loop. revert w. induction csv_files as [|csv files IH]; intros w; simpl.
  { split; [apply persists_refl|done]. }
  destruct (main_loop_body_grows w csv) as [Hc Hl].
  destruct (IH (main_loop_body w csv)) as [Hc' Hl'].
  split; [by eapply persists_trans|by etrans].
Qed.

Lemma enumerate_app {A} (l1 l2 : list A) :
  enumerate (l1 ++ l2) = enumerate l1 ++ imap (fun i x => ((length l1 + i)%nat, x)) l2.
Proof. unfold enumerate. by rewrite imap_app. Qed.

(** The legs find_route_legs returns are made of stops of its argument,
    all of which were found in the network. *)
Lemma sections_of_resolves stops sections :
  sections_of stops = inr sections ->
  Forall (fun stop : StopVisit => is_Some (findObjectByExternalId stop.1)) stops.
Proof.
  revert sections. induction stops as [|stop stops IH]; intros sections; simpl; [done|].
  destruct (findObjectByExternalId stop.1) as [o|] eqn:Ho; [|done].
  destruct (sections_of stops) as [e|ss]; [done|]. intros _.
  constructor; [by rewrite Ho|by eapply IH].
Qed.

Lemma find_route_legs_body_stops stops sections st i_section :
  st_route_stops st ⊆ stops ->
  Forall (fun leg => Stops leg ⊆ stops) (st_legs st) ->
  let st' := find_route_legs_body stops sections st i_section in
  st_route_stops st' ⊆ stops ∧ Forall (fun leg => Stops leg ⊆ stops) (st_legs st').
Proof.
  intros Hr Hl. destruct i_section as [i section]. unfold find_route_legs_body.
  destruct (sections !! (i + 1)%nat); [|done].
  destruct (getPath section z) as [path|]; [|done].
  destruct (stops !! i) as [stop_i|] eqn:Hi; [|done].
  assert (Hr' : st_route_stops st ++ [stop_i] ⊆ stops).
  { intros x Hx. apply elem_of_app in Hx as [Hx|Hx]; [by apply Hr|].
    apply list_elem_of_singleton in Hx as ->. by eapply list_elem_of_lookup_2. }
  match goal with |- context [match ?w with Some _ => _ | None => _ end] =>
    destruct w as [log|] end; [|done].
  destruct (length path =? 0)%nat; simpl; [|done].
  split; [by intros x Hx; apply elem_of_nil in Hx|].
  apply Forall_app. split; [done|]. by constructor.
Qed.

Lemma find_route_legs_resolves stops legs (w w' : World num) :
  find_route_legs stops w = (inr legs, w') ->
  Forall leg_resolves legs ∧ catalog w' = catalog w.
Proof.
  intros H. destruct (find_route_legs_inr _ _ _ _ H) as (sections & stop_last & Hs & Hl).
  rewrite (find_route_legs_returns _ _ _ _ Hs Hl) in H. injection H as <- <-.
  split; [|done].
  pose proof (sections_of_resolves _ _ Hs) as Hres. rewrite Forall_forall in Hres.
  assert (Hinv : ∀ l st,
             st_route_stops st ⊆ stops ->
             Forall (fun leg => Stops leg ⊆ stops) (st_legs st) ->
             let st' := fold_left (find_route_legs_body stops sections) l st in
             st_route_stops st' ⊆ stops
             ∧ Forall (fun leg => Stops leg ⊆ stops) (st_legs st')).
  { induction l as [|x l IH]; intros st Hr Hlegs; simpl; [done|].
    destruct (find_route_legs_body_stops stops sections st x Hr Hlegs) as [Hr' Hl'].
    by apply IH. }
  destruct (Hinv (enumerate sections) (mkStitch [] [] [] (error_log w))) as [Hr Hlegs].
  { by intros x Hx; apply elem_of_nil in Hx. }
  { constructor. }
  fold (find_route_legs_loop stops sections (mkStitch [] [] [] (error_log w))) in Hr, Hlegs.
  assert (Hsub : ∀ leg, Stops leg ⊆ stops -> leg_resolves leg).
  { intros leg Hsub. apply Forall_forall. intros x Hx. by apply Hres, Hsub. }
  apply Forall_app. split.
  - eapply Forall_impl; [exact Hlegs|done].
  - constructor; [|done]. apply Hsub. simpl. intros x Hx.
    apply elem_of_app in Hx as [Hx|Hx]; [by apply Hr|].
    apply list_elem_of_singleton in Hx as ->. by eapply last_Some_elem_of.
Qed.

(** The registry invariant holds all along a run: no row, raising or
    not, leaves a half-built line or a second line of the same name. *)
Lemma get_timetable_row_registry_ok csv_file i_row (w : World num) r w' :
  registry_ok (catalog w) ->
  get_timetable_row csv_file i_row w = (r, w') -> registry_ok (catalog w').
Proof.
  intros Hok. destruct i_row as [i row]. unfold get_timetable_row.
  destruct (i =? 0)%nat; [by intros [= _ <-]|].
  unfold bind, liftE.
  destruct (parse_stops _) as [e|stops]; [by intros [= _ <-]|].
  destruct (length (match_stops_in_model stops) =? 0)%nat.
  { by destruct (stops !! 0%nat); intros [= _ <-]. }
  destruct (find_route_legs (match_stops_in_model stops) w) as [[e|legs] w1] eqn:Hf.
  - intros [= _ <-]. revert Hf.
    unfold find_route_legs, bind, liftE, get_world, modify, ret, raise.
    destruct (sections_of _); [by intros [= _ <-]|].
    by destruct (last _); intros [= _ <-].
  - destruct (find_route_legs_resolves _ _ _ _ Hf) as [Hres Hcat].
    rewrite <- Hcat in Hok.
    intros Hlegs. by eapply get_timetable_legs_registry_ok.
Qed.

Lemma main_loop_registry_ok csv_files (w : World num) :
  registry_ok (catalog w) -> registry_ok (catalog (main_loop csv_files w)).
Proof.
  unfold main_loop. revert w. induction csv_files as [|csv files IH]; intros w Hok; [done|].
  cbn [fold_left]. apply IH. unfold main_loop_body, get_timetable.
  assert (Hrows : ∀ rows (w0 : World num) r w',
             registry_ok (catalog w0) ->
             for_each rows (get_timetable_row csv.1) w0 = (r, w') ->
             registry_ok (catalog w')).
  { induction rows as [|x rows IHr]; intros w0 r w' Hok0; simpl.
    - by intros [= _ <-].
    - unfold bind. destruct (get_timetable_row csv.1 x w0) as [[e|[]] w1] eqn:Hx.
      + intros [= _ <-]. by eapply get_timetable_row_registry_ok.
      + apply IHr. by eapply get_timetable_row_registry_ok. }
  destruct (for_each (enumerate csv.2) (get_timetable_row csv.1) w) as [[e|[]] w'] eqn:Hrun;
    simpl; by eapply Hrows.
Qed.

(** C2 (as the code has it): the try/except of the main loop encloses a
    whole file, and no exception leaves the loop ([main_loop] returns a
    state, not an exception).  When get_timetable raises for a file, the
    state reached at the raise is kept, the CSV FILE ERROR message is put
    at the front of the log, and the loop goes on with the next file.
    The raise comes from a row of the file, and the rows after that one
    are not read.  A file that does not raise adds no message.  Nothing is
    rolled back, at the raise or later: every line stays in the catalog
    with its name, route and departures, and the messages already logged
    stay in the log in their order. *)
Theorem main_loop_isolates_files :
  (∀ csv_file rows rest e (w w' : World num),
      get_timetable csv_file rows w = (inl e, w') ->
      main_loop ((csv_file, rows) :: rest) w
      = main_loop rest (mkWorld (catalog w') (csv_file_error csv_file e :: error_log w'))
      ∧ persists (catalog w) (catalog w'))
  ∧ (∀ csv_file rows1 row rows2 rest e (w w1 w2 : World num),
      for_each (enumerate rows1) (get_timetable_row csv_file) w = (inr tt, w1) ->
      get_timetable_row csv_file (length rows1, row) w1 = (inl e, w2) ->
      main_loop ((csv_file, rows1 ++ row :: rows2) :: rest) w
      = main_loop rest (mkWorld (catalog w2) (csv_file_error csv_file e :: error_log w2))
      ∧ persists (catalog w) (catalog w1)
      ∧ persists (catalog w1) (catalog w2))
  ∧ (∀ csv_file rows rest (w w' : World num),
        get_timetable csv_file rows w = (inr tt, w') ->
        main_loop ((csv_file, rows) :: rest) w = main_loop rest w')
  ∧ (∀ csv_files (w : World num),
        persists (catalog w) (catalog (main_loop csv_files w))
        ∧ error_log w `sublist_of` error_log (main_loop csv_files w)).
Proof.
  split; [|split; [|split]].
  - intros csv_file rows rest e w w' Hrun. split.
    + unfold main_loop. cbn [fold_left]. f_equal.
      unfold main_loop_body. cbn [fst snd]. by rewrite Hrun.
    + by destruct (get_timetable_grows _ _ _ _ _ Hrun).
  - intros csv_file rows1 row rows2 rest e w w1 w2 H1 H2. split; [|split].
    + unfold main_loop. cbn [fold_left]. f_equal.
      unfold main_loop_body, get_timetable. cbn [fst snd].
      rewrite enumerate_app, for_each_app, H1. cbn [imap for_each]. unfold bind.
      by rewrite Nat.add_0_r, H2.
    + by destruct (for_each_grows _ _
                     (fun i_row => get_timetable_row_grows csv_file i_row) _ _ _ H1).
    + by destruct (get_timetable_row_grows _ _ _ _ _ H2).
  - intros csv_file rows rest w w' Hrun. unfold main_loop. cbn [fold_left]. f_equal.
    unfold main_loop_body. cbn [fst snd]. by rewrite Hrun.
  - apply main_loop_grows.
Qed.

(* ------------------------------------------------------------------- *)
(* More on the Path Stitcher                                            *)
(* ------------------------------------------------------------------- *)

Lemma sections_of_length stops sections :
  sections_of stops = inr sections -> length sections = length stops.
Proof.
  revert sections. induction stops as [|stop stops IH]; intros sections; simpl.
  - by intros [= <-].
  - destruct (findObjectByExternalId stop.1); [|done].
    destruct (sections_of stops) as [e|ss]; [done|]. intros [= <-]. simpl. f_equal.
    by apply IH.
Qed.

(** The loop of find_route_legs, turn by turn. *)
Lemma find_route_legs_loop_ind (P : nat -> Stitch -> Prop) stops sections st0 :
  P 0%nat st0 ->
  (∀ (i : nat) section st,
      sections !! i = Some section -> P i st ->
      P (S i) (find_route_legs_body stops sections st (i, section))) ->
  P (length sections) (find_route_legs_loop stops sections st0).
Proof.
  intros H0 Hstep. unfold find_route_legs_loop.
  cut (∀ p rest, sections = p ++ rest ->
         P (length p) (fold_left (find_route_legs_body stops sections) (enumerate p) st0)).
  { intros H. apply (H sections []). by rewrite app_nil_r. }
  induction p as [|x p IH] using rev_ind; intros rest Heq; [done|].
  rewrite enumerate_app, fold_left_app, length_app. cbn [imap fold_left length].
  rewrite Nat.add_0_r, Nat.add_1_r. apply Hstep.
  - rewrite Heq, <- app_assoc. by apply list_lookup_middle.
  - apply (IH ([x] ++ rest)). by rewrite Heq, <- app_assoc.
Qed.

(** What one turn does, when stops and sections go together. *)
Lemma find_route_legs_body_cases stops sections st (i : nat) section :
  length sections = length stops ->
  sections !! i = Some section ->
  (find_route_legs_body stops sections st (i, section) = st
   ∧ (sections !! (i + 1)%nat = None
      ∨ ∃ next, sections !! (i + 1)%nat = Some next ∧ getPath section next = None))
  ∨ (∃ next path stop_i stop_next,
        sections !! (i + 1)%nat = Some next
        ∧ getPath section next = Some path
        ∧ stops !! i = Some stop_i
        ∧ stops !! (i + 1)%nat = Some stop_next
        ∧ find_route_legs_body stops sections st (i, section)
          = stitch_pair st stop_i stop_next path).
Proof.
  intros Hlen Hi. unfold find_route_legs_body.
  destruct (sections !! (i + 1)%nat) as [next|] eqn:Hn; [|left; eauto].
  destruct (getPath section next) as [path|] eqn:Hp; [|left; eauto].
  right. exists next, path.
  apply lookup_lt_Some in Hi. apply lookup_lt_Some in Hn.
  destruct (stops !! i) as [stop_i|] eqn:Hsi; [|apply lookup_ge_None in Hsi; lia].
  destruct (stops !! (i + 1)%nat) as [stop_next|] eqn:Hsn;
    [|apply lookup_ge_None in Hsn; lia].
  exists stop_i, stop_next. do 4 (split; [done|]).
  unfold stitch_pair, log_warning.
  destruct (20 <? length path)%nat; [|done]. by destruct (bool_decide _).
Qed.

(** What find_route_legs returns, with the facts its success implies. *)
Lemma find_route_legs_inr_loop stops legs (w w' : World num) :
  find_route_legs stops w = (inr legs, w') ->
  ∃ sections stop_last,
    sections_of stops = inr sections
    ∧ length sections = length stops
    ∧ last stops = Some stop_last
    ∧ let st := find_route_legs_loop stops sections (mkStitch [] [] [] (error_log w)) in
      legs = st_legs st ++ [mkLeg (st_route st) (st_route_stops st ++ [stop_last])]
      ∧ w' = mkWorld (catalog w) (st_error_log st).
Proof.
  intros H. destruct (find_route_legs_inr _ _ _ _ H) as (sections & stop_last & Hs & Hl).
  exists sections, stop_last. rewrite (find_route_legs_returns _ _ _ _ Hs Hl) in H.
  injection H as <- <-. split; [done|]. split; [by apply sections_of_length|]. done.
Qed.

Lemma extend_route_prefix (path route : list Z) : route `prefix_of` extend_route route path.
Proof.
  unfold extend_route. revert route. induction path as [|link path IH]; intros route; [done|].
  cbn [fold_left]. etrans; [|apply IH].
  destruct (last route) as [l|]; [|by eexists].
  destruct (Z.eqb link l); [done|by eexists].
Qed.

Lemma extend_route_nonempty (path route : list Z) :
  path ≠ [] -> extend_route route path ≠ [].
Proof.
  destruct path as [|link path]; [done|]. intros _ Hnil.
  unfold extend_route in Hnil. cbn [fold_left] in Hnil.
  match type of Hnil with fold_left ?f path ?r = [] =>
    assert (Hr : r ≠ []); [|destruct (extend_route_prefix path r) as [k Hk]] end.
  - destruct (last route) as [l|] eqn:E.
    + apply last_Some in E as [r' ->]. by destruct (Z.eqb link l), r'.
    + by destruct route.
  - unfold extend_route in Hk. rewrite Hnil in Hk.
    symmetry in Hk. by apply app_eq_nil in Hk as [? _].
Qed.

Lemma leg_single_stop_iff (route : list Z) (route_stops : list StopVisit) (stop : StopVisit) :
  (route = [] ↔ route_stops = []) ->
  (1 <= length (route_stops ++ [stop]))%nat
  ∧ (route = [] ↔ length (route_stops ++ [stop]) = 1%nat).
Proof.
  intros Hr. rewrite length_app. simpl. split; [lia|]. rewrite Hr.
  destruct route_stops; simpl; split; (done || lia).
Qed.

(** The shape of the legs: the working route is empty exactly when the
    stop buffer is, and a finished leg has an empty route exactly when it
    has a single stop. *)
Lemma find_route_legs_loop_shape stops sections log :
  length sections = length stops ->
  let st := find_route_legs_loop stops sections (mkStitch [] [] [] log) in
  (st_route st = [] ↔ st_route_stops st = [])
  ∧ Forall (fun leg => (1 <= length (Stops leg))%nat
                       ∧ (Route leg = [] ↔ length (Stops leg) = 1%nat)) (st_legs st).
Proof.
  intros Hlen.
  set (ok := fun leg => (1 <= length (Stops leg))%nat
                        ∧ (Route leg = [] ↔ length (Stops leg) = 1%nat)).
  set (P := fun (_ : nat) st => (st_route st = [] ↔ st_route_stops st = [])
                                  ∧ Forall ok (st_legs st)).
  apply (find_route_legs_loop_ind P); [by split|].
  intros i section st Hi [Hr Hl].
  destruct (find_route_legs_body_cases stops sections st i section Hlen Hi)
    as [[-> _]|(next & path & stop_i & stop_next & _ & _ & _ & _ & ->)]; [done|].
  unfold stitch_pair. destruct (length path =? 0)%nat eqn:Hp; simpl.
  - split; [done|]. apply Forall_app. split; [done|]. constructor; [|done].
    by apply leg_single_stop_iff.
  - split; [|done]. apply Nat.eqb_neq in Hp. split.
    + intros E. by apply extend_route_nonempty in E; [|destruct path].
    + intros E. by destruct (st_route_stops st).
Qed.

(** X1: every leg find_route_legs returns has at least one stop, and its
    route is empty exactly when it has a single stop.  So a leg that goes
    on to become a line (two stops or more) never has an empty route. *)
Theorem find_route_legs_route_empty_iff_single_stop stops legs (w w' : World num) :
  find_route_legs stops w = (inr legs, w') ->
  Forall (fun leg => (1 <= length (Stops leg))%nat
                     ∧ (Route leg = [] ↔ length (Stops leg) = 1%nat)) legs.
Proof.
  intros H.
  destruct (find_route_legs_inr_loop _ _ _ _ H) as (sections & stop_last & _ & Hlen & _ & -> & _).
  destruct (find_route_legs_loop_shape stops sections (error_log w) Hlen) as [Hr Hl].
  apply Forall_app. split; [done|]. constructor; [|done].
  by apply leg_single_stop_iff.
Qed.

Lemma stitched_stops_pair st stop_i stop_next path :
  stitched_stops (stitch_pair st stop_i stop_next path) = stitched_stops st ++ [stop_i].
Proof.
  unfold stitched_stops, stitch_pair. destruct (length path =? 0)%nat; simpl.
  - rewrite fmap_app, concat_app. simpl. by rewrite !app_nil_r, app_assoc.
  - by rewrite app_assoc.
Qed.

Lemma take_sublist_le {A} (l : list A) (a b : nat) :
  (a <= b)%nat -> take a l `sublist_of` take b l.
Proof.
  intros Hab. replace a with (min a b) by lia. rewrite <- take_take. apply sublist_take.
Qed.

Lemma take_pred_last {A} (l : list A) (x : A) :
  last l = Some x -> take (length l - 1) l ++ [x] = l.
Proof.
  intros Hl. apply last_Some in Hl as [l' ->]. rewrite length_app. simpl.
  replace (length l' + 1 - 1)%nat with (length l') by lia. by rewrite take_app_length.
Qed.

(** The stops put into legs by the first i turns: a subsequence of the
    stops before position i (the last stop is never put in by a turn),
    and all of them when no query raised. *)
Lemma find_route_legs_loop_stops stops sections st0 :
  length sections = length stops ->
  stitched_stops st0 = [] ->
  let st := find_route_legs_loop stops sections st0 in
  stitched_stops st `sublist_of` take (length stops - 1) stops
  ∧ ((∀ (i : nat) a b, sections !! i = Some a -> sections !! (S i) = Some b ->
                       is_Some (getPath a b))
     -> stitched_stops st = take (length stops - 1) stops).
Proof.
  intros Hlen H0.
  set (n := length stops).
  set (P := fun (i : nat) st =>
              stitched_stops st `sublist_of` take (min i (n - 1)) stops
              ∧ ((∀ (i : nat) a b, sections !! i = Some a -> sections !! (S i) = Some b ->
                                   is_Some (getPath a b))
                 -> stitched_stops st = take (min i (n - 1)) stops)).
  assert (HP : P (length sections) (find_route_legs_loop stops sections st0)).
  { apply (find_route_legs_loop_ind P).
    { unfold P. rewrite H0. simpl. split; [apply sublist_nil_l|done]. }
    intros i section st Hi [Hsub Heq]. unfold P.
    pose proof (lookup_lt_Some _ _ _ Hi) as Hlt.
    destruct (find_route_legs_body_cases stops sections st i section Hlen Hi)
      as [[-> Hskip]|(next & path & stop_i & stop_next & Hn & _ & Hsi & _ & ->)].
    - split.
      + etrans; [exact Hsub|]. apply take_sublist_le. lia.
      + intros Hno. destruct Hskip as [Hnone|(next & Hn & Hq)].
        * apply lookup_ge_None in Hnone.
          rewrite Heq by done. f_equal. unfold n. lia.
        * rewrite Nat.add_1_r in Hn. destruct (Hno i section next Hi Hn) as [? ?].
          congruence.
    - apply lookup_lt_Some in Hn. rewrite stitched_stops_pair.
      replace (min (S i) (n - 1)) with (S i) by (unfold n; lia).
      replace (min i (n - 1)) with i in * by (unfold n; lia).
      rewrite (take_S_r _ _ _ Hsi). split.
      + by apply sublist_app.
      + intros Hno. by rewrite Heq. }
  destruct HP as [Hsub Heq].
  replace (min (length sections) (n - 1)) with (n - 1)%nat in * by (unfold n; lia).
  done.
Qed.

(** X2: the stops of the legs returned by find_route_legs, read leg after
    leg, are a subsequence of the stops it was given: the order is kept
    and no stop is put into two legs.  When none of the queries between
    consecutive sections raises, nothing is lost: the legs cut the trip
    into consecutive pieces. *)
Theorem find_route_legs_stops_partition stops sections legs (w w' : World num) :
  sections_of stops = inr sections ->
  find_route_legs stops w = (inr legs, w') ->
  concat (Stops <$> legs) `sublist_of` stops
  ∧ ((∀ (i : nat) a b, sections !! i = Some a -> sections !! (S i) = Some b ->
                       is_Some (getPath a b))
     -> concat (Stops <$> legs) = stops).
Proof.
  intros Hs H.
  destruct (find_route_legs_inr_loop _ _ _ _ H)
    as (sections' & stop_last & Hs' & Hlen & Hlast & -> & _).
  rewrite Hs in Hs'. injection Hs' as <-.
  destruct (find_route_legs_loop_stops stops sections (mkStitch [] [] [] (error_log w))
              Hlen eq_refl) as [Hsub Heq].
  rewrite fmap_app, concat_app. simpl. rewrite app_nil_r, app_assoc.
  fold (stitched_stops (find_route_legs_loop stops sections
                          (mkStitch [] [] [] (error_log w)))).
  rewrite <- (take_pred_last stops stop_last Hlast) at 2 4. split.
  - by apply sublist_app.
  - intros Hno. by rewrite Heq.
Qed.

Lemma consecutive_pairs_lookup sections (i : nat) a b :
  consecutive_pairs sections !! i = Some (a, b)
  ↔ sections !! i = Some a ∧ sections !! (S i) = Some b.
Proof.
  unfold consecutive_pairs. rewrite lookup_zip_with_Some. setoid_rewrite lookup_drop.
  split.
  - intros (x & y & [= -> ->] & Hx & Hy). done.
  - intros [Hx Hy]. exists a, b. done.
Qed.

Lemma consecutive_pairs_take_S sections (i : nat) a b :
  sections !! i = Some a -> sections !! (S i) = Some b ->
  take (S i) (consecutive_pairs sections) = take i (consecutive_pairs sections) ++ [(a, b)].
Proof. intros Ha Hb. apply take_S_r. by apply consecutive_pairs_lookup. Qed.

Lemma consecutive_pairs_take_end sections (i : nat) :
  sections !! (S i) = None ->
  take (S i) (consecutive_pairs sections) = take i (consecutive_pairs sections).
Proof.
  intros Hn.
  assert (Hlen : (length (consecutive_pairs sections) <= i)%nat).
  { apply lookup_ge_None. destruct (consecutive_pairs sections !! i) as [[a b]|] eqn:E; [|done].
    apply consecutive_pairs_lookup in E as [_ E]. congruence. }
  rewrite !take_ge by lia. done.
Qed.

Lemma consecutive_pairs_take_all sections :
  take (length sections) (consecutive_pairs sections) = consecutive_pairs sections.
Proof.
  apply take_ge. unfold consecutive_pairs. rewrite length_zip_with, length_drop. lia.
Qed.

(** X3: find_route_legs returns one leg more than there are consecutive
    pairs of sections whose query returns the empty path: each such pair
    closes a leg, and nothing else does (a query that raises does not). *)
Theorem find_route_legs_count stops sections legs (w w' : World num) :
  sections_of stops = inr sections ->
  find_route_legs stops w = (inr legs, w') ->
  length legs = S (length (filter no_path (consecutive_pairs sections))).
Proof.
  intros Hs H.
  destruct (find_route_legs_inr_loop _ _ _ _ H)
    as (sections' & stop_last & Hs' & Hlen & _ & -> & _).
  rewrite Hs in Hs'. injection Hs' as <-.
  set (P := fun (i : nat) st =>
              length (st_legs st)
              = length (filter no_path (take i (consecutive_pairs sections)))).
  assert (HP : P (length sections)
                 (find_route_legs_loop stops sections (mkStitch [] [] [] (error_log w)))).
  { apply (find_route_legs_loop_ind P); [done|].
    intros i section st Hi HPi. unfold P in *.
    destruct (find_route_legs_body_cases stops sections st i section Hlen Hi)
      as [[-> Hskip]|(next & path & stop_i & stop_next & Hn & Hq & _ & _ & ->)].
    - destruct Hskip as [Hnone|(next & Hn & Hq)]; rewrite Nat.add_1_r in *.
      + by rewrite consecutive_pairs_take_end.
      + rewrite (consecutive_pairs_take_S _ _ _ _ Hi Hn), filter_app.
        rewrite filter_cons_False; [|unfold no_path; simpl; congruence].
        by rewrite filter_nil, app_nil_r.
    - rewrite Nat.add_1_r in Hn.
      rewrite (consecutive_pairs_take_S _ _ _ _ Hi Hn), filter_app.
      unfold stitch_pair. destruct path as [|link path]; simpl.
      + rewrite filter_cons_True by done. rewrite !length_app, HPi. done.
      + rewrite filter_cons_False; [|unfold no_path; simpl; congruence].
        by rewrite filter_nil, app_nil_r. }
  unfold P in HP. rewrite consecutive_pairs_take_all in HP.
  rewrite length_app, HP. simpl. lia.
Qed.

(** X4: when the query between every two consecutive sections returns a
    non-empty path, find_route_legs returns a single leg.  It holds all
    the stops of the trip, and its route is the paths laid end to end
    with immediate repetitions of a link skipped. *)
Theorem find_route_legs_connected stops sections (w : World num) :
  sections_of stops = inr sections ->
  stops ≠ [] ->
  (∀ (i : nat) a b, sections !! i = Some a -> sections !! (S i) = Some b ->
                    ∃ path, getPath a b = Some path ∧ path ≠ []) ->
  ∃ log, find_route_legs stops w
         = (inr [mkLeg (stitched_route sections) stops], mkWorld (catalog w) log).
Proof.
  intros Hs Hne Hconn.
  destruct (last stops) as [stop_last|] eqn:Hlast; [|by apply last_None in Hlast].
  pose proof (sections_of_length _ _ Hs) as Hlen.
  rewrite (find_route_legs_returns _ _ _ _ Hs Hlast). cbv zeta.
  set (st0 := mkStitch [] [] [] (error_log w)).
  set (P := fun (i : nat) st =>
              st_legs st = []
              ∧ st_route st
                = fold_left (fun route p => extend_route route (default [] (getPath p.1 p.2)))
                    (take i (consecutive_pairs sections)) []).
  assert (HP : P (length sections) (find_route_legs_loop stops sections st0)).
  { apply (find_route_legs_loop_ind P); [done|].
    intros i section st Hi [Hl Hr]. unfold P.
    destruct (find_route_legs_body_cases stops sections st i section Hlen Hi)
      as [[-> Hskip]|(next & path & stop_i & stop_next & Hn & Hq & _ & _ & ->)].
    - destruct Hskip as [Hnone|(next & Hn & Hq)]; rewrite Nat.add_1_r in *.
      + by rewrite consecutive_pairs_take_end.
      + destruct (Hconn i section next Hi Hn) as (path & Hp & _). congruence.
    - rewrite Nat.add_1_r in Hn.
      destruct (Hconn i section next Hi Hn) as (path' & Hp & Hpne).
      rewrite Hq in Hp. injection Hp as <-.
      rewrite (consecutive_pairs_take_S _ _ _ _ Hi Hn), fold_left_app. simpl.
      rewrite Hq. simpl. unfold stitch_pair.
      destruct path as [|link path]; [done|]. simpl. by rewrite Hr. }
  destruct HP as [Hl Hr]. rewrite consecutive_pairs_take_all in Hr.
  destruct (find_route_legs_loop_stops stops sections st0 Hlen eq_refl) as [_ Heq].
  unfold stitched_stops in Heq. rewrite Hl in Heq. simpl in Heq.
  rewrite Hl, Hr, Heq.
  - rewrite (take_pred_last stops stop_last Hlast). simpl. eauto.
  - intros i a b Ha Hb. destruct (Hconn i a b Ha Hb) as (path & -> & _). eauto.
Qed.

Lemma log_grows_refl log : log_grows log log.
Proof. repeat split; auto. Qed.

Lemma log_grows_trans l1 l2 l3 : log_grows l1 l2 -> log_grows l2 l3 -> log_grows l1 l3.
Proof.
  intros (Hp1 & Hn1 & Hw1 & Hs1) (Hp2 & Hn2 & Hw2 & Hs2).
  split; [by etrans|]. split; [auto|]. split.
  - intros msg Hin. destruct (Hw2 msg Hin) as [Hin2|Hw]; [by apply Hw1|by right].
  - intros Hshort. by rewrite Hs2, Hs1.
Qed.

Lemma log_grows_warning log stop_i stop_next a b path :
  getPath a b = Some path -> log_grows log (log_warning log stop_i stop_next path).
Proof.
  intros Hq. unfold log_warning.
  destruct (20 <? length path)%nat eqn:Hlen; [|apply log_grows_refl].
  apply Nat.ltb_lt in Hlen.
  destruct (bool_decide _) eqn:Hin; [apply log_grows_refl|].
  apply bool_decide_eq_false in Hin.
  split; [by eexists|]. split; [|split].
  - intros Hnd. apply NoDup_app. split; [done|]. split; [|apply NoDup_singleton].
    intros x Hx Hx'. apply list_elem_of_singleton in Hx' as ->. done.
  - intros msg Hmsg. apply elem_of_app in Hmsg as [Hmsg|Hmsg]; [by left|right].
    apply list_elem_of_singleton in Hmsg as ->. by repeat eexists.
  - intros Hshort. specialize (Hshort a b path Hq). lia.
Qed.

Lemma find_route_legs_body_log_grows stops sections st i_section :
  log_grows (st_error_log st)
            (st_error_log (find_route_legs_body stops sections st i_section)).
Proof.
  destruct i_section as [i section]. unfold find_route_legs_body.
  destruct (sections !! (i + 1)%nat) as [next|]; [|apply log_grows_refl].
  destruct (getPath section next) as [path|] eqn:Hq; [|apply log_grows_refl].
  destruct (stops !! i) as [stop_i|]; [|apply log_grows_refl].
  destruct (20 <? length path)%nat eqn:Hlen.
  - destruct (stops !! (i + 1)%nat) as [stop_next|]; [|apply log_grows_refl].
    pose proof (log_grows_warning (st_error_log st) stop_i stop_next _ _ _ Hq) as Hg.
    unfold log_warning in Hg. rewrite Hlen in Hg.
    by destruct (bool_decide _), (length path =? 0)%nat.
  - destruct (length path =? 0)%nat; apply log_grows_refl.
Qed.

Lemma find_route_legs_loop_log_grows stops sections st :
  log_grows (st_error_log st) (st_error_log (find_route_legs_loop stops sections st)).
Proof.
  unfold find_route_legs_loop. generalize (enumerate sections). intros l. revert st.
  induction l as [|x l IH]; intros st; [apply log_grows_refl|].
  cbn [fold_left]. eapply log_grows_trans; [apply find_route_legs_body_log_grows|apply IH].
Qed.

(** X5: whatever it returns or raises, find_route_legs leaves the catalog
    alone and changes the error log only by adding path-length warnings
    at its end: a log without duplicates stays without duplicates, every
    new entry is a PATH LENGTH WARNING for a path of more than 20
    sections, and the log is unchanged when no path exceeds 20 sections. *)
Theorem find_route_legs_only_logs_warnings stops (w : World num) r w' :
  find_route_legs stops w = (r, w') ->
  catalog w' = catalog w ∧ log_grows (error_log w) (error_log w').
Proof.
  unfold find_route_legs, bind, liftE, get_world, modify, ret, raise.
  destruct (sections_of stops) as [e|sections].
  { intros [= _ <-]. split; [done|apply log_grows_refl]. }
  pose proof (find_route_legs_loop_log_grows stops sections
                (mkStitch [] [] [] (error_log w))) as Hg.
  by destruct (last stops); intros [= _ <-].
Qed.

Lemma sections_of_unresolved stops stop :
  stop ∈ stops -> findObjectByExternalId stop.1 = None ->
  sections_of stops = inl (AttributeError "getSection").
Proof.
  intros Hin Hnone. induction stops as [|x stops IH]; [by apply elem_of_nil in Hin|].
  simpl. apply elem_of_cons in Hin as [<-|Hin]; [by rewrite Hnone|].
  destruct (findObjectByExternalId x.1); [|done]. by rewrite IH.
Qed.

Lemma sections_of_resolved stops :
  Forall (fun stop : StopVisit => is_Some (findObjectByExternalId stop.1)) stops ->
  ∃ sections, sections_of stops = inr sections.
Proof.
  induction 1 as [|stop stops [o Ho] _ [sections IH]]; simpl; [eauto|].
  rewrite Ho, IH. eauto.
Qed.

(** X6: find_route_legs raises IndexError on an empty list of stops and
    AttributeError as soon as one stop is not found in the network, both
    before anything is changed.  So when the model has no object with the
    external id "Bus Station", a row that visits a hub identifier not in
    the network raises, although the Stop Resolver kept the visit. *)
Theorem find_route_legs_raises (w : World num) :
  find_route_legs [] w = (inl IndexError, w)
  ∧ (∀ stops stop,
        stop ∈ stops -> findObjectByExternalId stop.1 = None ->
        find_route_legs stops w = (inl (AttributeError "getSection"), w))
  ∧ (∀ csv_file (i : nat) row stops stop,
        findObjectByExternalId "Bus Station" = None ->
        parse_stops (py_split "," (py_strip_ws row)) = inr stops ->
        stop ∈ stops -> findObjectByExternalId stop.1 = None ->
        stop.1 ∈ bus_station_ids ->
        get_timetable_row csv_file (S i, row) w
        = (inl (AttributeError "getSection"), w)).
Proof.
  assert (Hun : ∀ stops stop,
             stop ∈ stops -> findObjectByExternalId stop.1 = None ->
             find_route_legs stops w = (inl (AttributeError "getSection"), w)).
  { intros stops stop Hin Hnone. unfold find_route_legs, bind, liftE.
    by rewrite (sections_of_unresolved stops stop Hin Hnone). }
  split; [by destruct w|]. split; [done|].
  intros csv_file i row stops stop Hhub Hparse Hin Hnone Hid.
  assert (Hkept : ("Bus Station", stop.2) ∈ match_stops_in_model stops).
  { rewrite match_stops_omap. apply list_elem_of_omap. exists stop. split; [done|].
    unfold stop_resolver_spec. rewrite Hnone. by rewrite bool_decide_eq_true_2. }
  unfold get_timetable_row, bind, liftE. cbn [Nat.eqb]. rewrite Hparse. cbv zeta.
  destruct (length (match_stops_in_model stops) =? 0)%nat eqn:E.
  - apply Nat.eqb_eq, nil_length_inv in E. rewrite E in Hkept.
    by apply elem_of_nil in Hkept.
  - by rewrite (Hun _ _ Hkept Hhub).
Qed.

(* ------------------------------------------------------------------- *)
(* Reading a file                                                       *)
(* ------------------------------------------------------------------- *)

Lemma lazy_group_time (time rest : string) :
  has_char ")" time = false -> has_char "010" time = false ->
  lazy_group (time +:+ String ")" rest) = Some time.
Proof.
  induction time as [|c time IH]; [done|].
  rewrite append_cons. simpl.
  destruct (Ascii.eqb c ")"); [done|]. destruct (Ascii.eqb c "010"); [done|].
  intros H1 H2. by rewrite IH.
Qed.

Lemma re_search_parens_token (eid time rest : string) :
  has_char "(" eid = false ->
  has_char ")" time = false -> has_char "010" time = false ->
  re_search_parens (eid +:+ String "(" (time +:+ String ")" rest)) = Some time.
Proof.
  intros He Ht1 Ht2. induction eid as [|c eid IH].
  - rewrite append_nil_l. simpl. by rewrite lazy_group_time.
  - rewrite append_cons. simpl in *. destruct (Ascii.eqb c "("); [done|]. by apply IH.
Qed.

Lemma lazy_group_none (s : string) : has_char ")" s = false -> lazy_group s = None.
Proof.
  induction s as [|x s IH]; [done|]. simpl.
  destruct (Ascii.eqb x ")"); [done|]. intros Hs.
  destruct (Ascii.eqb x "010"); [done|]. by rewrite IH.
Qed.

Lemma re_search_parens_none (c : ascii) (s : string) :
  c = "("%char ∨ c = ")"%char -> has_char c s = false -> re_search_parens s = None.
Proof.
  intros Hc. induction s as [|d s IH]; [done|]. simpl.
  destruct (Ascii.eqb_spec d c) as [->|Hne]; [done|]. intros Hs.
  specialize (IH Hs). destruct (Ascii.eqb d "(") eqn:Ed; [|done].
  rewrite IH. destruct Hc as [-> | ->].
  - apply Ascii.eqb_eq in Ed. done.
  - by rewrite lazy_group_none.
Qed.

Lemma re_sub_parens_inside (time : string) :
  has_char ")" time = false ->
  re_sub_parens_go true (time +:+ ")") = EmptyString.
Proof.
  induction time as [|c time IH]; [done|].
  rewrite append_cons. simpl. destruct (Ascii.eqb c ")"); [done|]. apply IH.
Qed.

Lemma re_sub_parens_token (eid time : string) :
  has_char "(" eid = false -> has_char ")" time = false ->
  re_sub_parens (eid +:+ String "(" (time +:+ ")")) = eid.
Proof.
  intros He Ht. unfold re_sub_parens. induction eid as [|c eid IH].
  - rewrite append_nil_l. simpl. rewrite has_char_append. simpl.
    rewrite orb_true_r. by apply re_sub_parens_inside.
  - rewrite append_cons. simpl in *. destruct (Ascii.eqb c "("); [done|].
    simpl. f_equal. by apply IH.
Qed.

(** X7: the token "eid(time)" is read back as the pair (eid, time), with
    the white space around eid removed, whenever eid holds no opening
    parenthesis and time holds neither a closing parenthesis nor a line
    break; and a token without an opening or without a closing
    parenthesis raises AttributeError. *)
Theorem parse_stop_token (eid time : string) :
  has_char "(" eid = false ->
  has_char ")" time = false ->
  has_char "010" time = false ->
  parse_stop (eid +:+ "(" +:+ time +:+ ")") = inr (py_strip_ws eid, time)
  ∧ parse_stop eid = inl (AttributeError "group")
  ∧ parse_stop time = inl (AttributeError "group").
Proof.
  intros He Ht1 Ht2. unfold parse_stop. split; [|split].
  - change ("(" +:+ time +:+ ")") with (String "(" (time +:+ String ")" EmptyString)).
    by rewrite re_search_parens_token, re_sub_parens_token.
  - by rewrite (re_search_parens_none "(" eid) by auto.
  - by rewrite (re_search_parens_none ")" time) by auto.
Qed.

Lemma parse_stops_inl data e : parse_stops data = inl e -> e = AttributeError "group".
Proof.
  induction data as [|stop data IH]; simpl; [done|].
  unfold parse_stop at 1. destruct (re_search_parens stop); [|by intros [= <-]].
  destruct (parse_stops data) as [e'|svs]; [|done]. intros [= <-]. by apply IH.
Qed.

Lemma match_stops_resolve stops :
  is_Some (findObjectByExternalId "Bus Station") ->
  Forall (fun stop : StopVisit => is_Some (findObjectByExternalId stop.1))
         (match_stops_in_model stops).
Proof.
  intros Hhub. rewrite match_stops_omap. apply Forall_forall. intros kept Hin.
  apply list_elem_of_omap in Hin as (stop & _ & Hk). unfold stop_resolver_spec in Hk.
  destruct (findObjectByExternalId stop.1) eqn:E; [injection Hk as <-; by rewrite E|].
  destruct (bool_decide _); [|done]. by injection Hk as <-.
Qed.

(** A row whose tokens can be read goes through without raising, once the
    model has the "Bus Station" stop. *)
Lemma get_timetable_row_parsed csv_file (i : nat) row stops (w : World num) :
  registry_ok (catalog w) -> timetables_named (catalog w) ->
  plain_source (csv_path_of csv_file) -> names_free (csv_path_of csv_file) ->
  is_Some (findObjectByExternalId "Bus Station") ->
  parse_stops (py_split "," (py_strip_ws row)) = inr stops ->
  ∃ w', get_timetable_row csv_file (i, row) w = (inr tt, w')
        ∧ registry_ok (catalog w') ∧ timetables_named (catalog w').
Proof.
  intros Hok Htt Hsrc Hfree Hhub Hparse. unfold get_timetable_row.
  destruct (i =? 0)%nat; [by exists w|].
  unfold bind, liftE. rewrite Hparse. cbv zeta.
  destruct (length (match_stops_in_model stops) =? 0)%nat eqn:E.
  { exists w. split; [|done]. apply parse_stops_length in Hparse.
    pose proof (py_split_nonempty "," (py_strip_ws row)) as Hne.
    destruct stops; [|done]. by destruct (py_split _ _). }
  destruct (sections_of_resolved _ (match_stops_resolve stops Hhub)) as [sections Hs].
  destruct (last (match_stops_in_model stops)) as [stop_last|] eqn:Hl.
  2:{ apply last_None in Hl. by rewrite Hl in E. }
  pose proof (find_route_legs_returns _ _ _ w Hs Hl) as Hrun. cbv zeta in Hrun.
  destruct (find_route_legs_resolves _ _ _ _ Hrun) as [Hres _].
  rewrite Hrun.
  match goal with |- context [for_each ?legs _ ?w1] =>
    destruct (get_timetable_legs_run (csv_path_of csv_file) legs w1 Hok Htt Hsrc Hfree Hres)
      as (w2 & -> & Hok2 & Htt2 & _) end.
  by exists w2.
Qed.

Lemma get_timetable_rows (csv_file : string) (rows : list string) :
  ∀ (g : nat -> nat) (w : World num),
    registry_ok (catalog w) -> timetables_named (catalog w) ->
    plain_source (csv_path_of csv_file) -> names_free (csv_path_of csv_file) ->
    is_Some (findObjectByExternalId "Bus Station") ->
    (Forall row_parses rows ->
     ∃ w', for_each (imap (fun k row => (S (g k), row)) rows) (get_timetable_row csv_file) w
           = (inr tt, w')
           ∧ registry_ok (catalog w') ∧ timetables_named (catalog w'))
    ∧ (¬ Forall row_parses rows ->
       ∃ w', for_each (imap (fun k row => (S (g k), row)) rows) (get_timetable_row csv_file) w
             = (inl (AttributeError "group"), w')).
Proof.
  induction rows as [|row rows IH]; intros g w Hok Htt Hsrc Hfree Hhub.
  { split; [by exists w|]. intros Hn. destruct Hn. constructor. }
  cbn [imap for_each]. unfold bind.
  destruct (parse_stops (py_split "," (py_strip_ws row))) as [e|stops] eqn:Hparse.
  - split.
    + intros Hall. apply Forall_cons in Hall as [[stops Hs] _]. congruence.
    + intros _. exists w. unfold get_timetable_row, bind, liftE. cbn [Nat.eqb].
      rewrite Hparse. by rewrite (parse_stops_inl _ _ Hparse).
  - destruct (get_timetable_row_parsed csv_file (S (g 0%nat)) row stops w
                Hok Htt Hsrc Hfree Hhub Hparse) as (w1 & -> & Hok1 & Htt1).
    destruct (IH (g ∘ S) w1 Hok1 Htt1 Hsrc Hfree Hhub) as [IHy IHn]. split.
    + intros Hall. apply Forall_cons in Hall as [_ Hall]. by apply IHy.
    + intros Hn. apply IHn. intros Hall. apply Hn. constructor; [by exists stops|done].
Qed.

(** X8: for a file whose name does not begin like the name of a
    timetable ("Timetable - ") and whose leg names no object of the
    network bears, in a catalog whose timetables are named after their
    lines and with the "Bus Station" stop in the model, the only thing
    that makes get_timetable raise is a data row with a token it cannot
    read: if every row after the header can be read the file
    goes through (and leaves the registry well formed), otherwise
    get_timetable raises the AttributeError of the failed
    regular-expression search.  The header row is never read. *)
Theorem get_timetable_raises_iff_unreadable csv_file header rows (w : World num) :
  registry_ok (catalog w) -> timetables_named (catalog w) ->
  plain_source (csv_path_of csv_file) -> names_free (csv_path_of csv_file) ->
  is_Some (findObjectByExternalId "Bus Station") ->
  (Forall row_parses rows ->
   ∃ w', get_timetable csv_file (header :: rows) w = (inr tt, w')
         ∧ registry_ok (catalog w') ∧ timetables_named (catalog w'))
  ∧ (¬ Forall row_parses rows ->
     ∃ w', get_timetable csv_file (header :: rows) w = (inl (AttributeError "group"), w')).
Proof.
  intros Hok Htt Hsrc Hfree Hhub. unfold get_timetable, enumerate. cbn [imap for_each].
  unfold bind.
  change (get_timetable_row csv_file (0%nat, header) w) with (@inr exn unit tt, w).
  cbv iota beta.
  apply (get_timetable_rows csv_file rows (fun k => k) w Hok Htt Hsrc Hfree Hhub).
Qed.

(* ------------------------------------------------------------------- *)
(* More on the lines                                                    *)
(* ------------------------------------------------------------------- *)

Lemma stop_on_link_first link stops slot :
  stop_on_link link stops = inr slot -> first_stop_on link stops slot.
Proof.
  revert slot. induction stops as [|stop stops IH]; intros slot; simpl.
  { intros [= <-]. intros stop Hin. by apply elem_of_nil in Hin. }
  destruct (findObjectByExternalId stop.1) as [o|] eqn:Ho; [|done].
  destruct (Z.eqb_spec (stop_section o) link) as [Heq|Hne].
  - intros [= <-]. split; [done|]. exists 0%nat, stop. split; [done|]. split; [done|].
    intros j stop' Hj. lia.
  - intros Hrest. specialize (IH slot Hrest). destruct slot as [o'|]; simpl in *.
    + destruct IH as (Hsec & k & stop' & Hk & Hfind & Hbefore). split; [done|].
      exists (S k), stop'. split; [done|]. split; [done|].
      intros [|j] stop'' Hj Hlook; simpl in Hlook.
      * injection Hlook as <-. eauto.
      * apply (Hbefore j); [lia|done].
    + intros stop' Hin. apply elem_of_cons in Hin as [->|Hin]; [eauto|by apply IH].
Qed.

Lemma added_stops_slots route stops slots :
  added_stops route stops = inr slots ->
  length slots = length route
  ∧ ∀ (i : nat) link, route !! i = Some link ->
      ∃ slot, slots !! i = Some slot ∧ first_stop_on link stops slot.
Proof.
  revert slots. induction route as [|link route IH]; intros slots; simpl.
  { intros [= <-]. split; [done|]. intros i link Hi. by rewrite lookup_nil in Hi. }
  destruct (stop_on_link link stops) as [e|slot] eqn:Hslot; [done|].
  destruct (added_stops route stops) as [e|slots'] eqn:Hrest; [done|].
  intros [= <-]. destruct (IH slots' eq_refl) as [Hlen Hall]. split; [simpl; by f_equal|].
  intros [|i] link' Hi; simpl in Hi.
  - injection Hi as <-. exists slot. split; [done|]. by apply stop_on_link_first.
  - by apply Hall.
Qed.

(** X9: for a leg whose stops are all in the network, calculate_pt_leg
    gives the line the leg's route and one stop slot per link of the
    route, in order: the slot holds the network stop of the first stop of
    the leg that sits on the link, and nothing when no stop of the leg
    sits on it.  The other lines and the error log are left alone. *)
Theorem calculate_pt_leg_aligns_stops (pt_line : nat) leg (w : World num) :
  leg_resolves leg ->
  ∃ slots,
    calculate_pt_leg pt_line leg w
    = (inr tt,
       mkWorld (alter (fun l => setStops slots (setRoute (Route leg) l)) pt_line (catalog w))
               (error_log w))
    ∧ length slots = length (Route leg)
    ∧ ∀ (i : nat) link, Route leg !! i = Some link ->
        ∃ slot, slots !! i = Some slot ∧ first_stop_on link (Stops leg) slot.
Proof.
  intros Hres. destruct (added_stops_resolves (Route leg) (Stops leg) Hres) as [slots Hs].
  exists slots. split; [|by apply added_stops_slots].
  unfold calculate_pt_leg, update_line, bind, modify, liftE. rewrite Hs. simpl.
  by rewrite list_alter_alter_eq.
Qed.

Lemma find_named_app name (i : nat) (cat cat' : list (PublicLine num)) :
  find_named name i (cat ++ cat')
  = match find_named name i cat with
    | Some o => Some o
    | None => find_named name (i + length cat) cat'
    end.
Proof.
  revert i. induction cat as [|x cat IH]; intros i; simpl.
  { by rewrite Nat.add_0_r. }
  destruct (decide (line_name x = name)); [done|].
  destruct (list_find _ _) as [[k t]|]; [done|].
  rewrite IH. by replace (S i + length cat)%nat with (i + S (length cat))%nat by lia.
Qed.

Lemma find_named_created name other (k : nat) leg slots :
  find_named other k [created_line name leg slots]
  = if decide (name = other) then Some (ObjPublicLine k)
    else if decide ("Timetable - " +:+ name = other) then Some (ObjTimeTable k 0)
         else None.
Proof.
  simpl. destruct (decide (name = other)); [done|].
  by destruct (decide ("Timetable - " +:+ name = other)).
Qed.

Lemma length_append (a b : string) :
  String.length (a +:+ b) = (String.length a + String.length b)%nat.
Proof. induction a as [|x a IH]; [done|]. rewrite append_cons. simpl. by rewrite IH. Qed.

Lemma timetable_name_differs (name : string) : "Timetable - " +:+ name ≠ name.
Proof.
  intros H. apply (f_equal String.length) in H.
  rewrite length_append in H. simpl in H. lia.
Qed.

(** X10: when nothing in the catalog bears the name yet and the stops of
    the leg are in the network, create_pt_line adds one line at the end
    of the catalog and returns its position.  From then on findByName
    finds that line under the name; under "Timetable - " followed by the
    name, where it found nothing before, it finds the timetable of the
    new line; under any other name it finds what it found before.  The
    line has the name, the leg's route, one slot per link, one timetable
    called "Timetable - " followed by the name with one fixed full-day
    schedule without departures, and is in the PT folder. *)
Theorem create_pt_line_then_findByName name leg (w : World num) :
  findByName name w = None ->
  leg_resolves leg ->
  ∃ slots w',
    create_pt_line name leg w = (inr (length (catalog w)), w')
    ∧ w' = mkWorld (catalog w ++ [created_line name leg slots]) (error_log w)
    ∧ length slots = length (Route leg)
    ∧ findByName name w' = Some (ObjPublicLine (length (catalog w)))
    ∧ (findByName ("Timetable - " +:+ name) w = None ->
       findByName ("Timetable - " +:+ name) w'
       = Some (ObjTimeTable (length (catalog w)) 0))
    ∧ ∀ other, other ≠ name -> other ≠ "Timetable - " +:+ name ->
               findByName other w' = findByName other w.
Proof.
  intros Hnew Hres. destruct (added_stops_resolves (Route leg) (Stops leg) Hres) as [slots Hs].
  exists slots. eexists. rewrite create_pt_line_run, Hs. split; [done|]. split; [done|].
  split; [by apply added_stops_slots in Hs as [? _]|].
  unfold findByName in *. simpl. split; [|split].
  - destruct (network_findByName name); [done|].
    rewrite find_named_app, Hnew, find_named_created. by rewrite decide_True.
  - destruct (network_findByName ("Timetable - " +:+ name)); [done|].
    intros Hnone. rewrite find_named_app, Hnone, find_named_created.
    rewrite decide_False by (intros H; by apply (timetable_name_differs name)).
    by rewrite decide_True.
  - intros other Hne Hne'. destruct (network_findByName other); [done|].
    rewrite find_named_app, find_named_created.
    rewrite !decide_False by done. by destruct (find_named other 0 (catalog w)).
Qed.

(** X11: add_departure raises IndexError, and changes nothing, when the
    line has no timetable or its first timetable has no schedule.
    Otherwise it puts one departure (the bus, the given time, a zero
    mean) at the end of the first schedule of the first timetable and
    touches nothing else: not the line's name, route or stops, not its
    other schedules and timetables, not the other lines, not the log. *)
Theorem add_departure_appends (pt_line : nat) time line (w : World num) :
  catalog w !! pt_line = Some line ->
  (line_timetables line = [] -> add_departure pt_line time w = (inl IndexError, w))
  ∧ (∀ t ts, line_timetables line = t :: ts -> tt_schedules t = [] ->
             add_departure pt_line time w = (inl IndexError, w))
  ∧ (∀ t ts s ss, line_timetables line = t :: ts -> tt_schedules t = s :: ss ->
       add_departure pt_line time w
       = (inr tt,
          mkWorld
            (<[pt_line :=
                 mkPublicLine (line_name line) (line_route line) (line_stops line)
                   (mkTimeTable (tt_name t)
                      (mkSchedule (sched_time s) (sched_departure_type s) (sched_duration s)
                         (sched_departures s ++ [mkDeparture BUS_ID time (0, 0, 0)%nat])
                         (sched_stop_times s) :: ss) :: ts)
                   (line_in_pt_folder line)]> (catalog w))
            (error_log w))).
Proof.
  intros Hl. unfold add_departure, bind, get_world, raise. rewrite Hl.
  split; [by intros ->|]. split.
  - intros t ts -> Hs. by rewrite Hs.
  - intros t ts s ss Ht Hs. rewrite Ht, Hs. unfold update_line, modify. do 2 f_equal.
    apply list_eq. intros j. destruct (decide (pt_line = j)) as [<-|Hne].
    + rewrite list_lookup_alter_eq, Hl, list_lookup_insert_eq by (by eapply lookup_lt_Some).
      simpl. unfold setTimeTables. rewrite Ht. simpl. unfold setSchedules. rewrite Hs. done.
    + by rewrite list_lookup_alter_ne, list_lookup_insert_ne.
Qed.

Lemma no_adjacent_dup_cons_inv (x y : Z) (l : list Z) :
  no_adjacent_dup (x :: y :: l) -> x ≠ y ∧ no_adjacent_dup (y :: l).
Proof.
  intros H. split; [by apply (H 0%nat)|].
  intros i a b Ha Hb. by apply (H (S i)).
Qed.

Lemma extend_route_fresh (path route : list Z) (x : Z) :
  no_adjacent_dup (x :: path) -> last route = Some x ->
  extend_route route path = route ++ path.
Proof.
  unfold extend_route. revert route x.
  induction path as [|y path IH]; intros route x Hnd Hl; simpl; [by rewrite app_nil_r|].
  apply no_adjacent_dup_cons_inv in Hnd as [Hxy Hnd]. rewrite Hl.
  destruct (Z.eqb_spec y x) as [->|_]; [done|].
  rewrite (IH (route ++ [y]) y Hnd) by apply last_snoc. by rewrite <- app_assoc.
Qed.

(** X12: laying a path without immediate repetitions after a route: when
    the path begins with the link the route ends with (two successive
    paths overlap at their shared section), that link is not laid twice,
    and the rest of the path follows unchanged; otherwise the whole path
    follows. *)
Theorem extend_route_overlap (route path : list Z) :
  no_adjacent_dup path ->
  extend_route route path
  = route ++ (if decide (last route = head path) then drop 1 path else path).
Proof.
  intros Hnd. destruct path as [|y path].
  { unfold extend_route. simpl. destruct (decide _); by rewrite app_nil_r. }
  destruct (decide (last route = head (y :: path))) as [Hl|Hl]; simpl in Hl.
  - change (drop 1 (y :: path)) with path.
    rewrite <- (extend_route_fresh path route y Hnd Hl).
    unfold extend_route. simpl. by rewrite Hl, Z.eqb_refl.
  - assert (Hstep : extend_route route (y :: path) = extend_route (route ++ [y]) path).
    { unfold extend_route. simpl. destruct (last route) as [l|]; [|done].
      destruct (Z.eqb_spec y l) as [->|_]; done. }
    rewrite Hstep, (extend_route_fresh path (route ++ [y]) y Hnd) by apply last_snoc.
    by rewrite <- app_assoc.
Qed.

(* ------------------------------------------------------------------- *)
(* More on the Dwell-Time Normalizer                                    *)
(* ------------------------------------------------------------------- *)

Lemma dwell_default_not0 (stop_time : num * num) :
  dwell_is0 (dwell_default stop_time).1 = false
  ∧ dwell_is0 (dwell_default stop_time).2 = false.
Proof.
  unfold dwell_default. simpl.
  destruct (dwell_is0 stop_time.1) eqn:E1, (dwell_is0 stop_time.2) eqn:E2;
    rewrite ?dwell_20_not0, ?dwell_10_not0; done.
Qed.

(** X13: after set_dwell_times no stop slot of any line is left with a
    zero dwell time: in every schedule of every timetable of every line,
    the stop time of each of the line's stop slots has a nonzero mean and
    a nonzero deviation.  The pass keeps the number of lines and each
    line's name, route, stop slots and folder, and the error log. *)
Theorem set_dwell_times_leaves_no_zero (w : World num) (i : nat) line' :
  catalog (set_dwell_times w) !! i = Some line' ->
  error_log (set_dwell_times w) = error_log w
  ∧ length (catalog (set_dwell_times w)) = length (catalog w)
  ∧ (∃ line, catalog w !! i = Some line
             ∧ line_name line' = line_name line
             ∧ line_route line' = line_route line
             ∧ line_stops line' = line_stops line
             ∧ line_in_pt_folder line' = line_in_pt_folder line
             ∧ line_departures line' = line_departures line)
  ∧ ∀ timetable' schedule' bus_stop,
      timetable' ∈ line_timetables line' ->
      schedule' ∈ tt_schedules timetable' ->
      bus_stop ∈ line_stops line' ->
      dwell_is0 (getStopTime schedule' bus_stop 1).1 = false
      ∧ dwell_is0 (getStopTime schedule' bus_stop 1).2 = false.
Proof.
  unfold set_dwell_times. simpl. change (@map ?A ?B) with (@fmap list _ A B).
  rewrite list_lookup_fmap, length_fmap.
  destruct (catalog w !! i) as [line|] eqn:Hi; [|done]. simpl. intros [= <-].
  split; [done|]. split; [done|]. split.
  - exists line. do 5 (split; [done|]).
    unfold line_departures, set_dwell_line. simpl.
    destruct (line_timetables line) as [|t ts]; [done|]. simpl.
    destruct (tt_schedules t) as [|s ss]; [done|]. simpl.
    by destruct (fold_set_dwell_stop_header (line_stops line) s) as (_ & _ & _ & ->).
  - intros timetable' schedule' bus_stop Ht Hs Hb. simpl in *.
    change (@map ?A ?B) with (@fmap list _ A B) in Ht.
    apply list_elem_of_fmap in Ht as (t & -> & _). simpl in Hs.
    change (@map ?A ?B) with (@fmap list _ A B) in Hs.
    apply list_elem_of_fmap in Hs as (s & -> & _).
    unfold getStopTime. fold (stop_key bus_stop).
    rewrite fold_set_dwell_stop_lookup, decide_True by (by apply list_elem_of_fmap_2).
    simpl. apply dwell_default_not0.
Qed.

(* ------------------------------------------------------------------- *)
(* More on the Batch Driver                                             *)
(* ------------------------------------------------------------------- *)

Lemma for_each_inv {A} (I : World num -> Prop) (l : list A) (body : A -> M num unit) :
  (∀ x w r w', I w -> body x w = (r, w') -> I w') ->
  ∀ w r w', I w -> for_each l body w = (r, w') -> I w'.
Proof.
  intros Hbody. induction l as [|x l IH]; intros w r w' Hw Hrun; simpl in Hrun.
  { by injection Hrun as _ <-. }
  unfold bind in Hrun. destruct (body x w) as [[e|[]] w1] eqn:Hx.
  - injection Hrun as _ <-. by eapply Hbody.
  - eapply IH; [|exact Hrun]. by eapply Hbody.
Qed.

Lemma appends_warnings_refl log : appends_warnings log log.
Proof. exists []. by rewrite app_nil_r. Qed.

Lemma appends_warnings_trans l1 l2 l3 :
  appends_warnings l1 l2 -> appends_warnings l2 l3 -> appends_warnings l1 l3.
Proof.
  intros (w1 & -> & H1) (w2 & -> & H2). exists (w1 ++ w2).
  split; [by rewrite app_assoc|by apply Forall_app].
Qed.

Lemma appends_warnings_pair log stop_i stop_next path :
  appends_warnings log (log_warning log stop_i stop_next path).
Proof.
  unfold log_warning. destruct (20 <? length path)%nat eqn:Hlen;
    [|apply appends_warnings_refl].
  destruct (bool_decide _); [apply appends_warnings_refl|].
  eexists. split; [done|]. constructor; [|done].
  apply Nat.ltb_lt in Hlen. by repeat eexists.
Qed.

Lemma find_route_legs_appends_warnings stops (w : World num) r w' :
  find_route_legs stops w = (r, w') ->
  catalog w' = catalog w ∧ appends_warnings (error_log w) (error_log w').
Proof.
  unfold find_route_legs, bind, liftE, get_world, modify, ret, raise.
  destruct (sections_of stops) as [e|sections].
  { intros [= _ <-]. split; [done|apply appends_warnings_refl]. }
  assert (Hloop : ∀ l st,
             appends_warnings (st_error_log st)
               (st_error_log (fold_left (find_route_legs_body stops sections) l st))).
  { induction l as [|[i section] l IH]; intros st; [apply appends_warnings_refl|].
    cbn [fold_left]. eapply appends_warnings_trans; [|apply IH].
    unfold find_route_legs_body.
    destruct (sections !! (i + 1)%nat) as [next|]; [|apply appends_warnings_refl].
    destruct (getPath section next) as [path|]; [|apply appends_warnings_refl].
    destruct (stops !! i) as [stop_i|]; [|apply appends_warnings_refl].
    destruct (20 <? length path)%nat eqn:Hlen.
    - destruct (stops !! (i + 1)%nat) as [stop_next|]; [|apply appends_warnings_refl].
      pose proof (appends_warnings_pair (st_error_log st) stop_i stop_next path) as Hg.
      unfold log_warning in Hg. rewrite Hlen in Hg.
      by destruct (bool_decide _), (length path =? 0)%nat.
    - destruct (length path =? 0)%nat; apply appends_warnings_refl. }
  specialize (Hloop (enumerate sections) (mkStitch [] [] [] (error_log w))).
  by destruct (last stops); intros [= _ <-].
Qed.

Lemma add_departure_cases (pt_line : nat) time (w : World num) r w' :
  add_departure pt_line time w = (r, w') ->
  w' = w ∨ w' = mkWorld (alter (with_departure time) pt_line (catalog w)) (error_log w).
Proof.
  unfold add_departure, bind, get_world, raise, update_line, modify.
  destruct (catalog w !! pt_line) as [line|]; [|intros [= _ <-]; by left].
  destruct (line_timetables line) as [|t ts]; [intros [= _ <-]; by left|].
  destruct (tt_schedules t) as [|s ss]; [intros [= _ <-]; by left|].
  intros [= _ <-]. by right.
Qed.

Lemma get_timetable_leg_log file_name leg (w : World num) r w' :
  get_timetable_leg file_name leg w = (r, w') -> error_log w' = error_log w.
Proof.
  unfold get_timetable_leg.
  destruct (length (Stops leg) <? 2)%nat; [by intros [= _ <-]|].
  destruct (head (Stops leg)) as [first|]; [|by intros [= _ <-]].
  destruct (last (Stops leg)) as [last_|]; [|by intros [= _ <-]].
  unfold bind, liftE, get_world.
  destruct (get_route_name file_name first.1 last_.1) as [e|leg_name]; [by intros [= _ <-]|].
  destruct (findByName leg_name w) as [[pt_line|pt_line k|cls]|].
  - unfold ret. simpl. intros Hadd.
    by destruct (add_departure_cases _ _ _ _ _ Hadd) as [-> | ->].
  - by intros [= _ <-].
  - by intros [= _ <-].
  - rewrite create_pt_line_run.
    destruct (added_stops (Route leg) (Stops leg)); [by intros [= _ <-]|].
    unfold ret. simpl. intros Hadd.
    by destruct (add_departure_cases _ _ _ _ _ Hadd) as [-> | ->].
Qed.

Lemma get_timetable_appends_warnings csv_file csv (w : World num) r w' :
  get_timetable csv_file csv w = (r, w') -> appends_warnings (error_log w) (error_log w').
Proof.
  intros Hrun.
  apply (for_each_inv (fun w0 => appends_warnings (error_log w) (error_log w0))
           (enumerate csv) (get_timetable_row csv_file)) with w r;
    [|apply appends_warnings_refl|done].
  clear. intros [i row] w1 r w2 Hw1. unfold get_timetable_row.
  destruct (i =? 0)%nat; [by intros [= _ <-]|].
  unfold bind, liftE.
  destruct (parse_stops _) as [e|stops]; [by intros [= _ <-]|]. cbv zeta.
  destruct (length (match_stops_in_model stops) =? 0)%nat.
  { by destruct (stops !! 0%nat); intros [= _ <-]. }
  destruct (find_route_legs (match_stops_in_model stops) w1) as [[e|legs] w3] eqn:Hf;
    destruct (find_route_legs_appends_warnings _ _ _ _ Hf) as [_ Hlog].
  - intros [= _ <-]. by eapply appends_warnings_trans.
  - intros Hlegs.
    apply (for_each_inv (fun w0 => appends_warnings (error_log w) (error_log w0))
             legs (get_timetable_leg (csv_path_of csv_file))) with w3 r;
      [|by eapply appends_warnings_trans|done].
    intros leg wa ra wb Hwa Hleg. by rewrite (get_timetable_leg_log _ _ _ _ _ Hleg).
Qed.

(** X14: at the end of the main loop the error log reads, from the front:
    one CSV FILE ERROR message for each file at which get_timetable
    raised, with the name of the file and the text of its exception, the
    file that failed last first; then what the log held before the loop;
    then path-length warnings.  The files that failed ([failed_files])
    are those at which get_timetable raises from the state the loop has
    reached at their turn; they are among the files given, in their
    order. *)
Theorem main_loop_log_order csv_files (w : World num) :
  ∃ warnings,
    error_log (main_loop csv_files w)
    = reverse ((fun f => csv_file_error f.1 f.2) <$> failed_files csv_files w)
      ++ error_log w ++ warnings
    ∧ Forall is_length_warning warnings
    ∧ (fst <$> failed_files csv_files w) `sublist_of` (fst <$> csv_files).
Proof.
  unfold main_loop. revert w. induction csv_files as [|csv files IH]; intros w.
  { exists []. rewrite app_nil_r. by do 2 (split; [done|]). }
  cbn [fold_left failed_files].
  destruct (IH (main_loop_body w csv)) as (ws & Hlog & Hws & Hsub).
  rewrite Hlog. unfold main_loop_body at 2.
  destruct (get_timetable csv.1 csv.2 w) as [[e|[]] w1] eqn:Hrun;
    destruct (get_timetable_appends_warnings _ _ _ _ _ Hrun) as (ws0 & Hw1 & Hws0);
    exists (ws0 ++ ws); simpl; rewrite Hw1.
  - split; [|split].
    + rewrite reverse_cons. simpl. by rewrite <- !app_assoc.
    + by apply Forall_app.
    + by constructor.
  - split; [|split].
    + by rewrite <- !app_assoc.
    + by apply Forall_app.
    + by constructor.
Qed.

Lemma line_complete_one_schedule (l : PublicLine num) : line_complete l -> one_schedule l.
Proof. intros (_ & _ & _ & _ & s & Ht & _). unfold one_schedule. rewrite Ht. eauto. Qed.

Lemma with_departure_complete time (l : PublicLine num) :
  line_complete l -> line_complete (with_departure time l).
Proof.
  intros Hc. pose proof (line_complete_one_schedule l Hc) as Hone.
  destruct Hc as (Hf & Hr & Hs & Hd & s & Ht & H1 & H2 & H3).
  split; [done|]. split; [done|]. split; [done|]. split.
  - rewrite with_departure_departures by done. by destruct (line_departures l).
  - exists (addDepartureTime (mkDeparture BUS_ID time (0, 0, 0)%nat) s).
    unfold with_departure. simpl. rewrite Ht. done.
Qed.

Lemma created_line_complete name leg slots time :
  Route leg ≠ [] -> length slots = length (Route leg) ->
  line_complete (with_departure time (created_line name leg slots : PublicLine num)).
Proof.
  intros Hr Hs. split; [done|]. split; [done|]. split; [done|]. split; [done|].
  eexists. split; [done|]. done.
Qed.

Lemma get_timetable_leg_complete file_name leg (w : World num) r w' :
  Forall line_complete (catalog w) ->
  leg_resolves leg ->
  ((2 <= length (Stops leg))%nat -> Route leg ≠ []) ->
  get_timetable_leg file_name leg w = (r, w') ->
  Forall line_complete (catalog w').
Proof.
  intros Hall Hres Hroute. unfold get_timetable_leg.
  destruct (length (Stops leg) <? 2)%nat eqn:Hlen; [by intros [= _ <-]|].
  apply Nat.ltb_ge in Hlen. specialize (Hroute Hlen).
  destruct (head (Stops leg)) as [first|]; [|by intros [= _ <-]].
  destruct (last (Stops leg)) as [last_|]; [|by intros [= _ <-]].
  unfold bind, liftE, get_world.
  destruct (get_route_name file_name first.1 last_.1) as [e|leg_name]; [by intros [= _ <-]|].
  destruct (findByName leg_name w) as [[pt_line|pt_line k|cls]|].
  - unfold ret. simpl. intros Hadd.
    destruct (add_departure_cases _ _ _ _ _ Hadd) as [-> | ->]; [done|]. simpl.
    apply Forall_alter; [done|]. intros x _ Hx. by apply with_departure_complete.
  - by intros [= _ <-].
  - by intros [= _ <-].
  - rewrite create_pt_line_run.
    destruct (added_stops (Route leg) (Stops leg)) as [e|slots] eqn:Hs.
    { destruct (added_stops_resolves (Route leg) (Stops leg) Hres) as [? ?]. congruence. }
    apply added_stops_slots in Hs as [Hslots _].
    set (cl := created_line leg_name leg slots). unfold ret. simpl.
    rewrite (add_departure_run _ first.2 cl);
      [|by apply list_lookup_middle|unfold one_schedule; simpl; eauto].
    simpl. rewrite alter_snoc. intros [= _ <-]. simpl.
    apply Forall_app. split; [done|]. constructor; [|done].
    by apply created_line_complete.
Qed.

Lemma find_route_legs_legs_ok stops legs (w w' : World num) :
  find_route_legs stops w = (inr legs, w') ->
  Forall (fun leg => leg_resolves leg
                     ∧ ((2 <= length (Stops leg))%nat -> Route leg ≠ [])) legs
  ∧ catalog w' = catalog w.
Proof.
  intros H. destruct (find_route_legs_resolves _ _ _ _ H) as [Hres Hcat]. split; [|done].
  destruct (find_route_legs_inr_loop _ _ _ _ H)
    as (sections & stop_last & _ & Hlen & _ & -> & _).
  destruct (find_route_legs_loop_shape stops sections (error_log w) Hlen) as [Hr Hl].
  assert (Hshape : Forall (fun leg => (2 <= length (Stops leg))%nat -> Route leg ≠ [])
            (st_legs (find_route_legs_loop stops sections (mkStitch [] [] [] (error_log w)))
             ++ [mkLeg
                   (st_route (find_route_legs_loop stops sections
                                (mkStitch [] [] [] (error_log w))))
                   (st_route_stops (find_route_legs_loop stops sections
                                      (mkStitch [] [] [] (error_log w))) ++ [stop_last])])).
  { apply Forall_app. split.
    - eapply Forall_impl; [exact Hl|]. intros leg [_ Hiff] H2 Hnil.
      apply Hiff in Hnil. lia.
    - constructor; [|done]. simpl. intros H2 Hnil.
      destruct (leg_single_stop_iff _ _ stop_last Hr) as [_ Hiff].
      apply Hiff in Hnil. lia. }
  rewrite Forall_forall in Hres, Hshape. apply Forall_forall. intros leg Hin.
  split; [by apply Hres|by apply Hshape].
Qed.

Lemma get_timetable_row_complete csv_file i_row (w : World num) r w' :
  Forall line_complete (catalog w) ->
  get_timetable_row csv_file i_row w = (r, w') ->
  Forall line_complete (catalog w').
Proof.
  intros Hall. destruct i_row as [i row]. unfold get_timetable_row.
  destruct (i =? 0)%nat; [by intros [= _ <-]|].
  unfold bind, liftE.
  destruct (parse_stops _) as [e|stops]; [by intros [= _ <-]|]. cbv zeta.
  destruct (length (match_stops_in_model stops) =? 0)%nat.
  { by destruct (stops !! 0%nat); intros [= _ <-]. }
  destruct (find_route_legs (match_stops_in_model stops) w) as [[e|legs] w1] eqn:Hf.
  - intros [= _ <-]. destruct (find_route_legs_appends_warnings _ _ _ _ Hf) as [-> _]. done.
  - destruct (find_route_legs_legs_ok _ _ _ _ Hf) as [Hlegs Hcat].
    rewrite <- Hcat in Hall. clear Hf Hcat. revert w1 r Hall.
    induction Hlegs as [|leg legs [Hres Hroute] _ IH]; intros w1 r Hall; simpl.
    { by intros [= _ <-]. }
    unfold bind.
    destruct (get_timetable_leg (csv_path_of csv_file) leg w1) as [[e|[]] w2] eqn:Hleg;
      pose proof (get_timetable_leg_complete _ _ _ _ _ Hall Hres Hroute Hleg) as Hall2.
    + by intros [= _ <-].
    + by apply IH.
Qed.

Lemma main_loop_complete csv_files (w : World num) :
  Forall line_complete (catalog w) -> Forall line_complete (catalog (main_loop csv_files w)).
Proof.
  unfold main_loop. revert w.
  induction csv_files as [|csv files IH]; intros w Hall; [done|].
  cbn [fold_left]. apply IH. unfold main_loop_body.
  destruct (get_timetable csv.1 csv.2 w) as [[e|[]] w'] eqn:Hrun; simpl;
    apply (for_each_inv (fun w0 => Forall line_complete (catalog w0)) _ _
             (fun i_row w1 r1 w2 => get_timetable_row_complete csv.1 i_row w1 r1 w2)
             _ _ _ Hall Hrun).
Qed.

Lemma set_dwell_line_complete (l : PublicLine num) :
  line_complete l -> line_complete (set_dwell_line l).
Proof.
  intros (Hf & Hr & Hs & Hd & s & Ht & H1 & H2 & H3).
  destruct (fold_set_dwell_stop_header (line_stops l) s) as (E1 & E2 & E3 & E4).
  split; [done|]. split; [done|]. split; [done|]. split.
  - unfold line_departures, set_dwell_line in *. simpl. rewrite Ht in *. simpl in *.
    by rewrite E4.
  - exists (fold_left set_dwell_stop (line_stops l) s).
    unfold set_dwell_line. simpl. rewrite Ht. simpl. split; [done|]. by rewrite E1, E2, E3.
Qed.

(** X15: whatever the directory holds, the result of the whole script
    does not depend on what the model and the log held before, and the
    lines it leaves are all complete: no two bear the same name, and each
    is in the PT folder and has a non-empty route, one stop slot per
    link, at least one departure, and one timetable, named after the
    line, with one fixed full-day schedule. *)
Theorem script_lines_complete dir now (w : World num) :
  script dir now w = script dir now (mkWorld [] [])
  ∧ NoDup (line_name <$> catalog (script dir now w).1)
  ∧ Forall line_complete (catalog (script dir now w).1).
Proof.
  split; [done|]. unfold script. simpl.
  set (csv_files := filter _ dir).
  assert (Hok : registry_ok (catalog (main_loop csv_files (mkWorld (num := num) [] [])))).
  { apply main_loop_registry_ok. split; [apply NoDup_nil_2|constructor]. }
  assert (Hc : Forall line_complete
                 (catalog (main_loop csv_files (mkWorld (num := num) [] [])))).
  { apply main_loop_complete. constructor. }
  change (@map ?A ?B) with (@fmap list _ A B). split.
  - rewrite <- list_fmap_compose.
    erewrite list_fmap_ext; [apply Hok|]. by intros _ l _.
  - apply Forall_fmap. eapply Forall_impl; [exact Hc|]. apply set_dwell_line_complete.
Qed.

(** The legs do not depend on the error log the loop starts with. *)
Lemma find_route_legs_loop_any_log stops sections log1 log2 :
  let st1 := find_route_legs_loop stops sections (mkStitch [] [] [] log1) in
  let st2 := find_route_legs_loop stops sections (mkStitch [] [] [] log2) in
  st_legs st1 = st_legs st2
  ∧ st_route st1 = st_route st2
  ∧ st_route_stops st1 = st_route_stops st2.
Proof.
  unfold find_route_legs_loop. generalize (enumerate sections). intros l.
  cut (∀ sa sb : Stitch,
         st_legs sa = st_legs sb ∧ st_route sa = st_route sb
         ∧ st_route_stops sa = st_route_stops sb ->
         let ra := fold_left (find_route_legs_body stops sections) l sa in
         let rb := fold_left (find_route_legs_body stops sections) l sb in
         st_legs ra = st_legs rb ∧ st_route ra = st_route rb
         ∧ st_route_stops ra = st_route_stops rb).
  { intros H. by apply H. }
  induction l as [|[i section] l IH]; intros sa sb Hab; [done|].
  cbn [fold_left]. apply IH. destruct Hab as (H1 & H2 & H3).
  unfold find_route_legs_body.
  destruct (sections !! (i + 1)%nat) as [next|]; [|done].
  destruct (getPath section next) as [path|]; [|done].
  destruct (stops !! i) as [stop_i|]; [|done].
  rewrite H1, H2, H3.
  destruct (20 <? length path)%nat.
  - destruct (stops !! (i + 1)%nat) as [stop_next|]; [|done].
    by do 2 destruct (bool_decide _); destruct (length path =? 0)%nat.
  - by destruct (length path =? 0)%nat.
Qed.

Lemma find_route_legs_any_world stops legs (w w' w0 : World num) :
  find_route_legs stops w = (inr legs, w') ->
  (find_route_legs stops w0).1 = inr legs.
Proof.
  intros H.
  destruct (find_route_legs_inr_loop _ _ _ _ H) as (sections & stop_last & Hs & _ & Hl & -> & _).
  rewrite (find_route_legs_returns _ _ _ w0 Hs Hl). simpl.
  destruct (find_route_legs_loop_any_log stops sections (error_log w) (error_log w0))
    as (-> & -> & ->). done.
Qed.

Lemma get_timetable_row_departures csv_file (i : nat) row (w : World num) :
  registry_ok (catalog w) -> timetables_named (catalog w) ->
  plain_source (csv_path_of csv_file) -> names_free (csv_path_of csv_file) ->
  is_Some (findObjectByExternalId "Bus Station") ->
  row_parses row ->
  ∃ w', get_timetable_row csv_file (S i, row) w = (inr tt, w')
        ∧ registry_ok (catalog w')
        ∧ timetables_named (catalog w')
        ∧ ∀ name, departures_of name (catalog w')
                  = departures_of name (catalog w)
                    ++ omap (leg_departure (csv_path_of csv_file) name) (row_legs row).
Proof.
  intros Hok Htt Hsrc Hfree Hhub [stops Hparse]. unfold get_timetable_row, row_legs.
  cbn [Nat.eqb]. unfold bind, liftE. rewrite Hparse. cbv zeta.
  destruct (length (match_stops_in_model stops) =? 0)%nat eqn:E.
  { exists w. split.
    - apply parse_stops_length in Hparse.
      pose proof (py_split_nonempty "," (py_strip_ws row)) as Hne.
      destruct stops; [|done]. by destruct (py_split _ _).
    - do 2 (split; [done|]). intros name. by rewrite app_nil_r. }
  destruct (sections_of_resolved _ (match_stops_resolve stops Hhub)) as [sections Hs].
  destruct (last (match_stops_in_model stops)) as [stop_last|] eqn:Hl.
  2:{ apply last_None in Hl. by rewrite Hl in E. }
  destruct (find_route_legs (match_stops_in_model stops) w) as [r w1] eqn:Hrun.
  pose proof Hrun as Hrun'. rewrite (find_route_legs_returns _ _ _ w Hs Hl) in Hrun'.
  cbv zeta in Hrun'. injection Hrun' as <- Hw1.
  match type of Hrun with _ = (inr ?l, _) => set (legs := l) in * end.
  pose proof (find_route_legs_any_world _ _ _ _ (mkWorld [] []) Hrun) as Hany.
  destruct (find_route_legs (match_stops_in_model stops) (mkWorld [] [])) as [r0 w0].
  simpl in Hany. subst r0.
  destruct (find_route_legs_resolves _ _ _ _ Hrun) as [Hres Hcat].
  rewrite <- Hcat in Hok, Htt.
  destruct (get_timetable_legs_run (csv_path_of csv_file) legs w1 Hok Htt Hsrc Hfree Hres)
    as (w2 & -> & Hok2 & Htt2 & _ & Hdep).
  exists w2. do 3 (split; [done|]). intros name. by rewrite Hdep, Hcat.
Qed.

Lemma get_timetable_rows_departures csv_file rows :
  plain_source (csv_path_of csv_file) -> names_free (csv_path_of csv_file) ->
  is_Some (findObjectByExternalId "Bus Station") ->
  Forall row_parses rows ->
  ∀ (g : nat -> nat) (w : World num),
    registry_ok (catalog w) -> timetables_named (catalog w) ->
    ∃ w', for_each (imap (fun k row => (S (g k), row)) rows) (get_timetable_row csv_file) w
          = (inr tt, w')
          ∧ ∀ name, departures_of name (catalog w')
                    = departures_of name (catalog w)
                      ++ omap (leg_departure (csv_path_of csv_file) name)
                           (concat (row_legs <$> rows)).
Proof.
  intros Hsrc Hfree Hhub Hrows.
  induction Hrows as [|row rows Hrow _ IH]; intros g w Hok Htt.
  { exists w. split; [done|]. intros name. by rewrite app_nil_r. }
  cbn [imap for_each]. unfold bind.
  destruct (get_timetable_row_departures csv_file (g 0%nat) row w
              Hok Htt Hsrc Hfree Hhub Hrow) as (w1 & -> & Hok1 & Htt1 & Hdep1).
  destruct (IH (g ∘ S) w1 Hok1 Htt1) as (w2 & Hrun2 & Hdep2).
  exists w2. split; [exact Hrun2|]. intros name.
  rewrite Hdep2, Hdep1, fmap_cons. simpl. by rewrite omap_app, app_assoc.
Qed.

(** X16: reading a file whose rows can all be read, whose name does not
    begin like the name of a timetable ("Timetable - ") and whose leg
    names no object of the network bears, the model having the
    "Bus Station" stop and the timetables of the catalog being named
    after their lines: get_timetable returns, and afterwards the
    schedule of every line name holds the departures it held before
    followed by one departure per leg of that name with two stops or
    more, in the order of the rows and, within a row, of the legs. *)
Theorem get_timetable_departures_in_order csv_file header rows (w : World num) :
  registry_ok (catalog w) -> timetables_named (catalog w) ->
  plain_source (csv_path_of csv_file) -> names_free (csv_path_of csv_file) ->
  is_Some (findObjectByExternalId "Bus Station") ->
  Forall row_parses rows ->
  ∃ w', get_timetable csv_file (header :: rows) w = (inr tt, w')
        ∧ ∀ name, departures_of name (catalog w')
                  = departures_of name (catalog w)
                    ++ omap (leg_departure (csv_path_of csv_file) name)
                         (concat (row_legs <$> rows)).
Proof.
  intros Hok Htt Hsrc Hfree Hhub Hrows. unfold get_timetable, enumerate.
  cbn [imap for_each]. unfold bind.
  change (get_timetable_row csv_file (0%nat, header) w) with (@inr exn unit tt, w).
  cbv iota beta.
  apply (get_timetable_rows_departures csv_file rows Hsrc Hfree Hhub Hrows
           (fun k => k) w Hok Htt).
Qed.

(** X17: when the model has the "Bus Station" stop, every visit returned
    by the Stop Resolver is found in the network, and resolving its
    result again changes nothing. *)
Theorem match_stops_in_model_resolved (stops : list StopVisit) :
  is_Some (findObjectByExternalId "Bus Station") ->
  Forall (fun stop : StopVisit => is_Some (findObjectByExternalId stop.1))
         (match_stops_in_model stops)
  ∧ match_stops_in_model (match_stops_in_model stops) = match_stops_in_model stops.
Proof.
  intros Hhub. pose proof (match_stops_resolve stops Hhub) as Hres. split; [done|].
  rewrite (match_stops_omap (match_stops_in_model stops)).
  generalize dependent (match_stops_in_model stops). intros kept Hres.
  induction Hres as [|stop kept [o Ho] _ IH]; [done|].
  change (omap stop_resolver_spec (stop :: kept))
    with (match stop_resolver_spec stop with
          | Some y => y :: omap stop_resolver_spec kept
          | None => omap stop_resolver_spec kept
          end).
  unfold stop_resolver_spec at 1. rewrite Ho. by rewrite IH.
Qed.

Lemma get_timetable_row_quiet csv_file i_row (w : World num) r w' :
  (∀ a b path, getPath a b = Some path -> (length path <= 20)%nat) ->
  get_timetable_row csv_file i_row w = (r, w') -> error_log w' = error_log w.
Proof.
  intros Hshort. destruct i_row as [i row]. unfold get_timetable_row.
  destruct (i =? 0)%nat; [by intros [= _ <-]|].
  unfold bind, liftE.
  destruct (parse_stops _) as [e|stops]; [by intros [= _ <-]|]. cbv zeta.
  destruct (length (match_stops_in_model stops) =? 0)%nat.
  { by destruct (stops !! 0%nat); intros [= _ <-]. }
  destruct (find_route_legs (match_stops_in_model stops) w) as [[e|legs] w1] eqn:Hf.
  - intros [= _ <-]. unfold find_route_legs, bind, liftE, get_world, modify, ret, raise in Hf.
    destruct (sections_of _) as [e'|sections]; [by injection Hf as _ <-|].
    destruct (find_route_legs_loop_log_grows (match_stops_in_model stops) sections
                (mkStitch [] [] [] (error_log w))) as (_ & _ & _ & Hq).
    destruct (last _); injection Hf as _ <-; simpl; by apply Hq.
  - assert (Hlog : error_log w1 = error_log w).
    { unfold find_route_legs, bind, liftE, get_world, modify, ret, raise in Hf.
      destruct (sections_of _) as [e'|sections]; [done|].
      destruct (find_route_legs_loop_log_grows (match_stops_in_model stops) sections
                  (mkStitch [] [] [] (error_log w))) as (_ & _ & _ & Hq).
      destruct (last _); injection Hf as _ <-; simpl; by apply Hq. }
    intros Hlegs. rewrite <- Hlog.
    apply (for_each_inv (fun w0 => error_log w0 = error_log w1)
             legs (get_timetable_leg (csv_path_of csv_file))) with w1 r; [|done|done].
    intros leg wa ra wb Hwa Hleg. by rewrite (get_timetable_leg_log _ _ _ _ _ Hleg).
Qed.

Lemma get_timetable_clean csv_file csv (w : World num) :
  registry_ok (catalog w) -> timetables_named (catalog w) ->
  plain_source (csv_path_of csv_file) -> names_free (csv_path_of csv_file) ->
  is_Some (findObjectByExternalId "Bus Station") ->
  (∀ a b path, getPath a b = Some path -> (length path <= 20)%nat) ->
  Forall row_parses (drop 1 csv) ->
  ∃ w', get_timetable csv_file csv w = (inr tt, w')
        ∧ registry_ok (catalog w') ∧ timetables_named (catalog w')
        ∧ error_log w' = error_log w.
Proof.
  intros Hok Htt Hsrc Hfree Hhub Hshort Hrows.
  assert (Hrun : ∃ w', get_timetable csv_file csv w = (inr tt, w')
                       ∧ registry_ok (catalog w') ∧ timetables_named (catalog w')).
  { destruct csv as [|header rows]; [by exists w|]. simpl in Hrows.
    unfold get_timetable, enumerate. cbn [imap for_each]. unfold bind.
    change (get_timetable_row csv_file (0%nat, header) w) with (@inr exn unit tt, w).
    cbv iota beta.
    by apply (get_timetable_rows csv_file rows (fun k => k) w Hok Htt Hsrc Hfree Hhub). }
  destruct Hrun as (w' & Hrun & Hok' & Htt'). exists w'. do 3 (split; [done|]).
  apply (for_each_inv (fun w0 => error_log w0 = error_log w)
           (enumerate csv) (get_timetable_row csv_file)) with w (inr tt); [|done|done].
  intros i_row wa ra wb Hwa Hrow. by rewrite (get_timetable_row_quiet _ _ _ _ _ Hshort Hrow).
Qed.

(** X18: a clean run.  When the model has the "Bus Station" stop, no path
    is longer than 20 sections, and every .csv file of the directory has
    a name that does not begin like the name of a timetable
    ("Timetable - "), leg names that no object of the network bears, and
    data rows that can all be read, the script ends with an empty error
    log, writes no file and reports that there are no warnings. *)
Theorem script_clean_run dir now (w : World num) :
  is_Some (findObjectByExternalId "Bus Station") ->
  (∀ a b path, getPath a b = Some path -> (length path <= 20)%nat) ->
  Forall (fun file : string * list string =>
            py_endswith file.1 ".csv" = true ->
            plain_source (csv_path_of file.1) ∧ names_free (csv_path_of file.1)
            ∧ Forall row_parses (drop 1 file.2)) dir ->
  error_log (script dir now w).1 = []
  ∧ (script dir now w).2
    = mkOutput None ("Load Bus Timetable complete!" +:+ nl +:+ "No warnings reported.").
Proof.
  intros Hhub Hshort Hdir. unfold script. simpl.
  set (csv_files := filter _ dir).
  assert (Hfiles : Forall (fun file : string * list string =>
                             plain_source (csv_path_of file.1)
                             ∧ names_free (csv_path_of file.1)
                             ∧ Forall row_parses (drop 1 file.2)) csv_files).
  { apply Forall_forall. intros file Hin. unfold csv_files in Hin.
    apply list_elem_of_filter in Hin as [Hcsv Hin].
    rewrite Forall_forall in Hdir. by apply Hdir. }
  assert (Hlog : ∀ w0 : World num,
             registry_ok (catalog w0) -> timetables_named (catalog w0) ->
             error_log (main_loop csv_files w0) = error_log w0).
  { clear Hdir. unfold main_loop.
    induction Hfiles as [|file files (Hsrc & Hfree & Hfile) _ IH]; intros w0 Hok Htt; [done|].
    cbn [fold_left]. unfold main_loop_body at 2.
    destruct (get_timetable_clean file.1 file.2 w0 Hok Htt Hsrc Hfree Hhub Hshort Hfile)
      as (w1 & Hrun & Hok1 & Htt1 & Hlog1).
    unfold main_loop_body at 1. rewrite Hrun. by rewrite IH. }
  rewrite Hlog; [done|split; [apply NoDup_nil_2|constructor]|constructor].
Qed.

End Script.

(* --------------------------------------------------------------------- *)
(* The properties at concrete inputs                                      *)
(* --------------------------------------------------------------------- *)

(** [names_free] on an example: the name of a leg begins with the name
    of the file, which is enough to tell it from the names of the
    example network. *)
Ltac names_free_by_computation :=
  let H := fresh "H" in
  intros ? ? ? H; unfold get_route_name in H;
  repeat match type of H with
         | context [match ?found with Some _ => _ | None => _ end] =>
             destruct found; [|discriminate H]
         end;
  injection H as <-; vm_compute; reflexivity.

Lemma find_route_legs_ABC_witness :
  find_route_legs ex_find ex_getPath ex_trip ex_world
  = (inr [mkLeg [1; 10; 2] [("A", "08:00:00"); ("B", "08:05:00")];
          mkLeg [] [("C", "08:10:00")]], ex_world).
Proof.
  exact (proj1 (find_route_legs_ABC ex_find ex_getPath
                  (mkBusStop 101 "Alpha" 1) (mkBusStop 102 "Beta" 2) (mkBusStop 103 "Gamma" 3)
                  1 10 2 ex_world eq_refl eq_refl eq_refl eq_refl eq_refl)).
Defined.

(** C1 (as the specification words it) fails: on the example network the
    hypotheses hold, yet the result is not a three-link leg with stops
    A, B followed by an empty-route leg with stops B, C. *)
Lemma find_route_legs_ABC_second_leg_not_BC :
  ex_find "A" = Some (mkBusStop 101 "Alpha" 1)
  ∧ ex_find "B" = Some (mkBusStop 102 "Beta" 2)
  ∧ ex_find "C" = Some (mkBusStop 103 "Gamma" 3)
  ∧ ex_getPath 1 2 = Some [1; 10; 2]
  ∧ ex_getPath 2 3 = Some []
  ∧ ¬ ∃ route1 : list Z,
        length route1 = 3%nat
        ∧ (find_route_legs ex_find ex_getPath ex_trip ex_world).1
          = inr [mkLeg route1 [("A", "08:00:00"); ("B", "08:05:00")];
                 mkLeg [] [("B", "08:05:00"); ("C", "08:10:00")]].
Proof.
  repeat split. intros (route1 & _ & H). vm_compute in H. discriminate H.
Qed.

(** C3, where the script departs from it: a timetable bears the name of
    a leg.  In [ex_shadowed_batch] the file 12.csv leaves the line
    "12: Alpha [A] to Beta [B]" with its timetable
    "Timetable - 12: Alpha [A] to Beta [B]".  The two legs of the file
    "Timetable - 12.csv" both compute that very name: the catalog lookup,
    which names no type, returns the timetable, no line is created, and
    add_departure raises on the first leg.  At the end of the loop no line
    bears the name of the two legs, none of their departures is recorded,
    and the file is reported as a CSV FILE ERROR. *)
Lemma line_registry_timetable_shadows_leg_name :
  let name := "Timetable - 12: Alpha [A] to Beta [B]" in
  let file_name := csv_path_of "Timetable - 12.csv" in
  let legs := [mkLeg [1; 10; 2] [("A", "09:00:00"); ("B", "09:05:00")];
               mkLeg [1; 10; 2] [("A", "10:00:00"); ("B", "10:05:00")]] in
  let w1 :=
    main_loop ex_find ex_getPath ex_findByName (take 1 ex_shadowed_batch) ex_world in
  let w2 := main_loop ex_find ex_getPath ex_findByName ex_shadowed_batch ex_world in
  Forall (fun leg => leg_name ex_find file_name leg = Some name) legs
  ∧ (line_name <$> catalog w1) = ["12: Alpha [A] to Beta [B]"]
  ∧ findByName ex_findByName name w1 = Some (ObjTimeTable 0 0)
  ∧ for_each legs (get_timetable_leg ex_find ex_findByName file_name) w1
    = (inl (AttributeErrorOn "GKPublicLineTimeTable" "getTimeTables"), w1)
  ∧ lines_named name (catalog w2) = []
  ∧ departures_of name (catalog w2) = []
  ∧ catalog w2 = catalog w1
  ∧ error_log w2
    = ["CSV FILE ERROR: Could not parse Timetable - 12.csv. "
       +:+ "'GKPublicLineTimeTable' object has no attribute 'getTimeTables'."].
Proof. vm_compute. repeat split; repeat constructor. Qed.

Lemma line_registry_one_line_per_plain_name_witness :
  ∃ w', for_each ex_legs (get_timetable_leg ex_find ex_findByName (csv_path_of "12.csv"))
          ex_world
        = (inr tt, w')
        ∧ ∀ name,
            (length (lines_named name (catalog w')) <= 1)%nat
            ∧ departures_of name (catalog w')
              = departures_of name (catalog ex_world)
                ++ omap (leg_departure ex_find (csv_path_of "12.csv") name) ex_legs
            ∧ (omap (leg_departure ex_find (csv_path_of "12.csv") name) ex_legs ≠ []
               -> ∃ l, lines_named name (catalog w') = [l] ∧ one_schedule l).
Proof.
  apply (line_registry_one_line_per_plain_name ex_find ex_findByName
           (csv_path_of "12.csv") ex_legs ex_world).
  - split; [apply NoDup_nil_2 | apply Forall_nil_2].
  - apply Forall_nil_2.
  - reflexivity.
  - names_free_by_computation.
  - unfold ex_legs, leg_resolves. repeat constructor; vm_compute; eauto.
Defined.

(** The two legs of [ex_legs] end up as one line with two departures, in
    the order of the legs. *)
Example ex_legs_one_line :
  (for_each ex_legs (get_timetable_leg ex_find ex_findByName (csv_path_of "12.csv"))
     ex_world).2
  = mkWorld
      [mkPublicLine "12: Alpha [A] to Beta [B]" [1; 10; 2]
         [Some (mkBusStop 101 "Alpha" 1); None; Some (mkBusStop 102 "Beta" 2)]
         [mkTimeTable "Timetable - 12: Alpha [A] to Beta [B]"
            [mkSchedule (0, 0, 0)%nat eFixed (23, 59, 59)%nat
               [mkDeparture 9 "08:00:00" (0, 0, 0)%nat;
                mkDeparture 9 "09:00:00" (0, 0, 0)%nat] ∅]]
         true]
      [].
Proof. vm_compute. reflexivity. Qed.

Lemma short_legs_never_promoted_witness :
  get_timetable_leg ex_find ex_findByName (csv_path_of "12.csv")
    (mkLeg [] [("C", "08:10:00")]) ex_world
  = (inr tt, ex_world)
  ∧ find_route_legs ex_find ex_getPath [("C", "08:10:00")] ex_world
    = (inr [mkLeg [] [("C", "08:10:00")]], ex_world).
Proof.
  pose proof (short_legs_never_promoted (num := Z) ex_find ex_getPath ex_findByName
                (csv_path_of "12.csv"))
    as (Hshort & _ & Hone).
  split.
  - apply Hshort. simpl. lia.
  - apply (Hone ("C", "08:10:00") (mkBusStop 103 "Gamma" 3) ex_world). reflexivity.
Defined.

Lemma find_route_legs_no_adjacent_dup_witness :
  Forall (fun leg => no_adjacent_dup (Route leg))
    [mkLeg [1; 10; 2] [("A", "08:00:00"); ("B", "08:05:00")]; mkLeg [] [("C", "08:10:00")]].
Proof.
  apply (find_route_legs_no_adjacent_dup ex_find ex_getPath ex_trip _ ex_world ex_world).
  vm_compute. reflexivity.
Defined.

(** On the trip C, A, B the query from C's section to A's raises. *)
Lemma find_route_legs_swallows_query_failure_witness :
  let stops := [("C", "07:50:00"); ("A", "08:00:00"); ("B", "08:05:00")] in
  let st := mkStitch [] [] [] ["earlier warning"] in
  find_route_legs_body ex_getPath stops [3; 1; 2] st (0%nat, 3) = st
  ∧ find_route_legs_loop ex_getPath stops [3; 1; 2] st
    = fold_left (find_route_legs_body ex_getPath stops [3; 1; 2])
        (drop 1 (enumerate [3; 1; 2]))
        (fold_left (find_route_legs_body ex_getPath stops [3; 1; 2])
           (take 0 (enumerate [3; 1; 2])) st).
Proof.
  intros stops st.
  apply (find_route_legs_swallows_query_failure ex_getPath stops [3; 1; 2] 0%nat 3 1 st);
    reflexivity.
Defined.

Lemma get_route_name_strip_csv_witness :
  get_route_name ex_find (csv_path_of "services.csv") "A" "B"
  = inr "ervice: Alpha [A] to Beta [B]"
  ∧ get_route_name ex_find (csv_path_of "services.csv") "A" "B"
    = get_route_name ex_find (csv_path_of "ervice.csv") "A" "B".
Proof.
  destruct (get_route_name_strip_csv ex_find "services.csv" "A" "B"
              (mkBusStop 101 "Alpha" 1) (mkBusStop 102 "Beta" 2))
    as [_ (_ & _ & _ & Hsame)].
  - split; reflexivity.
  - reflexivity.
  - reflexivity.
  - split; [reflexivity | exact Hsame].
Defined.

Lemma set_dwell_times_idempotent_witness :
  set_dwell_times (set_dwell_times ex_dwell_world) = set_dwell_times ex_dwell_world.
Proof. exact (proj1 (set_dwell_times_idempotent ex_dwell_world)). Defined.

(** One run on [ex_dwell_world]: the mean 0 becomes 20, the deviation 7
    stays, and the slot without stop gets (20, 10). *)
Example ex_dwell_once :
  catalog (set_dwell_times ex_dwell_world)
  = [mkPublicLine "12: Alpha [A] to Beta [B]" [1; 10]
       [Some (mkBusStop 101 "Alpha" 1); None]
       [mkTimeTable "Timetable - 12: Alpha [A] to Beta [B]"
          [mkSchedule (0, 0, 0)%nat eFixed (23, 59, 59)%nat []
             (<[(None, 1) := (20, 10)]> (<[(Some 101, 1) := (20, 7)]> ∅))]]
       true].
Proof. vm_compute. reflexivity. Qed.

Lemma output_errors_file_iff_more_than_one_witness :
  out_file (output_errors (mkDateTime 3 11 2026 9 5) ["first"; "second"])
  = Some (csv_path_of "Error Log.txt",
          "03/11/2026" +:+ nl +:+ "09:05" +:+ nl +:+ nl +:+ "2 errors" +:+ nl +:+ nl
          +:+ "first" +:+ nl +:+ "second" +:+ nl)
  ∧ output_errors (mkDateTime 3 11 2026 9 5) ["only one"]
    = mkOutput None ("Load Bus Timetable complete!" +:+ nl +:+ "No warnings reported.").
Proof.
  split.
  - destruct (output_errors_file_iff_more_than_one (mkDateTime 3 11 2026 9 5)
                ["first"; "second"]) as (_ & _ & Hfile).
    destruct Hfile as (text & -> & -> & _); [simpl; lia|]. reflexivity.
  - apply (output_errors_file_iff_more_than_one (mkDateTime 3 11 2026 9 5) ["only one"]).
    simpl. lia.
Defined.

Lemma main_loop_isolates_files_witness :
  main_loop ex_find ex_getPath ex_findByName ex_batch ex_world
  = mkWorld []
      ["CSV FILE ERROR: Could not parse 12.csv. 'NoneType' object has no attribute 'group'."].
Proof.
  destruct (main_loop_isolates_files (num := Z) ex_find ex_getPath ex_findByName)
    as (_ & Hfail & _ & _).
  destruct (Hfail "12.csv" ["stops"] "A" ["A(08:00:00),B(08:05:00)"] []
              (AttributeError "group") ex_world ex_world ex_world) as (Hrun & _ & _).
  - reflexivity.
  - reflexivity.
  - exact Hrun.
Defined.

(** C2 (as the specification words it) fails: in [ex_batch] the first trip
    of the file raises and the second is a sound trip from A to B.  The
    script never reads the second trip and creates no line, where a driver
    that isolated each trip would create one. *)
Lemma main_loop_not_per_trip :
  catalog (main_loop ex_find ex_getPath ex_findByName ex_batch ex_world) = []
  ∧ length (catalog (spec_main_loop ex_find ex_getPath ex_findByName ex_batch ex_world))
    = 1%nat
  ∧ main_loop ex_find ex_getPath ex_findByName ex_batch ex_world
    ≠ spec_main_loop ex_find ex_getPath ex_findByName ex_batch ex_world.
Proof.
  split; [reflexivity|]. split; [reflexivity|].
  intros H. apply (f_equal (fun w => length (catalog w))) in H. vm_compute in H.
  discriminate H.
Qed.

(** A row whose stops are all outside the network. *)
Lemma match_stops_in_model_subsequence_witness :
  get_timetable_row ex_find ex_getPath ex_findByName "12.csv"
    (1%nat, "Q(08:00:00),R(08:01:00)") ex_world
  = (inr tt, ex_world).
Proof.
  destruct (match_stops_in_model_subsequence (num := Z) ex_find ex_getPath ex_findByName
              [("Q", "08:00:00"); ("R", "08:01:00")]) as (_ & _ & _ & _ & Hrow).
  apply Hrow; reflexivity.
Defined.

(** The hub identifier 450030204 is folded into the stop "Bus Station";
    Q, which is neither in the network nor a hub identifier, is dropped. *)
Example ex_hub_folding :
  match_stops_in_model ex_find
    [("A", "08:00:00"); ("Q", "08:01:00"); ("450030204", "08:02:00"); ("B", "08:05:00")]
  = [("A", "08:00:00"); ("Bus Station", "08:02:00"); ("B", "08:05:00")].
Proof. reflexivity. Qed.

(** With doubles, a mean of -0.0 compares equal to 0 and is defaulted. *)
Example ex_dwell_default_float :
  dwell_default ((-0)%float, 2.5%float) = (20%float, 2.5%float)
  ∧ dwell_default (20%float, 0%float) = (20%float, 10%float).
Proof. split; reflexivity. Qed.

(** The whole script on [ex_batch]: no line, one message, hence no file. *)
Example ex_script_run :
  script ex_find ex_getPath ex_findByName (("notes.txt", ["x"]) :: ex_batch)
    (mkDateTime 3 11 2026 9 5)
    ex_dwell_world
  = (mkWorld []
       ["CSV FILE ERROR: Could not parse 12.csv. 'NoneType' object has no attribute 'group'."],
     mkOutput None ("Load Bus Timetable complete!" +:+ nl +:+ "No warnings reported.")).
Proof. vm_compute. reflexivity. Qed.

(* --------------------------------------------------------------------- *)
(* The further properties at concrete inputs                              *)
(* --------------------------------------------------------------------- *)

Lemma find_route_legs_route_empty_iff_single_stop_witness :
  Forall (fun leg => (1 <= length (Stops leg))%nat
                     ∧ (Route leg = [] ↔ length (Stops leg) = 1%nat))
    [mkLeg [1; 10; 2] [("A", "08:00:00"); ("B", "08:05:00")]; mkLeg [] [("C", "08:10:00")]].
Proof.
  apply (find_route_legs_route_empty_iff_single_stop ex_find ex_getPath ex_trip _
           ex_world ex_world).
  vm_compute. reflexivity.
Defined.

(** On the trip C, A, B the query from C to A raises: C is in no leg. *)
Lemma find_route_legs_stops_partition_witness :
  concat (Stops <$> [mkLeg [1; 10; 2] [("A", "08:00:00"); ("B", "08:05:00")]])
  `sublist_of` [("C", "07:50:00"); ("A", "08:00:00"); ("B", "08:05:00")].
Proof.
  apply (find_route_legs_stops_partition ex_find ex_getPath
           [("C", "07:50:00"); ("A", "08:00:00"); ("B", "08:05:00")] [3; 1; 2] _
           ex_world ex_world);
    vm_compute; reflexivity.
Defined.

Lemma find_route_legs_count_witness :
  length [mkLeg [1; 10; 2] [("A", "08:00:00"); ("B", "08:05:00")];
          mkLeg [] [("C", "08:10:00")]]
  = S (length (filter (no_path ex_getPath) (consecutive_pairs [1; 2; 3]))).
Proof.
  apply (find_route_legs_count ex_find ex_getPath ex_trip [1; 2; 3] _ ex_world ex_world);
    vm_compute; reflexivity.
Defined.

Lemma find_route_legs_connected_witness :
  ∃ log, find_route_legs ex_find ex_getPath [("A", "08:00:00"); ("B", "08:05:00")] ex_world
         = (inr [mkLeg (stitched_route ex_getPath [1; 2])
                   [("A", "08:00:00"); ("B", "08:05:00")]],
            mkWorld (catalog ex_world) log).
Proof.
  apply (find_route_legs_connected ex_find ex_getPath
           [("A", "08:00:00"); ("B", "08:05:00")] [1; 2] ex_world).
  - reflexivity.
  - discriminate.
  - intros [|[|i]] a b Ha Hb; simpl in Ha, Hb; try discriminate.
    injection Ha as <-. injection Hb as <-. exists [1; 10; 2]. split; [reflexivity|discriminate].
Defined.

(** With paths of 21 sections, each pair writes its warning once. *)
Lemma find_route_legs_only_logs_warnings_witness :
  catalog (find_route_legs ex_find ex_getPath_long ex_trip ex_world).2 = catalog ex_world
  ∧ log_grows ex_getPath_long (error_log ex_world)
      (error_log (find_route_legs ex_find ex_getPath_long ex_trip ex_world).2).
Proof.
  apply (find_route_legs_only_logs_warnings ex_find ex_getPath_long ex_trip ex_world
           (find_route_legs ex_find ex_getPath_long ex_trip ex_world).1).
  vm_compute. reflexivity.
Defined.

Example ex_long_paths_log :
  error_log (find_route_legs ex_find ex_getPath_long (ex_trip ++ ex_trip) ex_world).2
  = ["PATH LENGTH WARNING: A calculated path between stop A and stop B is 21 sections long. This could be inaccurate.";
     "PATH LENGTH WARNING: A calculated path between stop B and stop C is 21 sections long. This could be inaccurate.";
     "PATH LENGTH WARNING: A calculated path between stop C and stop A is 21 sections long. This could be inaccurate."].
Proof. vm_compute. reflexivity. Qed.

(** The hub identifier 450030204 is kept by the Stop Resolver as the stop
    "Bus Station", which the example network does not have. *)
Lemma find_route_legs_raises_witness :
  get_timetable_row ex_find ex_getPath ex_findByName "12.csv"
    (1%nat, "A(08:00:00),450030204(08:03:00)") ex_world
  = (inl (AttributeError "getSection"), ex_world).
Proof.
  destruct (find_route_legs_raises (num := Z) ex_find ex_getPath ex_findByName ex_world)
    as (_ & _ & Hhub).
  apply (Hhub "12.csv" 0%nat "A(08:00:00),450030204(08:03:00)"
           [("A", "08:00:00"); ("450030204", "08:03:00")] ("450030204", "08:03:00")).
  - reflexivity.
  - reflexivity.
  - right. left.
  - reflexivity.
  - vm_compute. repeat constructor.
Defined.

Lemma parse_stop_token_witness :
  parse_stop (" 450030204 " +:+ "(" +:+ "08:03:00" +:+ ")") = inr ("450030204", "08:03:00")
  ∧ parse_stop " 450030204 " = inl (AttributeError "group")
  ∧ parse_stop "08:03:00" = inl (AttributeError "group").
Proof. apply (parse_stop_token " 450030204 " "08:03:00"); reflexivity. Defined.

Lemma get_timetable_raises_iff_unreadable_witness :
  (∃ w', get_timetable ex_find_hub ex_getPath ex_findByName_hub "12.csv"
           ("stops" :: ["A(08:00:00),B(08:05:00)"; "450030204(09:00:00)"]) ex_world
         = (inr tt, w')
         ∧ registry_ok (catalog w') ∧ timetables_named (catalog w'))
  ∧ (∃ w', get_timetable ex_find_hub ex_getPath ex_findByName_hub "12.csv"
             ("stops" :: ["A(08:00:00),B(08:05:00)"; "450030204"]) ex_world
           = (inl (AttributeError "group"), w')).
Proof.
  split.
  - apply (get_timetable_raises_iff_unreadable ex_find_hub ex_getPath ex_findByName_hub
             "12.csv" "stops" ["A(08:00:00),B(08:05:00)"; "450030204(09:00:00)"] ex_world).
    + split; [apply NoDup_nil_2 | apply Forall_nil_2].
    + apply Forall_nil_2.
    + reflexivity.
    + names_free_by_computation.
    + vm_compute. eauto.
    + repeat constructor; eexists; vm_compute; reflexivity.
  - apply (get_timetable_raises_iff_unreadable ex_find_hub ex_getPath ex_findByName_hub
             "12.csv" "stops" ["A(08:00:00),B(08:05:00)"; "450030204"] ex_world).
    + split; [apply NoDup_nil_2 | apply Forall_nil_2].
    + apply Forall_nil_2.
    + reflexivity.
    + names_free_by_computation.
    + vm_compute. eauto.
    + intros Hall. apply Forall_cons in Hall as [_ Hall].
      apply Forall_cons in Hall as [[stops Hs] _]. vm_compute in Hs. discriminate Hs.
Defined.

Lemma calculate_pt_leg_aligns_stops_witness :
  ∃ slots,
    calculate_pt_leg ex_find 0%nat (mkLeg [1; 10; 2] [("A", "08:00:00"); ("B", "08:05:00")])
      (mkWorld [blank_line] [])
    = (inr tt,
       mkWorld (alter (fun l : PublicLine Z => setStops slots (setRoute [1; 10; 2] l)) 0%nat
                  [blank_line]) [])
    ∧ length slots = 3%nat
    ∧ ∀ (i : nat) link, [1; 10; 2] !! i = Some link ->
        ∃ slot, slots !! i = Some slot
                ∧ first_stop_on ex_find link [("A", "08:00:00"); ("B", "08:05:00")] slot.
Proof.
  apply (calculate_pt_leg_aligns_stops ex_find 0%nat
           (mkLeg [1; 10; 2] [("A", "08:00:00"); ("B", "08:05:00")]) (mkWorld [blank_line] [])).
  unfold leg_resolves. repeat constructor; vm_compute; eauto.
Defined.

Lemma create_pt_line_then_findByName_witness :
  ∃ slots w',
    create_pt_line ex_find "12: Alpha [A] to Beta [B]"
      (mkLeg [1; 10; 2] [("A", "08:00:00"); ("B", "08:05:00")]) ex_world
    = (inr 0%nat, w')
    ∧ w' = mkWorld
             (catalog ex_world
              ++ [created_line "12: Alpha [A] to Beta [B]"
                    (mkLeg [1; 10; 2] [("A", "08:00:00"); ("B", "08:05:00")]) slots])
             (error_log ex_world)
    ∧ length slots = 3%nat
    ∧ findByName ex_findByName "12: Alpha [A] to Beta [B]" w' = Some (ObjPublicLine 0)
    ∧ findByName ex_findByName "Timetable - 12: Alpha [A] to Beta [B]" w'
      = Some (ObjTimeTable 0 0)
    ∧ findByName ex_findByName "12: Alpha [A] to Gamma [C]" w' = None.
Proof.
  destruct (create_pt_line_then_findByName ex_find ex_findByName
              "12: Alpha [A] to Beta [B]"
              (mkLeg [1; 10; 2] [("A", "08:00:00"); ("B", "08:05:00")]) ex_world)
    as (slots & w' & Hrun & Hw & Hlen & Hline & Htt & Hother).
  - reflexivity.
  - unfold leg_resolves. repeat constructor; vm_compute; eauto.
  - exists slots, w'. do 4 (split; [assumption|]). split.
    + apply Htt. reflexivity.
    + rewrite Hother; [reflexivity|discriminate|discriminate].
Defined.

(** A line without timetable cannot take a departure. *)
Lemma add_departure_appends_witness :
  add_departure 0%nat "08:00:00" (mkWorld [blank_line] []) = (inl IndexError, mkWorld (num := Z) [blank_line] []).
Proof.
  destruct (add_departure_appends (num := Z) 0%nat "08:00:00" blank_line
              (mkWorld [blank_line] [])) as (Hnone & _ & _).
  - reflexivity.
  - apply Hnone. reflexivity.
Defined.

(** The path from section 2 on starts with the link the route ends with. *)
Lemma extend_route_overlap_witness :
  extend_route [1; 10; 2] [2; 11; 3] = [1; 10; 2] ++ [11; 3].
Proof.
  apply (extend_route_overlap [1; 10; 2] [2; 11; 3]).
  intros [|[|[|i]]] x y Hx Hy; simpl in Hx, Hy; try discriminate;
    injection Hx as <-; injection Hy as <-; discriminate.
Defined.

Lemma set_dwell_times_leaves_no_zero_witness :
  dwell_is0 (getStopTime
               (mkSchedule (num := Z) (0, 0, 0)%nat eFixed (23, 59, 59)%nat []
                  (<[(None, 1) := (20, 10)]> (<[(Some 101, 1) := (20, 7)]> ∅)))
               None 1).1 = false
  ∧ dwell_is0 (getStopTime
                 (mkSchedule (num := Z) (0, 0, 0)%nat eFixed (23, 59, 59)%nat []
                    (<[(None, 1) := (20, 10)]> (<[(Some 101, 1) := (20, 7)]> ∅)))
                 None 1).2 = false.
Proof.
  destruct (set_dwell_times_leaves_no_zero ex_dwell_world 0%nat
              (mkPublicLine "12: Alpha [A] to Beta [B]" [1; 10]
                 [Some (mkBusStop 101 "Alpha" 1); None]
                 [mkTimeTable "Timetable - 12: Alpha [A] to Beta [B]"
                    [mkSchedule (0, 0, 0)%nat eFixed (23, 59, 59)%nat []
                       (<[(None, 1) := (20, 10)]> (<[(Some 101, 1) := (20, 7)]> ∅))]]
                 true)) as (_ & _ & _ & Hnz).
  - vm_compute. reflexivity.
  - apply (Hnz (mkTimeTable "Timetable - 12: Alpha [A] to Beta [B]"
                  [mkSchedule (0, 0, 0)%nat eFixed (23, 59, 59)%nat []
                     (<[(None, 1) := (20, 10)]> (<[(Some 101, 1) := (20, 7)]> ∅))])).
    + left.
    + left.
    + right. left.
Defined.

Lemma get_timetable_departures_in_order_witness :
  ∃ w', get_timetable ex_find_hub ex_getPath ex_findByName_hub "12.csv"
          ("stops" :: ["A(09:00:00),B(09:05:00)"; "A(08:00:00),B(08:05:00)"]) ex_world
        = (inr tt, w')
        ∧ ∀ name, departures_of name (catalog w')
                  = departures_of name (catalog ex_world)
                    ++ omap (leg_departure ex_find_hub (csv_path_of "12.csv") name)
                         (concat (row_legs (num := Z) ex_find_hub ex_getPath
                                    <$> ["A(09:00:00),B(09:05:00)"; "A(08:00:00),B(08:05:00)"])).
Proof.
  apply (get_timetable_departures_in_order ex_find_hub ex_getPath ex_findByName_hub
           "12.csv" "stops" ["A(09:00:00),B(09:05:00)"; "A(08:00:00),B(08:05:00)"] ex_world).
  - split; [apply NoDup_nil_2 | apply Forall_nil_2].
  - apply Forall_nil_2.
  - reflexivity.
  - names_free_by_computation.
  - vm_compute. eauto.
  - repeat constructor; eexists; vm_compute; reflexivity.
Defined.

(** Departures keep the order of the rows, not that of the clock. *)
Example ex_departures_row_order :
  departures_of "12: Alpha [A] to Beta [B]"
    (catalog (get_timetable ex_find_hub ex_getPath ex_findByName_hub "12.csv"
                ["stops"; "A(09:00:00),B(09:05:00)"; "A(08:00:00),B(08:05:00)"] ex_world).2)
  = [mkDeparture 9 "09:00:00" (0, 0, 0)%nat; mkDeparture 9 "08:00:00" (0, 0, 0)%nat].
Proof. vm_compute. reflexivity. Qed.

Lemma match_stops_in_model_resolved_witness :
  match_stops_in_model ex_find_hub
    (match_stops_in_model ex_find_hub [("A", "08:00:00"); ("450030204", "08:03:00")])
  = match_stops_in_model ex_find_hub [("A", "08:00:00"); ("450030204", "08:03:00")].
Proof.
  apply (match_stops_in_model_resolved ex_find_hub
           [("A", "08:00:00"); ("450030204", "08:03:00")]).
  vm_compute. eauto.
Defined.

Lemma script_clean_run_witness :
  error_log (script ex_find_hub ex_getPath ex_findByName_hub
               [("12.csv", ["stops"; "A(08:00:00),B(08:05:00)"]); ("notes.txt", ["(("])]
               (mkDateTime 3 11 2026 9 5) ex_world).1 = []
  ∧ (script ex_find_hub ex_getPath ex_findByName_hub
       [("12.csv", ["stops"; "A(08:00:00),B(08:05:00)"]); ("notes.txt", ["(("])]
       (mkDateTime 3 11 2026 9 5) ex_world).2
    = mkOutput None ("Load Bus Timetable complete!" +:+ nl +:+ "No warnings reported.").
Proof.
  apply (script_clean_run ex_find_hub ex_getPath ex_findByName_hub
           [("12.csv", ["stops"; "A(08:00:00),B(08:05:00)"]); ("notes.txt", ["(("])]
           (mkDateTime 3 11 2026 9 5) ex_world).
  - vm_compute. eauto.
  - intros a b path. unfold ex_getPath.
    destruct ((a =? 1) && (b =? 2)); [intros [= <-]; simpl; lia|].
    destruct ((a =? 2) && (b =? 3)); [intros [= <-]; simpl; lia|discriminate].
  - constructor; [|constructor; [|constructor]].
    + intros _. split; [reflexivity|]. split; [names_free_by_computation|].
      repeat constructor. eexists. vm_compute. reflexivity.
    + intros H. vm_compute in H. discriminate H.
Defined.

(** On [ex_shadowed_batch] the second file is the one that fails, and its
    message is the whole log. *)
Lemma main_loop_log_order_witness :
  failed_files ex_find ex_getPath ex_findByName ex_shadowed_batch ex_world
  = [("Timetable - 12.csv", AttributeErrorOn "GKPublicLineTimeTable" "getTimeTables")]
  ∧ ∃ warnings,
      error_log (main_loop ex_find ex_getPath ex_findByName ex_shadowed_batch ex_world)
      = reverse ((fun f => csv_file_error f.1 f.2)
                   <$> failed_files ex_find ex_getPath ex_findByName ex_shadowed_batch
                         ex_world)
        ++ error_log ex_world ++ warnings
      ∧ Forall is_length_warning warnings
      ∧ (fst <$> failed_files ex_find ex_getPath ex_findByName ex_shadowed_batch ex_world)
          `sublist_of` (fst <$> ex_shadowed_batch).
Proof.
  split; [vm_compute; reflexivity|].
  apply (main_loop_log_order ex_find ex_getPath ex_findByName ex_shadowed_batch
           ex_world).
Defined.
